(** * Multi-Model-Chat: the multiplexed streaming proxy and its consumer

    A shallow embedding of
    - the chat proxy route ([callOpenRouter], [makeAIRequest] and the
      heartbeat interval of [POST]; second file of [src/unnamed/part_007]),
    - [ConnectionPool] (connectionPool.ts; third file of
      [src/unnamed/part_007]),
    - [SSEConnectionManager] (sseManager.ts; second file of
      [src/unnamed/part_008]),
    and the properties of the design document that concern them.

    Conventions.  JavaScript numbers that hold counters and millisecond
    timestamps are [Z]; the two backoff delays that add [Math.random()] are
    rationals ([Q]); strings are [string], one character per code unit,
    for text whose code units are below 256.
    [Date.now()] is an explicit argument [now].  Callbacks handed to a class
    ([onEvent], [onConnectionChange], [globalEventHandler], ...) are taken
    not to throw and not to call back into the class; they are modelled by
    the list of calls made to them, in order.  The asynchronous methods of
    the pool are cut at their [await]s, each piece being one function; what
    arrives or runs while a manager or an adapter waits (chunks, timers,
    answers of the upstream, the other tasks of the stream) is an argument
    of the function that models it. *)

From Stdlib Require Import ZArith QArith Lia Lqa Ascii String.
From stdpp Require Import base strings list gmap fin_maps pretty.

Local Open Scope string_scope.
Local Open Scope Z_scope.
Local Open Scope list_scope.

(* ===================================================================== *)
(** * JavaScript string primitives used by the sources *)
(* ===================================================================== *)

Module Js.

(** [s.startsWith(p)] *)
Definition startsWith (p s : string) : bool := String.prefix p s.

(** [s.includes(p)] *)
Fixpoint includes (p s : string) : bool :=
  String.prefix p s ||
  match s with
  | EmptyString => false
  | String _ rest => includes p rest
  end.

(** [s.slice(n)] for [n >= 0] *)
Fixpoint slice (n : nat) (s : string) : string :=
  match n, s with
  | O, _ => s
  | S _, EmptyString => EmptyString
  | S k, String _ rest => slice k rest
  end.

(** [s.slice(-n)]: the last [n] characters *)
Definition sliceLast (n : nat) (s : string) : string :=
  slice (String.length s - n) s.

(** [s.split(c)] for a one-character separator: never the empty list. *)
Fixpoint split (sep : ascii) (s : string) : list string :=
  match s with
  | EmptyString => [EmptyString]
  | String c rest =>
      if Ascii.eqb c sep then EmptyString :: split sep rest
      else match split sep rest with
           | [] => [String c EmptyString]
           | h :: t => String c h :: t
           end
  end.

(** [parts.join(sep)] *)
Fixpoint join (sep : string) (parts : list string) : string :=
  match parts with
  | [] => EmptyString
  | [p] => p
  | p :: rest => p +:+ sep +:+ join sep rest
  end.

(** White space and line terminators removed by [trim], among the 256
    characters of [ascii]: tab, line feed, vertical tab, form feed,
    carriage return, space and no-break space (U+00A0). *)
Definition isSpace (c : ascii) : bool :=
  let n := nat_of_ascii c in
  ((9 <=? n)%nat && (n <=? 13)%nat) || (n =? 32)%nat || (n =? 160)%nat.

Fixpoint trimStart (s : string) : string :=
  match s with
  | String c rest => if isSpace c then trimStart rest else s
  | EmptyString => EmptyString
  end.

Definition trim (s : string) : string :=
  String.rev (trimStart (String.rev (trimStart s))).

(** [lines.pop() || ''] reads the last element; [lines] keeps the rest. *)
Definition popOrEmpty (l : list string) : string := List.last l EmptyString.

(** [lines.slice(-n)] *)
Definition lastN {A} (n : nat) (l : list A) : list A :=
  drop (length l - n) l.

Definition nl : ascii := Ascii.ascii_of_nat 10.
Definition nlS : string := String nl EmptyString.

(** Whether the character [c] is absent from [s]. *)
Fixpoint lacks (c : ascii) (s : string) : bool :=
  match s with
  | EmptyString => true
  | String c' rest => negb (Ascii.eqb c' c) && lacks c rest
  end.

(** Whether [s] has a last character and [trim] keeps it. *)
Definition endsClean (s : string) : bool :=
  match String.rev s with
  | String c _ => negb (isSpace c)
  | EmptyString => false
  end.


End Js.

(* ===================================================================== *)
(** * The consumer: [SSEConnectionManager] (sseManager.ts) *)
(* ===================================================================== *)

Module Sse.

Inductive ConnectionStatus :=
| StConnecting | StConnected | StDisconnected | StError.

Record SSEConnectionOptions := {
  maxRetries : Z;
  retryDelay : Z;
  timeout : Z;
  heartbeatInterval : Z;
  reconnectOnDrop : bool;
  bufferSize : Z;
  performanceMonitoring : bool
}.

(** The defaults the constructor spreads under the caller's options. *)
Definition defaultOptions : SSEConnectionOptions :=
  {| maxRetries := 3; retryDelay := 2000; timeout := 60000;
     heartbeatInterval := 10000; reconnectOnDrop := true;
     bufferSize := 8192; performanceMonitoring := true |}.

(** The [data] field of an event handed to [onEvent].  [Parsed d] stands
    for [JSON.parse(d)], or [{ message: d }] when [d] is not JSON: the
    manager never looks inside it. *)
Inductive EventData :=
| Parsed (d : string)
| HeartbeatStamp (timestamp : Z)
| Reconnecting (message : string)
| Failure (message : string) (retryable reconnectionFailed : bool).

(** [SSEEventData]; [type] is whatever follows the last underscore of the
    event name, the cast in the source checks nothing. *)
Record SSEEventData := {
  modelId : string;
  type : string;
  data : EventData
}.

(** What a method does to the outside, in order: calls of the two
    callbacks given to the constructor, the request it sends to
    [/api/chat-proxy] for a list of models, and the time it sleeps. *)
Inductive Effect :=
| OnEvent (e : SSEEventData)
| OnConnectionChange (s : ConnectionStatus)
| Request (models : list string)
| Sleep (ms : Z).

Record Manager := {
  options : SSEConnectionOptions;
  controller : bool;          (* an AbortController is held *)
  reader : bool;              (* a stream reader is held *)
  buffer : string;
  lastActivity : Z;
  heartbeatTimer : bool;      (* the interval is armed *)
  timeoutTimer : bool;        (* the timeout is armed *)
  retryCount : Z;
  isConnected : bool;
  completedModels : gset string;
  connectionStartTime : Z;
  totalBytesReceived : Z;
  chunksProcessed : Z;
  reconnectAttempts : Z;
  maxReconnectAttempts : Z
}.

(** [new SSEConnectionManager(options, onEvent, onConnectionChange)] *)
Definition newManager (opts : SSEConnectionOptions) : Manager :=
  {| options := opts; controller := false; reader := false;
     buffer := ""; lastActivity := 0; heartbeatTimer := false;
     timeoutTimer := false; retryCount := 0; isConnected := false;
     completedModels := ∅; connectionStartTime := 0;
     totalBytesReceived := 0; chunksProcessed := 0;
     reconnectAttempts := 0; maxReconnectAttempts := 5 |}.

Definition cleanup (m : Manager) : Manager :=
  {| options := options m; controller := false; reader := false;
     buffer := ""; lastActivity := lastActivity m;
     heartbeatTimer := false; timeoutTimer := false; retryCount := 0;
     isConnected := isConnected m; completedModels := ∅;
     connectionStartTime := connectionStartTime m;
     totalBytesReceived := totalBytesReceived m;
     chunksProcessed := chunksProcessed m;
     reconnectAttempts := 0;
     maxReconnectAttempts := maxReconnectAttempts m |}.

Definition set_isConnected (b : bool) (m : Manager) : Manager :=
  {| options := options m; controller := controller m; reader := reader m;
     buffer := buffer m; lastActivity := lastActivity m;
     heartbeatTimer := heartbeatTimer m; timeoutTimer := timeoutTimer m;
     retryCount := retryCount m; isConnected := b;
     completedModels := completedModels m;
     connectionStartTime := connectionStartTime m;
     totalBytesReceived := totalBytesReceived m;
     chunksProcessed := chunksProcessed m;
     reconnectAttempts := reconnectAttempts m;
     maxReconnectAttempts := maxReconnectAttempts m |}.

Definition set_lastActivity (t : Z) (m : Manager) : Manager :=
  {| options := options m; controller := controller m; reader := reader m;
     buffer := buffer m; lastActivity := t;
     heartbeatTimer := heartbeatTimer m; timeoutTimer := timeoutTimer m;
     retryCount := retryCount m; isConnected := isConnected m;
     completedModels := completedModels m;
     connectionStartTime := connectionStartTime m;
     totalBytesReceived := totalBytesReceived m;
     chunksProcessed := chunksProcessed m;
     reconnectAttempts := reconnectAttempts m;
     maxReconnectAttempts := maxReconnectAttempts m |}.

Definition set_buffer (b : string) (m : Manager) : Manager :=
  {| options := options m; controller := controller m; reader := reader m;
     buffer := b; lastActivity := lastActivity m;
     heartbeatTimer := heartbeatTimer m; timeoutTimer := timeoutTimer m;
     retryCount := retryCount m; isConnected := isConnected m;
     completedModels := completedModels m;
     connectionStartTime := connectionStartTime m;
     totalBytesReceived := totalBytesReceived m;
     chunksProcessed := chunksProcessed m;
     reconnectAttempts := reconnectAttempts m;
     maxReconnectAttempts := maxReconnectAttempts m |}.

Definition count_chunk (bytes : Z) (m : Manager) : Manager :=
  {| options := options m; controller := controller m; reader := reader m;
     buffer := buffer m; lastActivity := lastActivity m;
     heartbeatTimer := heartbeatTimer m; timeoutTimer := timeoutTimer m;
     retryCount := retryCount m; isConnected := isConnected m;
     completedModels := completedModels m;
     connectionStartTime := connectionStartTime m;
     totalBytesReceived := totalBytesReceived m + bytes;
     chunksProcessed := chunksProcessed m + 1;
     reconnectAttempts := reconnectAttempts m;
     maxReconnectAttempts := maxReconnectAttempts m |}.

Definition add_completed (id : string) (m : Manager) : Manager :=
  {| options := options m; controller := controller m; reader := reader m;
     buffer := buffer m; lastActivity := lastActivity m;
     heartbeatTimer := heartbeatTimer m; timeoutTimer := timeoutTimer m;
     retryCount := retryCount m; isConnected := isConnected m;
     completedModels := {[ id ]} ∪ completedModels m;
     connectionStartTime := connectionStartTime m;
     totalBytesReceived := totalBytesReceived m;
     chunksProcessed := chunksProcessed m;
     reconnectAttempts := reconnectAttempts m;
     maxReconnectAttempts := maxReconnectAttempts m |}.

Definition set_reconnectAttempts (n : Z) (m : Manager) : Manager :=
  {| options := options m; controller := controller m; reader := reader m;
     buffer := buffer m; lastActivity := lastActivity m;
     heartbeatTimer := heartbeatTimer m; timeoutTimer := timeoutTimer m;
     retryCount := retryCount m; isConnected := isConnected m;
     completedModels := completedModels m;
     connectionStartTime := connectionStartTime m;
     totalBytesReceived := totalBytesReceived m;
     chunksProcessed := chunksProcessed m;
     reconnectAttempts := n;
     maxReconnectAttempts := maxReconnectAttempts m |}.

(** [disconnect()] *)
Definition disconnect (m : Manager) : Manager * list Effect :=
  (cleanup (set_isConnected false m), [OnConnectionChange StDisconnected]).

(** [connectWithMessages] from its first line to the call of
    [processStream], for a [fetch] that answers [ok] with a body. *)
Definition connectWithMessages_open (now : Z) (models : list string)
    (m : Manager) : Manager * list Effect :=
  let m1 := cleanup m in
  ({| options := options m1;
      controller := true;
      reader := true;
      buffer := buffer m1;
      lastActivity := now;
      heartbeatTimer := negb (heartbeatInterval (options m1) =? 0);
      timeoutTimer := negb (timeout (options m1) =? 0);
      retryCount := retryCount m1;
      isConnected := true;
      completedModels := completedModels m1;
      connectionStartTime := now;
      totalBytesReceived := 0;
      chunksProcessed := 0;
      reconnectAttempts := reconnectAttempts m1;
      maxReconnectAttempts := maxReconnectAttempts m1 |},
   [OnConnectionChange StConnecting; Request models;
    OnConnectionChange StConnected]).

Definition isTerminal (eventType : string) : bool :=
  String.eqb eventType "end" || String.eqb eventType "error".

Definition underscore : ascii := "_"%char.

(** [handleSSEEvent(event, data)].  The callbacks are taken not to throw,
    so the surrounding [try] never reaches its [catch]. *)
Definition handleSSEEvent (now : Z) (event data : string) (m : Manager)
  : Manager * list Effect :=
  if String.eqb event "heartbeat" then
    (m, [OnEvent {| modelId := ""; type := "heartbeat";
                    data := HeartbeatStamp now |}])
  else
    let eventParts := Js.split underscore event in
    if (length eventParts <? 2)%nat then (m, [])
    else
      let modelId := Js.join "_" (removelast eventParts) in
      let eventType := List.last eventParts "" in
      let parsedData := Parsed data in
      let emitted := [OnEvent {| modelId := modelId; type := eventType;
                                 data := parsedData |}] in
      if isTerminal eventType
      then (add_completed modelId m, emitted)
      else (m, emitted).

(** The [for] loop of [processChunk] over the complete lines: an
    [event: ] line directly followed by a [data: ] line is one record and
    both lines are consumed. *)
Fixpoint dispatchLines (now : Z) (lines : list string) (m : Manager)
  : Manager * list Effect :=
  match lines with
  | [] => (m, [])
  | l :: rest =>
      let line := Js.trim l in
      if Js.startsWith "event: " line then
        let event := Js.slice 7 line in
        match rest with
        | d :: rest' =>
            if Js.startsWith "data: " d then
              let data := Js.slice 6 d in
              let '(m1, e1) := handleSSEEvent now event data m in
              let '(m2, e2) := dispatchLines now rest' m1 in
              (m2, e1 ++ e2)
            else dispatchLines now rest m
        | [] => dispatchLines now rest m
        end
      else dispatchLines now rest m
  end.

(** [this.options.bufferSize || 8192] *)
Definition bufferSizeOrDefault (o : SSEConnectionOptions) : Z :=
  if bufferSize o =? 0 then 8192 else bufferSize o.

(** [processChunk(chunk)]: [chunk] is the decoded text of the bytes read.
    The performance log at the end writes to the console only. *)
Definition processChunk (now : Z) (chunk : string) (m : Manager)
  : Manager * list Effect :=
  let m1 := count_chunk (Z.of_nat (String.length chunk)) m in
  let buf := buffer m1 +:+ chunk in
  let buf :=
    if bufferSizeOrDefault (options m1) * 2 <? Z.of_nat (String.length buf)
    then Js.join Js.nlS (Js.lastN 50 (Js.split Js.nl buf))
    else buf in
  let lines := Js.split Js.nl buf in
  let m2 := set_buffer (Js.popOrEmpty lines) m1 in
  dispatchLines now (removelast lines) m2.

Definition streamEndedError (id : string) : Effect :=
  OnEvent {| modelId := id; type := "error";
             data := Failure "Stream ended unexpectedly" true false |}.

Definition connectionLostError (id : string) : Effect :=
  OnEvent {| modelId := id; type := "error";
             data := Failure
               "Connection lost and could not be restored. Please try again."
               true true |}.

Definition incomplete (expectedModels : list string) (m : Manager)
  : list string :=
  filter (λ id, id ∉ completedModels m) expectedModels.

(** [handleStreamEnd(expectedModels)] *)
Definition handleStreamEnd (expectedModels : list string) (m : Manager)
  : Manager * list Effect :=
  (m, streamEndedError <$> incomplete expectedModels m).

(** [Math.min(1000 * Math.pow(2, reconnectAttempts - 1), 10000)], for
    the values 1, 2, ... the counter has when it is computed. *)
Definition reconnectDelay (attempts : Z) : Z :=
  Z.min (1000 * 2 ^ (attempts - 1)) 10000.

Definition set_timeoutTimer (b : bool) (m : Manager) : Manager :=
  {| options := options m; controller := controller m; reader := reader m;
     buffer := buffer m; lastActivity := lastActivity m;
     heartbeatTimer := heartbeatTimer m; timeoutTimer := b;
     retryCount := retryCount m; isConnected := isConnected m;
     completedModels := completedModels m;
     connectionStartTime := connectionStartTime m;
     totalBytesReceived := totalBytesReceived m;
     chunksProcessed := chunksProcessed m;
     reconnectAttempts := reconnectAttempts m;
     maxReconnectAttempts := maxReconnectAttempts m |}.

(** ** Timers *)

(** The callback of [startHeartbeat] *)
Definition heartbeatCheck (now : Z) (m : Manager) : Manager * list Effect :=
  if heartbeatInterval (options m) * 2 <? now - lastActivity m
  then disconnect m else (m, []).

(** The callback of [setupTimeout]; what it throws after [disconnect]
    is lost in the timer task. *)
Definition timeoutCheck (m : Manager) : Manager * list Effect :=
  if isConnected m then disconnect m else (m, []).

(** A timer that fires while the manager waits for something else than a
    chunk. *)
Inductive Timer :=
| HeartbeatFires (now : Z)
| TimeoutFires.

(** The callbacks of [startHeartbeat] and [setupTimeout] when their
    timers are armed; a timeout that has fired is not armed any more. *)
Definition timerFires (t : Timer) (m : Manager) : Manager * list Effect :=
  match t with
  | HeartbeatFires now =>
      if heartbeatTimer m then heartbeatCheck now m else (m, [])
  | TimeoutFires =>
      if timeoutTimer m
      then let '(m1, e1) := timeoutCheck m in (set_timeoutTimer false m1, e1)
      else (m, [])
  end.

Fixpoint timersFire (ts : list Timer) (m : Manager) : Manager * list Effect :=
  match ts with
  | [] => (m, [])
  | t :: rest =>
      let '(m1, e1) := timerFires t m in
      let '(m2, e2) := timersFire rest m1 in
      (m2, e1 ++ e2)
  end.

(** [handleUnexpectedDisconnection(expectedModels)]; [asleep] are the
    timers that fire while it sleeps: both are still armed and
    [isConnected] is still set, and the targets that are not completed are
    picked after the sleep.  Nothing in its [try] block throws, so its
    [catch] is dead code. *)
Definition handleUnexpectedDisconnection
    (expectedModels : list string) (asleep : list Timer) (m : Manager)
  : Manager * list Effect :=
  if maxReconnectAttempts m <=? reconnectAttempts m then
    handleStreamEnd expectedModels m
  else
    let m1 := set_reconnectAttempts (reconnectAttempts m + 1) m in
    let delay := reconnectDelay (reconnectAttempts m1) in
    let notice :=
      OnEvent {| modelId := ""; type := "progress";
                 data := Reconnecting
                   ("Connection lost, reconnecting... (" +:+
                    pretty (reconnectAttempts m1) +:+ "/" +:+
                    pretty (maxReconnectAttempts m1) +:+ ")") |} in
    let '(m2, woken) := timersFire asleep m1 in
    let incompleteModels := incomplete expectedModels m2 in
    (m2, notice :: Sleep delay
         :: woken ++ (connectionLostError <$> incompleteModels)).

(** [shouldReconnect(error)] for an [Error] with the given message *)
Definition shouldReconnect (message : string) (m : Manager) : bool :=
  if maxReconnectAttempts m <=? reconnectAttempts m then false
  else negb (Js.includes "401" message)
       && negb (Js.includes "403" message)
       && negb (Js.includes "400" message).

(** What can happen while [processStream] waits in [reader.read()]: a
    chunk arrives, or one of the two timers armed by
    [connectWithMessages] fires. *)
Inductive Input :=
| Read (now : Z) (value : string)
| HeartbeatTimer (now : Z)
| TimeoutTimer.

(** How the transport finishes once its chunks are read, and the timers
    that fire while [handleUnexpectedDisconnection], when it is called,
    sleeps. *)
Inductive Ending :=
| Done (asleep : list Timer)
| ReadFails (name message : string) (asleep : list Timer).

Inductive Outcome :=
| Returned
| Thrown (name message : string).

(** The [while (this.isConnected)] loop of [processStream], with its
    [try]/[catch].  A timer that disconnects aborts the controller: the
    pending [read] rejects with an [AbortError], which the [catch]
    swallows. *)
Fixpoint processStream_while (expectedModels : list string)
    (inputs : list Input) (ending : Ending) (m : Manager)
  : Manager * list Effect * Outcome :=
  if negb (isConnected m) then (m, [], Returned)
  else
    match inputs with
    | Read now value :: rest =>
        let '(m1, e1) := processChunk now value (set_lastActivity now m) in
        if (size (completedModels m1) =? length expectedModels)%nat then
          let '(m2, e2) := disconnect m1 in (m2, e1 ++ e2, Returned)
        else
          let '(m2, e2, r) :=
            processStream_while expectedModels rest ending m1 in
          (m2, e1 ++ e2, r)
    | HeartbeatTimer now :: rest =>
        let '(m1, e1) :=
          if heartbeatTimer m then heartbeatCheck now m else (m, []) in
        if isConnected m1 then
          let '(m2, e2, r) :=
            processStream_while expectedModels rest ending m1 in
          (m2, e1 ++ e2, r)
        else (m1, e1, Returned)
    | TimeoutTimer :: rest =>
        let '(m1, e1) :=
          if timeoutTimer m then timeoutCheck m else (m, []) in
        if isConnected m1 then
          let '(m2, e2, r) :=
            processStream_while expectedModels rest ending m1 in
          (m2, e1 ++ e2, r)
        else (m1, e1, Returned)
    | [] =>
        match ending with
        | Done asleep =>
            if (size (completedModels m) <? length expectedModels)%nat
               && reconnectOnDrop (options m)
            then
              let '(m1, e1) :=
                handleUnexpectedDisconnection expectedModels asleep m in
              (m1, e1, Returned)
            else
              let '(m1, e1) := handleStreamEnd expectedModels m in
              (m1, e1, Returned)
        | ReadFails name message asleep =>
            if String.eqb name "AbortError" then (m, [], Returned)
            else if reconnectOnDrop (options m) && shouldReconnect message m
            then
              let '(m1, e1) :=
                handleUnexpectedDisconnection expectedModels asleep m in
              (m1, e1, Returned)
            else (m, [], Thrown name message)
        end
    end.

(** [processStream(expectedModels)] *)
Definition processStream (expectedModels : list string)
    (inputs : list Input) (ending : Ending) (m : Manager)
  : Manager * list Effect * Outcome :=
  if negb (reader m) then (m, [], Thrown "Error" "No reader available")
  else processStream_while expectedModels inputs ending m.

(** ** What a stream carries *)

(** The records the loop of [processChunk] hands to [handleSSEEvent]. *)
Fixpoint records (lines : list string) : list (string * string) :=
  match lines with
  | [] => []
  | l :: rest =>
      let line := Js.trim l in
      if Js.startsWith "event: " line then
        match rest with
        | d :: rest' =>
            if Js.startsWith "data: " d
            then (Js.slice 7 line, Js.slice 6 d) :: records rest'
            else records rest
        | [] => records rest
        end
      else records rest
  end.

(** [handleSSEEvent] on each record in turn. *)
Fixpoint handleAll (now : Z) (recs : list (string * string)) (m : Manager)
  : Manager * list Effect :=
  match recs with
  | [] => (m, [])
  | (event, data) :: rest =>
      let '(m1, e1) := handleSSEEvent now event data m in
      let '(m2, e2) := handleAll now rest m1 in
      (m2, e1 ++ e2)
  end.

(** The buffer [processChunk] leaves and the records it finds, from the
    buffer it starts with and the text read. *)
Definition parseChunk (o : SSEConnectionOptions) (buf chunk : string)
  : string * list (string * string) :=
  let buf := buf +:+ chunk in
  let buf :=
    if bufferSizeOrDefault o * 2 <? Z.of_nat (String.length buf)
    then Js.join Js.nlS (Js.lastN 50 (Js.split Js.nl buf))
    else buf in
  let lines := Js.split Js.nl buf in
  (Js.popOrEmpty lines, records (removelast lines)).

(** The target of an event name when the name is that of a terminal
    event, as [handleSSEEvent] reads it. *)
Definition terminalOf (event : string) : option string :=
  if String.eqb event "heartbeat" then None
  else
    let eventParts := Js.split underscore event in
    if (length eventParts <? 2)%nat then None
    else if isTerminal (List.last eventParts "")
         then Some (Js.join "_" (removelast eventParts))
         else None.

Definition terminals (recs : list (string * string)) : list string :=
  omap (λ r, terminalOf r.1) recs.

(** The targets of the terminal events of a whole transport, in order,
    for a manager that starts reading with the buffer [buf]. *)
Fixpoint streamTerminals (o : SSEConnectionOptions) (buf : string)
    (reads : list (Z * string)) : list string :=
  match reads with
  | [] => []
  | (_, chunk) :: rest =>
      let '(buf', recs) := parseChunk o buf chunk in
      terminals recs ++ streamTerminals o buf' rest
  end.

(** [completedModels.add(id)] for each id in turn. *)
Definition markCompleted (ids : list string) (m : Manager) : Manager :=
  foldl (λ m' id, add_completed id m') m ids.

(** How many times [id] is in a list of targets. *)
Definition occurrences (id : string) (ids : list string) : nat :=
  length (List.filter (λ id', String.eqb id' id) ids).

(** A transport on which only chunks arrive. *)
Definition readsOnly (reads : list (Z * string)) : list Input :=
  (λ r, Read r.1 r.2) <$> reads.

(** The chunks among what arrives. *)
Definition readsOf (inputs : list Input) : list (Z * string) :=
  omap (λ i, match i with
             | Read now value => Some (now, value)
             | _ => None
             end) inputs.

(** The time of the last chunk read, [start] when there is none. *)
Definition lastRead (start : Z) (reads : list (Z * string)) : Z :=
  List.last (reads.*1) start.

(** No timer of [ts] disconnects a manager whose last chunk was read at
    [last]: none is the timeout, and every run of the heartbeat callback
    comes at most [limit] after [last]. *)
Definition timersCalm (limit last : Z) (ts : list Timer) : Prop :=
  Forall (λ t, match t with
               | HeartbeatFires now => now - last ≤ limit
               | TimeoutFires => False
               end) ts.

(** The terminal events among the calls of [onEvent], by target. *)
Definition terminalFor (id : string) (e : Effect) : bool :=
  match e with
  | OnEvent ev => String.eqb (modelId ev) id && isTerminal (type ev)
  | _ => false
  end.

Definition terminalCount (id : string) (es : list Effect) : nat :=
  length (List.filter (terminalFor id) es).

(** The flag [retryable] of an error made up by the manager. *)
Definition syntheticRetryable (e : Effect) : option bool :=
  match e with
  | OnEvent {| data := Failure _ r _ |} => Some r
  | _ => None
  end.

Definition isSleep (e : Effect) : bool :=
  match e with Sleep _ => true | _ => false end.

(** ** Scenarios *)

(** One record of the multiplexed stream, as the server writes it. *)
Definition record (event data : string) : string :=
  "event: " +:+ event +:+ Js.nlS +:+ "data: " +:+ data +:+ Js.nlS +:+ Js.nlS.

Definition isRequest (e : Effect) : bool :=
  match e with Request _ => true | _ => false end.

Definition fourTargets : list string := ["A"; "B"; "C"; "D"].

(** A manager that has just connected for these targets, at time 0. *)
Definition connectedManager : Manager :=
  (connectWithMessages_open 0 fourTargets (newManager defaultOptions)).1.

(** A transport on which two of the four targets end. *)
Definition twoOfFour : list (Z * string) :=
  [(100, record "A_end" "{}" +:+ record "B_chunk" "{}");
   (200, record "B_end" "{}")].

(** A transport that carries the end of target [A] twice. *)
Definition endTwice : list (Z * string) :=
  [(100, record "A_end" "{}"); (200, record "A_end" "{}")].

(** The reading of the design document: with reconnection enabled, a
    transport that ends with targets left leads to an error event only
    once the reconnection attempts are used up. *)
Definition errorsOnlyAfterBudget : Prop :=
  ∀ (expectedModels : list string) (asleep : list Timer) (m : Manager),
    reconnectOnDrop (options m) = true →
    (size (completedModels m) < length expectedModels)%nat →
    ∀ id, (0 < terminalCount id
                 (handleUnexpectedDisconnection expectedModels asleep m).2)%nat →
          maxReconnectAttempts m
          ≤ reconnectAttempts
              (handleUnexpectedDisconnection expectedModels asleep m).1.

(** The reading of the design document: a target that is in
    [completedModels] is delivered no further terminal event. *)
Definition noSecondTerminal : Prop :=
  ∀ (now : Z) (event data : string) (m : Manager) (id : string),
    id ∈ completedModels m →
    terminalCount id (handleSSEEvent now event data m).2 = 0%nat.

(** ** The records of the multiplexed stream *)

(** A record the manager can read back: the event name has no line break
    and does not end in white space, the data has no line break. *)
Definition wellFormed (r : string * string) : bool :=
  Js.lacks Js.nl r.1 && Js.endsClean r.1 && Js.lacks Js.nl r.2.

(** What the server writes for a list of records, one after the other. *)
Definition wire (rs : list (string * string)) : string :=
  foldr (λ r rest, record r.1 r.2 +:+ rest) "" rs.

(** The three lines of a record. *)
Definition recordLines (r : string * string) : list string :=
  ["event: " +:+ r.1; "data: " +:+ r.2; ""].

(** ** Connecting *)

(** What [fetch('/api/chat-proxy')] gives: a response, of which the
    manager reads [ok], [status], [statusText] and whether there is a
    [body], or a rejection with an [Error] of that name and message. *)
Inductive FetchAnswer :=
| Answers (ok : bool) (status : Z) (statusText : string) (body : bool)
| Rejects (name message : string).

(** One run of [connectWithMessages], as the outside decides it: the two
    readings of [Date.now()], whether the timer of [setupTimeout] fires
    while the request is pending and the message of the [AbortError] the
    request then rejects with, the answer, what [processStream] meets, and
    the timers that fire while [retryWithMessages] sleeps. *)
Record Attempt := {
  started : Z;
  timeoutBeforeAnswer : bool;
  abortMessage : string;
  answer : FetchAnswer;
  answered : Z;
  inputs : list Input;
  ending : Ending;
  timersWhileWaiting : list Timer
}.

Definition set_retryCount (n : Z) (m : Manager) : Manager :=
  {| options := options m; controller := controller m; reader := reader m;
     buffer := buffer m; lastActivity := lastActivity m;
     heartbeatTimer := heartbeatTimer m; timeoutTimer := timeoutTimer m;
     retryCount := n; isConnected := isConnected m;
     completedModels := completedModels m;
     connectionStartTime := connectionStartTime m;
     totalBytesReceived := totalBytesReceived m;
     chunksProcessed := chunksProcessed m;
     reconnectAttempts := reconnectAttempts m;
     maxReconnectAttempts := maxReconnectAttempts m |}.

(** [connectWithMessages] from its first line to the [fetch]: [cleanup()],
    the status [connecting], the counters, the controller and
    [setupTimeout()]. *)
Definition connectWithMessages_begin (now : Z) (models : list string)
    (m : Manager) : Manager * list Effect :=
  let m1 := cleanup m in
  ({| options := options m1;
      controller := true;
      reader := reader m1;
      buffer := buffer m1;
      lastActivity := lastActivity m1;
      heartbeatTimer := heartbeatTimer m1;
      timeoutTimer := negb (timeout (options m1) =? 0);
      retryCount := retryCount m1;
      isConnected := isConnected m1;
      completedModels := completedModels m1;
      connectionStartTime := now;
      totalBytesReceived := 0;
      chunksProcessed := 0;
      reconnectAttempts := reconnectAttempts m1;
      maxReconnectAttempts := maxReconnectAttempts m1 |},
   [OnConnectionChange StConnecting; Request models]).

(** The lines after a response that is [ok] and has a body, up to the call
    of [processStream]: the reader, [isConnected], [lastActivity], the
    status [connected] and [startHeartbeat()]. *)
Definition connectWithMessages_connected (now : Z) (m : Manager)
  : Manager * list Effect :=
  ({| options := options m;
      controller := controller m;
      reader := true;
      buffer := buffer m;
      lastActivity := now;
      heartbeatTimer := negb (heartbeatInterval (options m) =? 0);
      timeoutTimer := timeoutTimer m;
      retryCount := retryCount m;
      isConnected := true;
      completedModels := completedModels m;
      connectionStartTime := connectionStartTime m;
      totalBytesReceived := totalBytesReceived m;
      chunksProcessed := chunksProcessed m;
      reconnectAttempts := reconnectAttempts m;
      maxReconnectAttempts := maxReconnectAttempts m |},
   [OnConnectionChange StConnected]).

(** The two tests of [shouldRetry] that look at the error. *)
Definition retryableError (name message : string) : bool :=
  if Js.includes "401" message || Js.includes "403" message then false
  else if String.eqb name "AbortError" then false
  else true.

(** [shouldRetry(error)] for an [Error] of the given name and message *)
Definition shouldRetry (name message : string) (m : Manager) : bool :=
  if maxRetries (options m) <=? retryCount m then false
  else retryableError name message.

(** The error the [try] block ends with before it has a reader: the
    rejection of [fetch], or one of its own two [throw]s. *)
Definition answerError (ans : FetchAnswer) : option (string * string) :=
  match ans with
  | Rejects name message => Some (name, message)
  | Answers ok status statusText body =>
      if negb ok then
        Some ("Error", "HTTP " +:+ pretty status +:+ ": " +:+ statusText)
      else if negb body then Some ("Error", "No response body received")
      else None
  end.

(** [this.options.retryDelay * Math.pow(2, this.retryCount - 1)], for the
    values 1, 2, ... the counter has when it is computed. *)
Definition retryDelayFor (m : Manager) : Z :=
  retryDelay (options m) * 2 ^ (retryCount m - 1).

(** The [try] block of [connectWithMessages] after the request has left:
    how it ends, [None] being the end without an error,
    [Some (name, message)] the error the [catch] receives.  A timeout that
    disconnects aborts the controller, and the pending request rejects. *)
Definition connectWithMessages_try (models : list string) (a : Attempt)
    (m : Manager) : Manager * list Effect * option (string * string) :=
  let '(m1, e1) :=
    if timeoutBeforeAnswer a then timerFires TimeoutFires m else (m, []) in
  if controller m && negb (controller m1) then
    (m1, e1, Some ("AbortError", abortMessage a))
  else
    match answerError (answer a) with
    | Some thrown => (m1, e1, Some thrown)
    | None =>
        let '(m2, e2) := connectWithMessages_connected (answered a) m1 in
        let '(m3, e3, r) := processStream models (inputs a) (ending a) m2 in
        (m3, e1 ++ e2 ++ e3,
         match r with
         | Returned => None
         | Thrown name message => Some (name, message)
         end)
    end.

Inductive ConnectResult :=
| Fulfilled
| RejectedWith (name message : string)
| StillRetrying.

(** [connectWithMessages(messages, models)]; [script n] is what the
    [n]-th run meets, the recursion goes through [retryWithMessages], and
    [fuel] bounds its depth. *)
Fixpoint connectWithMessages_fuel (fuel : nat) (models : list string)
    (script : nat → Attempt) (n : nat) (m : Manager)
  : Manager * list Effect * ConnectResult :=
  match fuel with
  | O => (m, [], StillRetrying)
  | S fuel' =>
      let a := script n in
      let '(m1, e1) := connectWithMessages_begin (started a) models m in
      let '(m2, e2, thrown) := connectWithMessages_try models a m1 in
      match thrown with
      | None => (m2, e1 ++ e2, Fulfilled)
      | Some (name, message) =>
          let e3 := [OnConnectionChange StError] in
          if shouldRetry name message m2 then
            let m3 := set_retryCount (retryCount m2 + 1) m2 in
            let delay := retryDelayFor m3 in
            let '(m4, e4) := timersFire (timersWhileWaiting a) m3 in
            let '(m5, e5, r) :=
              connectWithMessages_fuel fuel' models script (S n) m4 in
            (m5, e1 ++ e2 ++ e3 ++ Sleep delay :: e4 ++ e5, r)
          else (m2, e1 ++ e2 ++ e3, RejectedWith name message)
      end
  end.

(** What a run that goes round [n] times without reading a stream shows
    to the outside. *)
Definition failedRounds (models : list string) (delay : Z) (n : nat)
  : list Effect :=
  flat_map (λ _, [OnConnectionChange StConnecting; Request models;
                  OnConnectionChange StError; Sleep delay]) (seq 0 n).

(** ** Timers against reads *)

(** Every run of the heartbeat callback comes at most [limit] after the
    last chunk read before it ([last] when there is none). *)
Fixpoint heartbeatsFresh (limit last : Z) (inputs : list Input) : Prop :=
  match inputs with
  | [] => True
  | Read now _ :: rest => heartbeatsFresh limit now rest
  | HeartbeatTimer now :: rest =>
      now - last ≤ limit ∧ heartbeatsFresh limit last rest
  | TimeoutTimer :: rest => heartbeatsFresh limit last rest
  end.

Definition isHeartbeatTimer (i : Input) : bool :=
  match i with HeartbeatTimer _ => true | _ => false end.

(** A transport that fails at once, whatever is asked. *)
Definition unreachable (n : nat) : Attempt :=
  {| started := 1000 * Z.of_nat n; timeoutBeforeAnswer := false;
     abortMessage := ""; answer := Rejects "TypeError" "Failed to fetch";
     answered := 0; inputs := []; ending := Done [];
     timersWhileWaiting := [TimeoutFires] |}.

(** A server that refuses the request. *)
Definition refused (status : Z) (n : nat) : Attempt :=
  {| started := 0; timeoutBeforeAnswer := false; abortMessage := "";
     answer := Answers false status "Unauthorized" false;
     answered := 0; inputs := []; ending := Done [];
     timersWhileWaiting := [] |}.


End Sse.

(* ===================================================================== *)
(** * The consumer's pool: [ConnectionPool] (connectionPool.ts) *)
(* ===================================================================== *)

Module Pool.

Record PooledConnection := {
  id : string;
  manager : Sse.Manager;
  models : list string;
  status : Sse.ConnectionStatus;
  createdAt : Z
}.

Record ConnectionPoolOptions := {
  maxConcurrentConnections : Z;
  connectionTimeout : Z;
  retryOptions : Sse.SSEConnectionOptions
}.

Definition defaultOptions : ConnectionPoolOptions :=
  {| maxConcurrentConnections := 3; connectionTimeout := 60000;
     retryOptions := Sse.defaultOptions |}.

(** The event given to [globalEventHandler]:
    [{ ...event, connectionId, timestamp }]. *)
Record EnhancedEvent := {
  event : Sse.SSEEventData;
  connectionId : string;
  timestamp : Z
}.

(** A call of [createConnection] that is suspended at an [await]. *)
Record PendingCreate := {
  pendingId : string;
  pendingModels : list string
}.

(** The two private fields of the class, its options, the work that is
    scheduled or suspended, and the calls made so far to the two global
    handlers. *)
Record ConnectionPool := {
  options : ConnectionPoolOptions;
  connections : gmap string PooledConnection;
  activeConnections : Z;
  removalTimers : list string;         (* 5 s timeouts of handleStatusChange *)
  waitingForSlot : list PendingCreate; (* inside waitForAvailableSlot *)
  closingOld : list PendingCreate;     (* at [await this.closeConnection(id)] *)
  eventCalls : list EnhancedEvent;     (* globalEventHandler *)
  statusCalls : list (string * Sse.ConnectionStatus) (* globalStatusHandler *)
}.

(** [new ConnectionPool(options, globalEventHandler, globalStatusHandler)] *)
Definition newPool (opts : ConnectionPoolOptions) : ConnectionPool :=
  {| options := opts; connections := ∅; activeConnections := 0;
     removalTimers := []; waitingForSlot := []; closingOld := [];
     eventCalls := []; statusCalls := [] |}.

Definition set_connections (c : gmap string PooledConnection)
    (p : ConnectionPool) : ConnectionPool :=
  {| options := options p; connections := c;
     activeConnections := activeConnections p;
     removalTimers := removalTimers p;
     waitingForSlot := waitingForSlot p; closingOld := closingOld p;
     eventCalls := eventCalls p; statusCalls := statusCalls p |}.

Definition set_activeConnections (n : Z) (p : ConnectionPool)
  : ConnectionPool :=
  {| options := options p; connections := connections p;
     activeConnections := n;
     removalTimers := removalTimers p;
     waitingForSlot := waitingForSlot p; closingOld := closingOld p;
     eventCalls := eventCalls p; statusCalls := statusCalls p |}.

Definition set_removalTimers (t : list string) (p : ConnectionPool)
  : ConnectionPool :=
  {| options := options p; connections := connections p;
     activeConnections := activeConnections p;
     removalTimers := t;
     waitingForSlot := waitingForSlot p; closingOld := closingOld p;
     eventCalls := eventCalls p; statusCalls := statusCalls p |}.

Definition set_waitingForSlot (w : list PendingCreate) (p : ConnectionPool)
  : ConnectionPool :=
  {| options := options p; connections := connections p;
     activeConnections := activeConnections p;
     removalTimers := removalTimers p;
     waitingForSlot := w; closingOld := closingOld p;
     eventCalls := eventCalls p; statusCalls := statusCalls p |}.

Definition set_closingOld (w : list PendingCreate) (p : ConnectionPool)
  : ConnectionPool :=
  {| options := options p; connections := connections p;
     activeConnections := activeConnections p;
     removalTimers := removalTimers p;
     waitingForSlot := waitingForSlot p; closingOld := w;
     eventCalls := eventCalls p; statusCalls := statusCalls p |}.

Definition push_eventCall (e : EnhancedEvent) (p : ConnectionPool)
  : ConnectionPool :=
  {| options := options p; connections := connections p;
     activeConnections := activeConnections p;
     removalTimers := removalTimers p;
     waitingForSlot := waitingForSlot p; closingOld := closingOld p;
     eventCalls := eventCalls p ++ [e]; statusCalls := statusCalls p |}.

Definition push_statusCall (c : string * Sse.ConnectionStatus)
    (p : ConnectionPool) : ConnectionPool :=
  {| options := options p; connections := connections p;
     activeConnections := activeConnections p;
     removalTimers := removalTimers p;
     waitingForSlot := waitingForSlot p; closingOld := closingOld p;
     eventCalls := eventCalls p; statusCalls := statusCalls p ++ [c] |}.

Definition set_status (s : Sse.ConnectionStatus) (c : PooledConnection)
  : PooledConnection :=
  {| id := id c; manager := manager c; models := models c;
     status := s; createdAt := createdAt c |}.

(** [removeConnection(connectionId)] *)
Definition removeConnection (connectionId : string) (p : ConnectionPool)
  : ConnectionPool :=
  match connections p !! connectionId with
  | None => p
  | Some _ =>
      let p1 := set_connections (delete connectionId (connections p)) p in
      if 0 <? activeConnections p1
      then set_activeConnections (activeConnections p1 - 1) p1
      else p1
  end.

Definition isClosedStatus (s : Sse.ConnectionStatus) : bool :=
  match s with
  | Sse.StDisconnected | Sse.StError => true
  | _ => false
  end.

(** [handleStatusChange(connectionId, status)]: the [setTimeout] becomes
    an entry of [removalTimers]. *)
Definition handleStatusChange (connectionId : string)
    (s : Sse.ConnectionStatus) (p : ConnectionPool) : ConnectionPool :=
  match connections p !! connectionId with
  | None => p
  | Some _ =>
      let p1 := set_connections
                  (alter (set_status s) connectionId (connections p)) p in
      let p2 := push_statusCall (connectionId, s) p1 in
      if isClosedStatus s
      then set_removalTimers (removalTimers p2 ++ [connectionId]) p2
      else p2
  end.

(** The body of that timeout, run when the [k]-th pending one fires. *)
Definition removalTimerFires (k : nat) (p : ConnectionPool)
  : ConnectionPool :=
  match removalTimers p !! k with
  | None => p
  | Some connectionId =>
      let p1 := set_removalTimers (delete k (removalTimers p)) p in
      match connections p1 !! connectionId with
      | Some _ => removeConnection connectionId p1
      | None => p1
      end
  end.

(** [handleEvent(connectionId, event)] *)
Definition handleEvent (connectionId : string) (ev : Sse.SSEEventData)
    (now : Z) (p : ConnectionPool) : ConnectionPool :=
  match connections p !! connectionId with
  | None => p
  | Some _ =>
      push_eventCall {| event := ev; connectionId := connectionId;
                        timestamp := now |} p
  end.

(** The [onConnectionChange] callback the pool gives to each manager. *)
Definition onManagerEffect (connectionId : string) (p : ConnectionPool)
    (e : Sse.Effect) : ConnectionPool :=
  match e with
  | Sse.OnConnectionChange s => handleStatusChange connectionId s p
  | _ => p
  end.

(** [closeConnection(connectionId)]: no [await] inside, the whole body
    runs when it is called. *)
Definition closeConnection (connectionId : string) (p : ConnectionPool)
  : ConnectionPool :=
  match connections p !! connectionId with
  | None => p
  | Some connection =>
      let '(_, effects) := Sse.disconnect (manager connection) in
      let p1 := foldl (onManagerEffect connectionId) p effects in
      removeConnection connectionId p1
  end.

(** [Array.from(this.connections.keys())] *)
Definition keys (p : ConnectionPool) : list string :=
  (map_to_list (connections p)).*1.

(** [closeAllConnections()]: every [closeConnection(id)] has run by the
    time [map] returns; [Promise.all] waits on promises that are already
    resolved. *)
Definition closeAllConnections (p : ConnectionPool) : ConnectionPool :=
  foldl (λ q connectionId, closeConnection connectionId q) p (keys p).

Definition isStale (maxAge now : Z) (connection : PooledConnection) : bool :=
  (maxAge <? now - createdAt connection)
  && isClosedStatus (status connection).

(** The body of the loop of [cleanupStaleConnections]. *)
Definition cleanupVisit (maxAge now : Z) (acc : ConnectionPool * Z)
    (entry : string * PooledConnection) : ConnectionPool * Z :=
  if isStale maxAge now entry.2
  then (removeConnection entry.1 acc.1, acc.2 + 1)
  else acc.

(** [cleanupStaleConnections(maxAge)]: the loop visits each entry of the
    map once. *)
Definition cleanupStaleConnections (maxAge now : Z) (p : ConnectionPool)
  : ConnectionPool * Z :=
  foldl (cleanupVisit maxAge now) (p, 0) (map_to_list (connections p)).

(** [createConnection] from [new SSEConnectionManager] to the [fetch]
    inside [manager.connectWithMessages], whose first two statements are
    [cleanup()] and [onConnectionChange('connecting')]. *)
Definition createConnection_insert (call : PendingCreate) (now : Z)
    (p : ConnectionPool) : ConnectionPool :=
  let manager := Sse.newManager (retryOptions (options p)) in
  let connection :=
    {| id := pendingId call; manager := manager;
       models := pendingModels call; status := Sse.StConnecting;
       createdAt := now |} in
  let p1 := set_connections
              (<[pendingId call := connection]> (connections p)) p in
  let p2 := set_activeConnections (activeConnections p1 + 1) p1 in
  handleStatusChange (pendingId call) Sse.StConnecting p2.

(** [createConnection] from the test [this.connections.has(id)] on. When
    the id is taken the old connection is closed and the call waits at
    [await this.closeConnection(id)]. *)
Definition createConnection_replace (call : PendingCreate) (now : Z)
    (p : ConnectionPool) : ConnectionPool :=
  match connections p !! pendingId call with
  | Some _ =>
      let p1 := closeConnection (pendingId call) p in
      set_closingOld (closingOld p1 ++ [call]) p1
  | None => createConnection_insert call now p
  end.

(** [createConnection(messages, models, connectionId)] up to its first
    [await]; [generated] is what [generateConnectionId()] would answer. *)
Definition createConnection (models : list string)
    (connectionId : option string) (generated : string) (now : Z)
    (p : ConnectionPool) : ConnectionPool :=
  let id := match connectionId with
            | Some s => if String.eqb s "" then generated else s
            | None => generated
            end in
  let call := {| pendingId := id; pendingModels := models |} in
  if maxConcurrentConnections (options p) <=? activeConnections p
  then set_waitingForSlot (waitingForSlot p ++ [call]) p
  else createConnection_replace call now p.

(** [checkSlot] of the [k]-th waiting call, and the call going on when a
    slot is free. *)
Definition checkSlot (k : nat) (now : Z) (p : ConnectionPool)
  : ConnectionPool :=
  match waitingForSlot p !! k with
  | None => p
  | Some call =>
      if activeConnections p <? maxConcurrentConnections (options p)
      then createConnection_replace call now
             (set_waitingForSlot (delete k (waitingForSlot p)) p)
      else p
  end.

(** The [k]-th call that waits at [await this.closeConnection(id)]
    goes on. *)
Definition createConnection_resume (k : nat) (now : Z) (p : ConnectionPool)
  : ConnectionPool :=
  match closingOld p !! k with
  | None => p
  | Some call =>
      createConnection_insert call now
        (set_closingOld (delete k (closingOld p)) p)
  end.

(** Everything that can happen to a pool, one uninterrupted piece each. *)
Inductive Op :=
| CallCreate (models : list string) (connectionId : option string)
             (generated : string) (now : Z)
| SlotTimer (k : nat) (now : Z)
| ResumeCreate (k : nat) (now : Z)
| ConnectFailed (connectionId : string)   (* the catch of createConnection *)
| CallClose (connectionId : string)
| CallCloseAll
| CallCleanup (maxAge now : Z)
| StatusChange (connectionId : string) (s : Sse.ConnectionStatus)
| EventArrives (connectionId : string) (ev : Sse.SSEEventData) (now : Z)
| RemovalTimer (k : nat).

Definition step (p : ConnectionPool) (op : Op) : ConnectionPool :=
  match op with
  | CallCreate models connectionId generated now =>
      createConnection models connectionId generated now p
  | SlotTimer k now => checkSlot k now p
  | ResumeCreate k now => createConnection_resume k now p
  | ConnectFailed connectionId => removeConnection connectionId p
  | CallClose connectionId => closeConnection connectionId p
  | CallCloseAll => closeAllConnections p
  | CallCleanup maxAge now => (cleanupStaleConnections maxAge now p).1
  | StatusChange connectionId s => handleStatusChange connectionId s p
  | EventArrives connectionId ev now => handleEvent connectionId ev now p
  | RemovalTimer k => removalTimerFires k p
  end.

Definition run (ops : list Op) (p : ConnectionPool) : ConnectionPool :=
  foldl step p ops.

(** Whether the loop of [cleanupStaleConnections] removes the entry of
    [i] when it visits [l], and how many entries of [l] it removes. *)
Definition visitedStale (maxAge now : Z) (i : string)
    (l : list (string * PooledConnection)) : bool :=
  existsb (λ entry, String.eqb entry.1 i && isStale maxAge now entry.2) l.

Definition staleCount (maxAge now : Z)
    (l : list (string * PooledConnection)) : nat :=
  length (List.filter (λ entry, isStale maxAge now entry.2) l).

(** The pieces that belong to a call of [createConnection]. *)
Definition creates (op : Op) : bool :=
  match op with
  | CallCreate _ _ _ _ | SlotTimer _ _ | ResumeCreate _ _ => true
  | _ => false
  end.

(** A suspended [createConnection] goes on to insert under an id that
    is in the map again. *)
Definition resumesOnTakenId (p : ConnectionPool) (op : Op) : Prop :=
  match op with
  | ResumeCreate k _ =>
      ∃ call, closingOld p !! k = Some call
              ∧ is_Some (connections p !! pendingId call)
  | _ => False
  end.

Fixpoint neverResumesOnTakenId (ops : list Op) (p : ConnectionPool) : Prop :=
  match ops with
  | [] => True
  | op :: rest =>
      ¬ resumesOnTakenId p op ∧ neverResumesOnTakenId rest (step p op)
  end.

(** Two calls of [createConnection] for the id ["x"] made one after the
    other without awaiting the first, while ["x"] is in the pool: the first
    closes the old connection and waits, the second inserts, the first goes
    on. *)
Definition overlappingCreates : list Op :=
  [ CallCreate ["m"] (Some "x") "g0" 0;
    CallCreate ["m"] (Some "x") "g1" 1000;
    CallCreate ["m"] (Some "x") "g2" 1000;
    ResumeCreate 0 1000 ].

(** A pool holds ["x"] and ["y"].  A call of [createConnection] for
    ["x"] closes the old connection and waits at its [await];
    [closeAllConnections()] is called; the first call goes on; a chunk
    arrives for ["x"]. *)
Definition closeAllDuringCreate : list Op :=
  [ CallCreate ["m"] (Some "x") "g0" 0;
    CallCreate ["m"] (Some "y") "g1" 0;
    CallCreate ["m"] (Some "x") "g2" 1000;
    CallCloseAll;
    ResumeCreate 0 1000;
    EventArrives "x" {| Sse.modelId := "m"; Sse.type := "chunk";
                        Sse.data := Sse.Parsed "{}" |} 2000 ].

(** A pool of two slots is full; a call of [createConnection] waits in
    [waitForAvailableSlot]; [closeAllConnections()] is called; the next
    [checkSlot] lets the call go on. *)
Definition closeAllWhileWaiting : list Op :=
  [ CallCreate ["m"] (Some "x") "g0" 0;
    CallCreate ["m"] (Some "y") "g1" 0;
    CallCreate ["m"] (Some "z") "g2" 1000;
    CallCloseAll;
    SlotTimer 0 1100 ].

(** A pool with a live connection ["live"] and a closed one ["gone"]. *)
Definition samplePool : ConnectionPool :=
  run [ CallCreate ["m"] (Some "live") "g0" 0;
        CallCreate ["m"] (Some "gone") "g1" 0;
        StatusChange "live" Sse.StConnected;
        StatusChange "gone" Sse.StDisconnected ]
      (newPool defaultOptions).

(** The counter agrees with the map. *)
Definition counterMatches (p : ConnectionPool) : Prop :=
  activeConnections p = Z.of_nat (size (connections p)).

(** ** Calls that do not overlap *)

(** No call of [createConnection] starts, and none leaves
    [waitForAvailableSlot], while another one is suspended at
    [await this.closeConnection(id)]: the caller awaits each call before
    the next. *)
Fixpoint createsOneAtATime (ops : list Op) (p : ConnectionPool) : Prop :=
  match ops with
  | [] => True
  | op :: rest =>
      match op with
      | CallCreate _ _ _ _ | SlotTimer _ _ => closingOld p = []
      | _ => True
      end
      ∧ createsOneAtATime rest (step p op)
  end.

(** The counter, with the calls that are about to insert, is within
    [maxConcurrentConnections]. *)
Definition withinCapacity (p : ConnectionPool) : Prop :=
  activeConnections p + Z.of_nat (length (closingOld p))
  ≤ maxConcurrentConnections (options p).

(** A pool between calls: the counter is the size of the map and within
    the limit, and a suspended call waits for an id that is free. *)
Definition settled (p : ConnectionPool) : Prop :=
  counterMatches p
  ∧ withinCapacity p
  ∧ (length (closingOld p) ≤ 1)%nat
  ∧ Forall (λ call, connections p !! pendingId call = None) (closingOld p).

(** What the pieces that insert nothing do to a pool. *)
Definition shrinks (p q : ConnectionPool) : Prop :=
  options q = options p
  ∧ closingOld q = closingOld p
  ∧ activeConnections q ≤ activeConnections p
  ∧ (∀ i, connections p !! i = None → connections q !! i = None)
  ∧ (counterMatches p → counterMatches q).

(** ** Reading the pool *)

(** [getConnection(connectionId)] *)
Definition getConnection (connectionId : string) (p : ConnectionPool)
  : option PooledConnection :=
  connections p !! connectionId.

(** [getAllConnections()]; the list comes in the order of the model's
    map, which need not be the order of insertion of the [Map]. *)
Definition getAllConnections (p : ConnectionPool) : list PooledConnection :=
  (map_to_list (connections p)).*2.

(** [getActiveConnectionCount()] *)
Definition getActiveConnectionCount (p : ConnectionPool) : Z :=
  activeConnections p.

(** [c.status === s] *)
Definition hasStatus (s : Sse.ConnectionStatus) (c : PooledConnection)
  : bool :=
  match s, status c with
  | Sse.StConnecting, Sse.StConnecting
  | Sse.StConnected, Sse.StConnected
  | Sse.StDisconnected, Sse.StDisconnected
  | Sse.StError, Sse.StError => true
  | _, _ => false
  end.

(** The counts of [getConnectionStats()]; its [performance] array repeats
    each connection with its age and the statistics of its manager. *)
Record ConnectionStats := {
  total : Z;
  active : Z;
  connecting : Z;
  connected : Z;
  error : Z
}.

(** [connections.filter(c => c.status === s).length] *)
Definition countWith (s : Sse.ConnectionStatus)
    (cs : list PooledConnection) : Z :=
  Z.of_nat (length (List.filter (hasStatus s) cs)).

(** [getConnectionStats()] *)
Definition getConnectionStats (p : ConnectionPool) : ConnectionStats :=
  let connections := getAllConnections p in
  {| total := Z.of_nat (length connections);
     active := activeConnections p;
     connecting := countWith Sse.StConnecting connections;
     connected := countWith Sse.StConnected connections;
     error := countWith Sse.StError connections |}.

(** The pool [ChatApp] makes: two slots. *)
Definition twoSlots : ConnectionPoolOptions :=
  {| maxConcurrentConnections := 2; connectionTimeout := 60000;
     retryOptions := Sse.defaultOptions |}.

(** Calls that are each awaited, the second for an id that is taken;
    a call that the two slots make wait, and that goes on when a
    connection is closed. *)
Definition awaitedCreates : list Op :=
  [ CallCreate ["m"] (Some "x") "g0" 0;
    CallCreate ["m"] (Some "x") "g1" 1000;
    ResumeCreate 0 1000;
    CallCreate ["m"] None "g2" 2000;
    StatusChange "x" Sse.StConnected;
    CallCreate ["m"] None "g3" 3000;
    SlotTimer 0 3100;
    CallClose "x";
    SlotTimer 0 3200 ].


End Pool.

(* ===================================================================== *)
(** * The server: upstream adapter, dispatcher and multiplexer
      (api/chat-proxy/route.ts) *)
(* ===================================================================== *)

Module Proxy.

(** ** Errors *)

(** What the [catch] blocks can tell about a thrown value: whether it is a
    [TypeError] (a failed [fetch]), whether its [name] is [AbortError] (the
    30 s timeout aborted the request), or another [Error]. *)
Inductive ErrorKind := PlainError | TypeError | AbortError.

Record APIError := {
  kind : ErrorKind;
  message : string;
  status : option Z;
  retryable : option bool       (* [None] is [undefined] *)
}.

Definition plainError (msg : string) : APIError :=
  {| kind := PlainError; message := msg; status := None;
     retryable := None |}.

Definition isTrue (b : option bool) : bool :=
  match b with Some true => true | _ => false end.

(** ** The upstream, as the adapter sees it *)

(** A response body: the text chunks [reader.read()] delivers, each with
    the time it arrives, then [done], or an error thrown by [read]. *)
Record Stream := {
  chunks : list (Z * string);
  failure : option APIError
}.

Inductive FetchResult :=
| HttpOk (body : option Stream)                 (* [response.ok] *)
| HttpError (status : Z) (errorText : string)   (* [!response.ok] *)
| FetchThrows (e : APIError).

(** [answers n] is what the [fetch] made with [retryCount = n] meets;
    [random n] is the value of [Math.random()] drawn in that call. *)
Record Upstream := {
  apiKey : bool;
  answers : nat → FetchResult;
  random : nat → Q
}.

(** ** Messages of the multiplexed stream *)

(** The JSON payloads, without the time stamps nothing reads
    ([stats.duration] of an end, [timestamp] of an error). *)
Inductive Payload :=
| Progress (status message : string)
| Chunk (token : string) (timestamp : Z)
| End (message : string) (chunkCount : option Z)
| ErrorInfo (message : string) (retryable : bool)
| HeartbeatFirst (timestamp : Z) (models : Z)
| HeartbeatAlive (timestamp : Z) (timeSinceActivity : Z)
| HeartbeatLast (timestamp : Z) (results : Z).

Record SSEMessage := {
  event : string;
  data : Payload
}.

(** ** [callOpenRouter] *)

(** What one adapter does, in order. *)
Inductive Step :=
| Wait (ms : Q)                 (* [await delay(ms)] *)
| Fetch (retryCount : nat)      (* the request leaves *)
| Send (msg : SSEMessage).      (* a message is enqueued *)

Definition maxRetries : nat := 3.

Definition pow2 (n : nat) : Q := inject_Z (2 ^ Z.of_nat n).

(** [Math.pow(2, retryCount) * 2000 + Math.random() * 1000] *)
Definition rateLimitDelay (retryCount : nat) (rnd : Q) : Q :=
  (pow2 retryCount * 2000 + rnd * 1000)%Q.

(** [Math.pow(2, retryCount) * 1000 + Math.random() * 500] *)
Definition networkDelay (retryCount : nat) (rnd : Q) : Q :=
  (pow2 retryCount * 1000 + rnd * 500)%Q.

(** The [switch (response.status)] that builds the error of a response
    that is not [ok]: the message it sets, ... *)
Definition httpMessage (modelName : string) (st : Z) (errorText : string)
  : string :=
  match st with
  | 400 => "Invalid request for " +:+ modelName +:+
           ". The prompt may be too long or contain unsupported content."
  | 401 => "Authentication failed. Please check your API key configuration."
  | 403 => "Access denied for " +:+ modelName +:+
           ". This model may not be available or you may not have permission."
  | 404 => "Model " +:+ modelName +:+
           " not found. This model may have been removed or renamed."
  | 429 => "Rate limit exceeded for " +:+ modelName +:+
           ". OpenRouter allows 20 requests/min for free models. Please try again in a few minutes."
  | 500 | 502 | 503 | 504 =>
           "Server error for " +:+ modelName +:+
           ". The service may be temporarily unavailable."
  | _ => "Request failed for " +:+ modelName +:+ " (" +:+ pretty st
         +:+ "): " +:+ errorText
  end.

(** ... and the [retryable] flag it sets. *)
Definition httpRetryable (st : Z) : bool :=
  match st with
  | 400 | 401 | 403 | 404 => false
  | 429 => true
  | 500 | 502 | 503 | 504 => true
  | _ => 500 <=? st
  end.

Definition httpError (modelName : string) (st : Z) (errorText : string)
  : APIError :=
  {| kind := PlainError;
     message := httpMessage modelName st errorText;
     status := Some st;
     retryable := Some (httpRetryable st) |}.

(** The first statements of the [catch]: a timeout gets its message and
    becomes retryable. *)
Definition noteTimeout (modelName : string) (e : APIError) : APIError :=
  match kind e with
  | AbortError =>
      {| kind := kind e;
         message := "Request timeout for " +:+ modelName +:+
                    ". The model is taking too long to respond.";
         status := status e; retryable := Some true |}
  | _ => e
  end.

(** The test of the comment [// Handle network errors with retry],
    without [retryCount < maxRetries]. *)
Definition looksRetryable (e : APIError) : bool :=
  match kind e with TypeError => true | _ => false end
  || Js.includes "fetch" (message e)
  || Js.includes "network" (message e)
  || Js.includes "timeout" (message e)
  || isTrue (retryable e).

(** The last statement of the [catch] before [throw error]. *)
Definition nameModel (modelName : string) (e : APIError) : APIError :=
  if Js.includes modelName (message e) then e
  else {| kind := kind e; message := modelName +:+ ": " +:+ message e;
          status := status e; retryable := retryable e |}.

Inductive CallResult :=
| Resolved (body : option Stream)
| Rejected (e : APIError)
| OutOfFuel.

(** [if (delayMs > 0) await delay(delayMs)] *)
Definition startWait (delayMs : Q) : list Step :=
  if Qle_bool delayMs 0 then [] else [Wait delayMs].

(** [return callOpenRouter(messages, modelName, 0, retryCount + 1)] after
    [await delay(retryDelay)]; [next] is what that call does.  There is no
    [await] on it, so its rejection is not seen by the [catch] around. *)
Definition retryAfter (before : list Step) (retryDelay : Q)
    (next : list Step * CallResult) : list Step * CallResult :=
  (before ++ Wait retryDelay :: next.1, next.2).

(** The [catch] of [callOpenRouter], entered with the error [thrown] after
    the steps [before]. *)
Definition caught (up : Upstream) (modelName : string) (retryCount : nat)
    (next : list Step * CallResult) (before : list Step) (thrown : APIError)
  : list Step * CallResult :=
  let e := noteTimeout modelName thrown in
  if (retryCount <? maxRetries)%nat && looksRetryable e
  then retryAfter before (networkDelay retryCount (random up retryCount)) next
  else (before, Rejected (nameModel modelName e)).

(** The body of [callOpenRouter(messages, modelName, delayMs, retryCount)],
    given what its recursive call does. *)
Definition callOpenRouter_body (up : Upstream) (modelName : string)
    (delayMs : Q) (retryCount : nat) (next : list Step * CallResult)
  : list Step * CallResult :=
  let waited := startWait delayMs in
  if negb (apiKey up) then
    caught up modelName retryCount next waited
      {| kind := PlainError;
         message := "API key is not configured. Please check your environment variables.";
         status := None; retryable := Some false |}
  else
    let fetched := waited ++ [Fetch retryCount] in
    match answers up retryCount with
    | HttpOk body => (fetched, Resolved body)
    | HttpError st errorText =>
        if (st =? 429) && (retryCount <? maxRetries)%nat
        then retryAfter fetched
               (rateLimitDelay retryCount (random up retryCount)) next
        else caught up modelName retryCount next fetched
               (httpError modelName st errorText)
    | FetchThrows e => caught up modelName retryCount next fetched e
    end.

(** [callOpenRouter]; [fuel] bounds the depth of the recursion, and
    [callOpenRouter] below gives enough of it. *)
Fixpoint callOpenRouter_fuel (fuel : nat) (up : Upstream)
    (modelName : string) (delayMs : Q) (retryCount : nat)
  : list Step * CallResult :=
  match fuel with
  | O => ([], OutOfFuel)
  | S fuel' =>
      callOpenRouter_body up modelName delayMs retryCount
        (callOpenRouter_fuel fuel' up modelName 0%Q (S retryCount))
  end.

Definition callOpenRouter (up : Upstream) (modelName : string)
    (delayMs : Q) (retryCount : nat) : list Step * CallResult :=
  callOpenRouter_fuel (S maxRetries) up modelName delayMs retryCount.

(** ** The multiplexer: the state shared inside [start(controller)] *)

Record Mux := {
  connectionActive : bool;
  lastActivity : Z;
  heartbeatInterval : bool;     (* the interval has not been cleared *)
  writable : bool;              (* [controller.enqueue] does not throw *)
  closed : bool;                (* [controller.close()] was called *)
  sent : list SSEMessage        (* what was enqueued, in order *)
}.

Definition set_connectionActive (b : bool) (x : Mux) : Mux :=
  {| connectionActive := b; lastActivity := lastActivity x;
     heartbeatInterval := heartbeatInterval x; writable := writable x;
     closed := closed x; sent := sent x |}.

Definition set_lastActivity (t : Z) (x : Mux) : Mux :=
  {| connectionActive := connectionActive x; lastActivity := t;
     heartbeatInterval := heartbeatInterval x; writable := writable x;
     closed := closed x; sent := sent x |}.

Definition clearHeartbeat (x : Mux) : Mux :=
  {| connectionActive := connectionActive x; lastActivity := lastActivity x;
     heartbeatInterval := false; writable := writable x;
     closed := closed x; sent := sent x |}.

Definition enqueue (msg : SSEMessage) (x : Mux) : Mux :=
  {| connectionActive := connectionActive x; lastActivity := lastActivity x;
     heartbeatInterval := heartbeatInterval x; writable := writable x;
     closed := closed x; sent := sent x ++ [msg] |}.

Definition close (x : Mux) : Mux :=
  {| connectionActive := connectionActive x; lastActivity := lastActivity x;
     heartbeatInterval := heartbeatInterval x; writable := false;
     closed := true; sent := sent x |}.

(** [sendSSEMessage(event, data)] *)
Definition sendSSEMessage (ev : string) (d : Payload) (x : Mux) : Mux :=
  if negb (connectionActive x) then x
  else if writable x then enqueue {| event := ev; data := d |} x
  else set_connectionActive false x.

(** [cleanup()] *)
Definition cleanup (x : Mux) : Mux :=
  clearHeartbeat (set_connectionActive false x).

Definition staleThreshold : Z := 120000.
Definition heartbeatPeriod : Z := 10000.

(** The callback of [setInterval(..., 10000)], run at time [now]. *)
Definition heartbeatTick (now : Z) (x : Mux) : Mux :=
  if negb (heartbeatInterval x) then x
  else if negb (connectionActive x) then clearHeartbeat x
  else
    let timeSinceActivity := now - lastActivity x in
    if staleThreshold <? timeSinceActivity
    then cleanup (set_connectionActive false x)
    else sendSSEMessage "heartbeat" (HeartbeatAlive now timeSinceActivity) x.

(** [start(controller)] up to the first heartbeat. *)
Definition start (now : Z) (models : list string) : Mux :=
  sendSSEMessage "heartbeat"
    (HeartbeatFirst now (Z.of_nat (length models)))
    {| connectionActive := true; lastActivity := now;
       heartbeatInterval := true; writable := true; closed := false;
       sent := [] |}.

(** The [then] of [Promise.allSettled]. *)
Definition allSettled (now : Z) (results : Z) (x : Mux) : Mux :=
  close (cleanup (sendSSEMessage "heartbeat" (HeartbeatLast now results) x)).


(** A run of the interval callback at the given times. *)
Definition ticks (times : list Z) (x : Mux) : Mux :=
  foldl (λ y now, heartbeatTick now y) x times.

(** ** What else runs on the stream *)

Definition set_writable (b : bool) (x : Mux) : Mux :=
  {| connectionActive := connectionActive x; lastActivity := lastActivity x;
     heartbeatInterval := heartbeatInterval x; writable := b;
     closed := closed x; sent := sent x |}.

(** What runs on the stream while an adapter waits at an [await]: the
    callback of [setInterval]; another adapter, which reads a chunk from
    its upstream ([lastActivity = Date.now()]) or sends a message; the
    consumer going away, after which [controller.enqueue] throws. *)
Inductive Meanwhile :=
| Tick (now : Z)
| ReadAt (now : Z)
| Sent (ev : string) (d : Payload)
| Cancelled.

Definition meanwhile (x : Mux) (e : Meanwhile) : Mux :=
  match e with
  | Tick now => heartbeatTick now x
  | ReadAt now => set_lastActivity now x
  | Sent ev d => sendSSEMessage ev d x
  | Cancelled => set_writable false x
  end.

Definition among (es : list Meanwhile) (x : Mux) : Mux :=
  foldl meanwhile x es.

(** What runs while one adapter waits: during its
    [await callOpenRouter(...)], whose waits and requests do not touch the
    stream, and during its [n]-th [await reader.read()]. *)
Record Others := {
  whileCalling : list Meanwhile;
  whileReading : nat → list Meanwhile
}.

(** Nothing else runs. *)
Definition alone : Others :=
  {| whileCalling := []; whileReading := λ _, [] |}.

(** ** [makeAIRequest] *)

Section Adapter.

(** [deltaContent data] is [JSON.parse(data).choices[0].delta.content]
    when [data] parses and that value is truthy.  Anything else, a
    payload with an [error] field included, leaves the loop body through
    its own [try]/[catch] without a message. *)
Variable deltaContent : string → option string.

(** The variables of the reading loop. *)
Record Reading := {
  buffer : string;
  chunkCount : Z;
  hasReceivedContent : bool
}.

Definition set_buffer (b : string) (r : Reading) : Reading :=
  {| buffer := b; chunkCount := chunkCount r;
     hasReceivedContent := hasReceivedContent r |}.

(** [sendSSEMessage], with the step it adds to the adapter's trace. *)
Definition emit (ev : string) (d : Payload) (x : Mux)
  : Mux * list Step :=
  (sendSSEMessage ev d x,
   if connectionActive x && writable x
   then [Send {| event := ev; data := d |}] else []).

Inductive LoopExit :=
| SawDone                 (* [return] after [DONE] *)
| LeftLoop                (* [break], or the [while] test failed *)
| ReadThrew (e : APIError).

(** [for (const line of lines)]; the boolean tells that the function
    returned at [DONE]. *)
Fixpoint processLines (modelName : string) (now : Z)
    (lines : list string) (r : Reading) (x : Mux)
  : Mux * Reading * list Step * bool :=
  match lines with
  | [] => (x, r, [], false)
  | line :: rest =>
      if negb (connectionActive x) then (x, r, [], false)
      else if Js.startsWith "data: " line then
        let d := Js.slice 6 line in
        if String.eqb d "[DONE]" then
          let '(x1, s1) :=
            emit (modelName +:+ "_end")
              (End (if hasReceivedContent r then "Response completed"
                    else "Response completed (empty)")
                   (Some (chunkCount r))) x in
          (x1, r, s1, true)
        else
          match deltaContent d with
          | Some token =>
              let r1 := {| buffer := buffer r; chunkCount := chunkCount r;
                           hasReceivedContent := true |} in
              let '(x1, s1) :=
                emit (modelName +:+ "_chunk") (Chunk token now) x in
              let '(x2, r2, s2, returned) :=
                processLines modelName now rest r1 x1 in
              (x2, r2, s1 ++ s2, returned)
          | None => processLines modelName now rest r x
          end
      else processLines modelName now rest r x
  end.

(** [while (connectionActive) { ... reader.read() ... }] *)
Fixpoint readLoop (modelName : string) (reads : list (Z * string))
    (failure : option APIError) (r : Reading) (x : Mux)
  : Mux * Reading * list Step * LoopExit :=
  if negb (connectionActive x) then (x, r, [], LeftLoop)
  else
    match reads with
    | [] =>
        match failure with
        | Some e => (x, r, [], ReadThrew e)
        | None => (x, r, [], LeftLoop)
        end
    | (now, chunk) :: rest =>
        let x1 := set_lastActivity now x in
        let r1 := {| buffer := buffer r +:+ chunk;
                     chunkCount := chunkCount r + 1;
                     hasReceivedContent := hasReceivedContent r |} in
        let lines := Js.split Js.nl (buffer r1) in
        let r2 := set_buffer (Js.popOrEmpty lines) r1 in
        let '(x2, r3, s1, returned) :=
          processLines modelName now (removelast lines) r2 x1 in
        if returned then (x2, r3, s1, SawDone)
        else
          let r4 := if 10000 <? Z.of_nat (String.length (buffer r3))
                    then set_buffer (Js.sliceLast 1000 (buffer r3)) r3
                    else r3 in
          let '(x3, r5, s2, ex) := readLoop modelName rest failure r4 x2 in
          (x3, r5, s1 ++ s2, ex)
    end.

(** The outer [catch] of [makeAIRequest]. *)
Definition emitError (modelName : string) (e : APIError) (x : Mux)
  : Mux * list Step :=
  let '(errorMessage, retryable) :=
    if Js.includes "fetch" (message e) then
      ("Network connection failed. Please check your internet connection.",
       true)
    else if Js.includes "timeout" (message e) then
      ("Request timed out. The model may be overloaded.", true)
    else if Js.includes "rate limit" (message e) then
      ("Too many requests. Please wait a moment before trying again.",
       true)
    else (message e, isTrue (retryable e)) in
  emit (modelName +:+ "_error") (ErrorInfo errorMessage retryable) x.

(** [index * 2000] *)
Definition staggerDelay (index : nat) : Q :=
  inject_Z (Z.of_nat index * 2000).

(** [makeAIRequest(modelName, index)] when nothing else runs on the
    stream while it waits; [makeAIRequest_among] below is the adapter
    among the other tasks. *)
Definition makeAIRequest (up : Upstream) (modelName : string)
    (index : nat) (x : Mux) : Mux * list Step :=
  let '(x1, s1) :=
    emit (modelName +:+ "_progress")
         (Progress "connecting" "Connecting to model...") x in
  let delayMs := staggerDelay index in
  let '(s2, result) := callOpenRouter up modelName delayMs 0 in
  match result with
  | OutOfFuel => (x1, s1 ++ s2)
  | Rejected e =>
      let '(x2, s3) := emitError modelName e x1 in (x2, s1 ++ s2 ++ s3)
  | Resolved None =>
      let '(x2, s3) :=
        emitError modelName
          (plainError "No response stream received from the model") x1 in
      (x2, s1 ++ s2 ++ s3)
  | Resolved (Some responseBody) =>
      let '(x2, s3) :=
        emit (modelName +:+ "_progress")
             (Progress "streaming" "Receiving response...") x1 in
      let '(x3, r, s4, ex) :=
        readLoop modelName (chunks responseBody) (failure responseBody)
          {| buffer := ""; chunkCount := 0; hasReceivedContent := false |}
          x2 in
      let '(x4, s5) :=
        match ex with
        | SawDone => (x3, [])
        | ReadThrew e => emitError modelName e x3
        | LeftLoop =>
            if hasReceivedContent r then
              emit (modelName +:+ "_end")
                   (End "Response completed (stream ended)" None) x3
            else
              emitError modelName
                (plainError "Stream ended without receiving any content")
                x3
        end in
      (x4, s1 ++ s2 ++ s3 ++ s4 ++ s5)
  end.

(** [while (connectionActive) { ... reader.read() ... }] among the other
    tasks: [during n] runs while the loop waits for its [n]-th read. *)
Fixpoint readLoop_among (modelName : string) (reads : list (Z * string))
    (failure : option APIError) (during : nat → list Meanwhile) (n : nat)
    (r : Reading) (x : Mux)
  : Mux * Reading * list Step * LoopExit :=
  if negb (connectionActive x) then (x, r, [], LeftLoop)
  else
    let x0 := among (during n) x in
    match reads with
    | [] =>
        match failure with
        | Some e => (x0, r, [], ReadThrew e)
        | None => (x0, r, [], LeftLoop)
        end
    | (now, chunk) :: rest =>
        let x1 := set_lastActivity now x0 in
        let r1 := {| buffer := buffer r +:+ chunk;
                     chunkCount := chunkCount r + 1;
                     hasReceivedContent := hasReceivedContent r |} in
        let lines := Js.split Js.nl (buffer r1) in
        let r2 := set_buffer (Js.popOrEmpty lines) r1 in
        let '(x2, r3, s1, returned) :=
          processLines modelName now (removelast lines) r2 x1 in
        if returned then (x2, r3, s1, SawDone)
        else
          let r4 := if 10000 <? Z.of_nat (String.length (buffer r3))
                    then set_buffer (Js.sliceLast 1000 (buffer r3)) r3
                    else r3 in
          let '(x3, r5, s2, ex) :=
            readLoop_among modelName rest failure during (S n) r4 x2 in
          (x3, r5, s1 ++ s2, ex)
    end.

(** [makeAIRequest(modelName, index)] among the other tasks of the
    stream: [others] is what runs at each of its [await]s. *)
Definition makeAIRequest_among (others : Others) (up : Upstream)
    (modelName : string) (index : nat) (x : Mux) : Mux * list Step :=
  let '(x1, s1) :=
    emit (modelName +:+ "_progress")
         (Progress "connecting" "Connecting to model...") x in
  let delayMs := staggerDelay index in
  let '(s2, result) := callOpenRouter up modelName delayMs 0 in
  let y1 := among (whileCalling others) x1 in
  match result with
  | OutOfFuel => (y1, s1 ++ s2)
  | Rejected e =>
      let '(x2, s3) := emitError modelName e y1 in (x2, s1 ++ s2 ++ s3)
  | Resolved None =>
      let '(x2, s3) :=
        emitError modelName
          (plainError "No response stream received from the model") y1 in
      (x2, s1 ++ s2 ++ s3)
  | Resolved (Some responseBody) =>
      let '(x2, s3) :=
        emit (modelName +:+ "_progress")
             (Progress "streaming" "Receiving response...") y1 in
      let '(x3, r, s4, ex) :=
        readLoop_among modelName (chunks responseBody)
          (failure responseBody) (whileReading others) 0
          {| buffer := ""; chunkCount := 0; hasReceivedContent := false |}
          x2 in
      let '(x4, s5) :=
        match ex with
        | SawDone => (x3, [])
        | ReadThrew e => emitError modelName e x3
        | LeftLoop =>
            if hasReceivedContent r then
              emit (modelName +:+ "_end")
                   (End "Response completed (stream ended)" None) x3
            else
              emitError modelName
                (plainError "Stream ended without receiving any content")
                x3
        end in
      (x4, s1 ++ s2 ++ s3 ++ s4 ++ s5)
  end.

(** [models.map((modelName, index) => makeAIRequest(modelName, index))]:
    the adapters the dispatcher starts, [ups index] being the upstream
    the adapter of that index talks to. *)
Definition dispatch (ups : nat → Upstream) (models : list string)
  : list (Mux → Mux * list Step) :=
  imap (λ index modelName, makeAIRequest (ups index) modelName index)
       models.

End Adapter.

(** Projections of a trace. *)
Definition isFetch (s : Step) : bool :=
  match s with Fetch _ => true | _ => false end.

Definition isWait (s : Step) : bool :=
  match s with Wait _ => true | _ => false end.

Definition waits (t : list Step) : list Q :=
  omap (λ s, match s with Wait d => Some d | _ => None end) t.

Definition fetches (t : list Step) : list nat :=
  omap (λ s, match s with Fetch n => Some n | _ => None end) t.

Definition messages (t : list Step) : list SSEMessage :=
  omap (λ s, match s with Send m => Some m | _ => None end) t.

Definition isSend (s : Step) : bool :=
  match s with Send _ => true | _ => false end.

(** The waits and requests of a trace, in order. *)
Definition upstreamSteps (t : list Step) : list Step :=
  List.filter (λ s, negb (isSend s)) t.

(** A trace of messages: no request, no wait. *)
Definition sendsOnly (t : list Step) : Prop :=
  Forall (λ s, isFetch s = false ∧ isWait s = false) t.


(** ** Scenarios *)

(** An upstream that answers every request with the same failure. *)
Definition alwaysFails (st : Z) (errorText : string) : Upstream :=
  {| apiKey := true; answers := λ _, HttpError st errorText;
     random := λ _, 0%Q |}.

(** A decoder that finds no token, for scenarios without content. *)
Definition noContent (d : string) : option string := None.

(** The times of the first [n] runs of the interval callback of a stream
    started at [t0]. *)
Definition tickTimes (t0 : Z) (n : nat) : list Z :=
  (λ k : nat, t0 + Z.of_nat k * heartbeatPeriod) <$> seq 1 n.

(** A stream started at time 0 for one model [m] whose upstream has
    answered the request and then stays silent: the two [progress]
    messages of the adapter, and two minutes of heartbeats. *)
Definition stalledStart : Mux :=
  sendSSEMessage "m_progress" (Progress "streaming" "Receiving response...")
    (sendSSEMessage "m_progress"
       (Progress "connecting" "Connecting to model...") (start 0 ["m"])).

Definition quietStream : Mux := ticks (tickTimes 0 12) stalledStart.

(** The same stream when the upstream delivered, at 50 s, a keep-alive
    comment line, which carries no token. *)
Definition busyStream : Mux :=
  ticks (tickTimes 50000 7)
    (readLoop noContent "m"
       [(50000, ": OPENROUTER PROCESSING" +:+ Js.nlS)] None
       {| buffer := ""; chunkCount := 0; hasReceivedContent := false |}
       (ticks (tickTimes 0 5) stalledStart)).1.1.1.

(** The time stamp a payload carries, when it has one. *)
Definition stamp (d : Payload) : option Z :=
  match d with
  | Chunk _ t | HeartbeatFirst t _ | HeartbeatAlive t _ | HeartbeatLast t _ =>
      Some t
  | _ => None
  end.

(** The reading of the design document: at a run of the interval callback
    on a live stream, an event emitted within the last two minutes keeps
    the stream alive, and the heartbeat is sent. *)
Definition heartbeatWhileEventsFlow : Prop :=
  ∀ (now : Z) (x : Mux),
    heartbeatInterval x = true → connectionActive x = true →
    writable x = true →
    (∃ m t, m ∈ sent x ∧ stamp (data m) = Some t
            ∧ 0 ≤ now - t ≤ staleThreshold) →
    connectionActive (heartbeatTick now x) = true
    ∧ ∃ d, sent (heartbeatTick now x)
           = sent x ++ [{| event := "heartbeat"; data := d |}].

(** A model whose upstream answers 429 to the first three requests and
    then streams two tokens. *)
Definition twoTokens : Stream :=
  {| chunks := [(20000, "data: He" +:+ Js.nlS +:+ "data: llo" +:+ Js.nlS);
                (20100, "data: [DONE]" +:+ Js.nlS)];
     failure := None |}.

Definition limitedThrice : Upstream :=
  {| apiKey := true;
     answers := λ n, if (n <? 3)%nat then HttpError 429 "Too Many Requests"
                     else HttpOk (Some twoTokens);
     random := λ n, (Z.of_nat n # Pos.of_succ_nat n)%Q |}.

(** A decoder for scenarios whose data lines are the bare token. *)
Definition bareToken (d : string) : option string :=
  if String.eqb d "" then None else Some d.

(** ** What a stream carries, without its time stamps *)

(** A payload without the fields that depend on when and in how many
    chunks the upstream delivered: the [timestamp] of a chunk, the
    [stats] of an end. *)
Definition payloadShape (d : Payload) : Payload :=
  match d with
  | Chunk token _ => Chunk token 0
  | End message _ => End message None
  | _ => d
  end.

Definition shape (msg : SSEMessage) : SSEMessage :=
  {| event := event msg; data := payloadShape (data msg) |}.

Definition shapes (t : list Step) : list SSEMessage :=
  shape <$> messages t.

(** The messages the loop [for (const line of lines)] sends on a stream
    that stays open, whether content has been received after it, and
    whether it returned at [DONE]. *)
Fixpoint lineShapes (deltaContent : string → option string)
    (modelName : string) (lines : list string) (has : bool)
  : list SSEMessage * bool * bool :=
  match lines with
  | [] => ([], has, false)
  | line :: rest =>
      if Js.startsWith "data: " line then
        let d := Js.slice 6 line in
        if String.eqb d "[DONE]" then
          ([{| event := modelName +:+ "_end";
               data := End (if has then "Response completed"
                            else "Response completed (empty)") None |}],
           has, true)
        else
          match deltaContent d with
          | Some token =>
              let '(ms, has', returned) :=
                lineShapes deltaContent modelName rest true in
              ({| event := modelName +:+ "_chunk"; data := Chunk token 0 |}
               :: ms, has', returned)
          | None => lineShapes deltaContent modelName rest has
          end
      else lineShapes deltaContent modelName rest has
  end.

(** The bytes of a body, whatever the chunks. *)
Definition text (reads : list (Z * string)) : string :=
  foldr (λ r rest, r.2 +:+ rest) "" reads.

(** A message that finishes a target. *)
Definition isTerminalPayload (d : Payload) : bool :=
  match d with
  | End _ _ | ErrorInfo _ _ => true
  | _ => false
  end.

Definition notTerminal (msg : SSEMessage) : Prop :=
  isTerminalPayload (data msg) = false.

(** A stream that is open: [connectionActive], and [enqueue] works. *)
Definition live (x : Mux) : Prop :=
  connectionActive x = true ∧ writable x = true.

(** The messages of an adapter end with the one that finishes its
    target. *)
Definition endsWithTerminal (modelName : string) (ms : list SSEMessage)
  : Prop :=
  ∃ before final,
    ms = before ++ [final]
    ∧ Forall notTerminal before
    ∧ isTerminalPayload (data final) = true
    ∧ (event final = modelName +:+ "_end"
       ∨ event final = modelName +:+ "_error").

(** The requests of a trace are numbered from [n] on, and after the
    request [k] that is followed by another there is one wait, of at least
    [1000 * 2^k] ms. *)
Fixpoint spaced (n : nat) (t : list Step) : Prop :=
  match t with
  | [] => True
  | Fetch k :: rest =>
      k = n
      ∧ match rest with
        | [] => True
        | Wait d :: rest' => (1000 * pow2 n <= d)%Q ∧ spaced (S n) rest'
        | _ => False
        end
  | _ => False
  end.

(** ** An adapter among the other tasks *)

(** What runs from the first [await] of an adapter to its last read, in
    order, its own reads included. *)
Fixpoint readsTimeline (during : nat → list Meanwhile) (n : nat)
    (reads : list (Z * string)) : list Meanwhile :=
  during n ++
  match reads with
  | [] => []
  | (now, _) :: rest => ReadAt now :: readsTimeline during (S n) rest
  end.

Definition timeline (others : Others) (result : CallResult)
  : list Meanwhile :=
  whileCalling others ++
  match result with
  | Resolved (Some body) =>
      readsTimeline (whileReading others) 0 (chunks body)
  | _ => []
  end.

(** [lastActivity] after what has run. *)
Definition lastAfter (last : Z) (es : list Meanwhile) : Z :=
  foldl (λ l e, match e with ReadAt now => now | _ => l end) last es.

(** The stream stays open: the consumer does not go away, and every run
    of the interval callback comes within the stale threshold of the last
    read before it ([last] when there is none). *)
Fixpoint staysOpen (last : Z) (es : list Meanwhile) : Prop :=
  match es with
  | [] => True
  | Tick now :: rest => now - last ≤ staleThreshold ∧ staysOpen last rest
  | ReadAt now :: rest => staysOpen now rest
  | Sent _ _ :: rest => staysOpen last rest
  | Cancelled :: _ => False
  end.

(** The messages of an adapter either do not finish its target, or end
    with the one message that does. *)
Definition finishesAtMostOnce (modelName : string) (ms : list SSEMessage)
  : Prop :=
  Forall notTerminal ms ∨ endsWithTerminal modelName ms.

(** ** The tokens of a body *)





(** What runs while the adapter of a model that is rate limited three
    times waits: the interval callback every 10 s, and another adapter
    that reads and sends. *)
Definition busyOthers : Others :=
  {| whileCalling := [Tick 10000; ReadAt 12000;
                      Sent "k_chunk" (Chunk "x" 12000)];
     whileReading := λ n, match n with
                          | O => [Tick 20000]
                          | _ => []
                          end |}.

(** The error [callOpenRouter] throws when [OPENROUTER_API_KEY] is not
    set. *)
Definition keyError : APIError :=
  {| kind := PlainError;
     message := "API key is not configured. Please check your environment variables.";
     status := None; retryable := Some false |}.

(** A body of three lines, cut in the middle of a line and not. *)
Definition cutInALine : list (Z * string) :=
  [(1, "data: He" +:+ Js.nlS +:+ "data: l");
   (2, "lo" +:+ Js.nlS +:+ "data: [DONE]" +:+ Js.nlS)].

Definition inOnePiece : list (Z * string) :=
  [(5, "data: He" +:+ Js.nlS +:+ "data: llo" +:+ Js.nlS
       +:+ "data: [DONE]" +:+ Js.nlS)].

(** An upstream without a key. *)
Definition noKey : Upstream :=
  {| apiKey := false; answers := λ _, HttpOk None; random := λ _, 0%Q |}.


End Proxy.

(* ===================================================================== *)
(** * The page: [ChatApp] (ChatApp.tsx) and its helpers (atoms.ts) *)
(* ===================================================================== *)

Module Chat.

Inductive Role := User | Assistant.

(** [Message] (atoms.ts) *)
Record Message := {
  id : string;
  role : Role;
  content : string;
  timestamp : Z;
  modelId : option string
}.

(** [ModelState] (atoms.ts), with the four times [ChatApp] adds to it;
    [None] is [null] or [undefined]. *)
Record ModelState := {
  history : list Message;
  isLoading : bool;
  error : option string;
  progress : option string;
  retryable : bool;
  requestStartTime : option Z;
  firstTokenTime : option Z;
  lastTokenTime : option Z;
  responseEndTime : option Z
}.

(** The state [ChatApp] takes for a model that is not in the map. *)
Definition defaultState : ModelState :=
  {| history := []; isLoading := false; error := None; progress := None;
     retryable := false; requestStartTime := None; firstTokenTime := None;
     lastTokenTime := None; responseEndTime := None |}.

(** [getModelState(modelId, state)] *)
Definition getModelState (modelId : string)
    (state : gmap string ModelState) : ModelState :=
  default defaultState (state !! modelId).

(** [addMessageToHistory(history, content, role, modelId)]; [fresh] is
    the id made of [Date.now()] and [Math.random()]. *)
Definition addMessageToHistory (history : list Message) (content : string)
    (role : Role) (modelId : option string) (fresh : string) (now : Z)
  : list Message :=
  history ++ [{| id := fresh; role := role; content := content;
                 timestamp := now; modelId := modelId |}].

(** [getConversationContext(history)] *)
Definition getConversationContext (history : list Message)
  : list (Role * string) :=
  (λ msg, (role msg, content msg)) <$> history.

(** The fields of the [data] of an event that [ChatApp] reads. *)
Record Fields := {
  token : option string;
  message : option string;
  retryableFlag : option bool
}.

(** A string that is truthy. *)
Definition truthy (s : option string) : option string :=
  match s with
  | Some v => if String.eqb v "" then None else Some v
  | None => None
  end.

Inductive Status := Connecting | Connected | Failed.

(** The state of [ChatApp] that [handleSubmit] and the handler it gives
    to the pool touch. *)
Record App := {
  selectedModels : list string;
  modelsState : gmap string ModelState;
  connectionStatus : option Status;
  isSubmitting : bool;
  currentPrompt : string;
  lastResponseTimestamp : gmap string Z
}.

Definition set_modelsState (s : gmap string ModelState) (a : App) : App :=
  {| selectedModels := selectedModels a; modelsState := s;
     connectionStatus := connectionStatus a;
     isSubmitting := isSubmitting a; currentPrompt := currentPrompt a;
     lastResponseTimestamp := lastResponseTimestamp a |}.

Definition set_connectionStatus (s : option Status) (a : App) : App :=
  {| selectedModels := selectedModels a; modelsState := modelsState a;
     connectionStatus := s;
     isSubmitting := isSubmitting a; currentPrompt := currentPrompt a;
     lastResponseTimestamp := lastResponseTimestamp a |}.

Definition set_lastResponseTimestamp (t : gmap string Z) (a : App) : App :=
  {| selectedModels := selectedModels a; modelsState := modelsState a;
     connectionStatus := connectionStatus a;
     isSubmitting := isSubmitting a; currentPrompt := currentPrompt a;
     lastResponseTimestamp := t |}.

(** [setIsSubmitting(true); setCurrentPrompt(prompt)] *)
Definition set_submitting (prompt : string) (a : App) : App :=
  {| selectedModels := selectedModels a; modelsState := modelsState a;
     connectionStatus := connectionStatus a;
     isSubmitting := true; currentPrompt := prompt;
     lastResponseTimestamp := lastResponseTimestamp a |}.

(** [handleModelToggle(modelId)] *)
Definition handleModelToggle (modelId : string) (prev : list string)
  : list string :=
  if existsb (String.eqb modelId) prev then
    List.filter (λ id, negb (String.eqb id modelId)) prev
  else if (4 <=? length prev)%nat then prev
  else prev ++ [modelId].

(** Whether [msg] is an assistant message of [modelId]. *)
Definition isAnswerOf (modelId : string) (msg : Message) : bool :=
  match role msg, Chat.modelId msg with
  | Assistant, Some m => String.eqb m modelId
  | _, _ => false
  end.

(** The updater of the [chunk] case, for a token that is truthy: [now] is
    [currentTime], [stamp] the [Date.now()] of the new message.  It runs
    once for an event; the message it appends to is in no other
    history. *)
Definition appendToken (modelId tok fresh : string) (now stamp : Z)
    (currentState : ModelState) : ModelState :=
  let lastMessage := last (history currentState) in
  let isFirstToken :=
    match lastMessage with
    | Some msg => negb (isAnswerOf modelId msg)
    | None => true
    end in
  let updatedHistory :=
    match lastMessage with
    | Some msg =>
        if isAnswerOf modelId msg then
          removelast (history currentState)
          ++ [{| id := id msg; role := role msg;
                 content := content msg +:+ tok;
                 timestamp := timestamp msg; modelId := Chat.modelId msg |}]
        else
          history currentState
          ++ [{| id := fresh; role := Assistant; content := tok;
                 timestamp := stamp; modelId := Some modelId |}]
    | None =>
        [{| id := fresh; role := Assistant; content := tok;
            timestamp := stamp; modelId := Some modelId |}]
    end in
  {| history := updatedHistory;
     isLoading := isLoading currentState;
     error := error currentState;
     progress := None;
     retryable := retryable currentState;
     requestStartTime := requestStartTime currentState;
     firstTokenTime := if isFirstToken then Some now
                       else firstTokenTime currentState;
     lastTokenTime := Some now;
     responseEndTime := responseEndTime currentState |}.

Section Handler.

(** [fields d] are the fields of [JSON.parse(d)], or of [{ message: d }]
    when [d] is not JSON. *)
Variable fields : string → Fields.

(** The fields of the [data] the manager hands over. *)
Definition fieldsOf (d : Sse.EventData) : Fields :=
  match d with
  | Sse.Parsed s => fields s
  | Sse.HeartbeatStamp _ =>
      {| token := None; message := None; retryableFlag := None |}
  | Sse.Reconnecting msg =>
      {| token := None; message := Some msg; retryableFlag := None |}
  | Sse.Failure msg r _ =>
      {| token := None; message := Some msg; retryableFlag := Some r |}
  end.

(** An event as it reaches the handler: with the id a new message would
    get and the two readings of [Date.now()]. *)
Record Arrival := {
  arrived : Pool.EnhancedEvent;
  freshId : string;
  currentTime : Z;
  updateTime : Z
}.

(** [handleSSEEvent(event)], the handler [ChatApp] gives to the pool. *)
Definition handleSSEEvent (ar : Arrival) (a : App) : App :=
  let e := Pool.event (arrived ar) in
  let fresh := freshId ar in
  let now := currentTime ar in
  let modelId := Sse.modelId e in
  let data := fieldsOf (Sse.data e) in
  let currentState := getModelState modelId (modelsState a) in
  if String.eqb (Sse.type e) "heartbeat" then
    set_connectionStatus (Some Connected) a
  else if String.eqb (Sse.type e) "chunk" then
    match truthy (token data) with
    | Some tok =>
        set_modelsState
          (<[modelId := appendToken modelId tok fresh now (updateTime ar)
                          currentState]>
             (modelsState a))
          (set_lastResponseTimestamp
             (<[modelId := now]> (lastResponseTimestamp a)) a)
    | None => a
    end
  else if String.eqb (Sse.type e) "progress" then
    set_modelsState
      (<[modelId :=
           {| history := history currentState;
              isLoading := isLoading currentState;
              error := error currentState;
              progress := Some (default "Processing..."
                                  (truthy (message data)));
              retryable := retryable currentState;
              requestStartTime := requestStartTime currentState;
              firstTokenTime := firstTokenTime currentState;
              lastTokenTime := lastTokenTime currentState;
              responseEndTime := responseEndTime currentState |}]>
         (modelsState a)) a
  else if String.eqb (Sse.type e) "error" then
    set_modelsState
      (<[modelId :=
           {| history := history currentState;
              isLoading := false;
              error := Some (default "An error occurred"
                               (truthy (message data)));
              progress := None;
              retryable := default false (retryableFlag data);
              requestStartTime := requestStartTime currentState;
              firstTokenTime := firstTokenTime currentState;
              lastTokenTime := lastTokenTime currentState;
              responseEndTime := responseEndTime currentState |}]>
         (modelsState a)) a
  else if String.eqb (Sse.type e) "end" then
    set_modelsState
      (<[modelId :=
           {| history := history currentState;
              isLoading := false;
              error := error currentState;
              progress := None;
              retryable := retryable currentState;
              requestStartTime := requestStartTime currentState;
              firstTokenTime := firstTokenTime currentState;
              lastTokenTime := lastTokenTime currentState;
              responseEndTime := Some now |}]>
         (modelsState a)) a
  else a.

(** The handler on the events of a stream, in order. *)
Definition handleAllEvents (events : list Arrival) (a : App) : App :=
  foldl (λ a' ar, handleSSEEvent ar a') a events.

(** The tokens a stream carries for [modelId], in order. *)
Definition tokensFor (modelId : string) (events : list Arrival)
  : list string :=
  omap (λ ar,
          let e := Pool.event (arrived ar) in
          if String.eqb (Sse.modelId e) modelId
             && String.eqb (Sse.type e) "chunk"
          then truthy (token (fieldsOf (Sse.data e)))
          else None) events.

End Handler.

(** ** [handleSubmit] *)

(** What [handleSubmit] asks of the pool: the connection it closes, and
    the arguments of [createConnection]. *)
Record Submission := {
  closes : option string;
  context : list (Role * string);
  targets : list string
}.

(** The body of [selectedModels.forEach] in the first updater of
    [handleSubmit]; [fresh] and [stamp] give the id and the time of the
    message made for each model. *)
Definition askModel (prompt : string) (requestStart : Z)
    (fresh : string → string) (stamp : string → Z)
    (newMap : gmap string ModelState) (modelId : string)
  : gmap string ModelState :=
  let currentState := getModelState modelId newMap in
  <[modelId :=
      {| history := addMessageToHistory (history currentState) prompt User
                      None (fresh modelId) (stamp modelId);
         isLoading := true;
         error := None;
         progress := Some "Initializing...";
         retryable := false;
         requestStartTime := Some requestStart;
         firstTokenTime := None;
         lastTokenTime := None;
         responseEndTime := None |}]> newMap.

(** [handleSubmit(prompt)] with a pool at hand: the state after its
    updaters have run, and what it asks of the pool
    ([currentConnection] is [currentConnectionRef.current]).  The second
    updater reads the history of the first selected model. *)
Definition handleSubmit (prompt : string) (requestStart : Z)
    (fresh : string → string) (stamp : string → Z)
    (currentConnection : option string) (a : App)
  : App * option Submission :=
  match selectedModels a with
  | [] => (a, None)
  | first :: _ =>
      let newMap :=
        foldl (askModel prompt requestStart fresh stamp) (modelsState a)
          (selectedModels a) in
      let currentHistory :=
        match newMap !! first with
        | Some firstSelectedModelState => history firstSelectedModelState
        | None => []
        end in
      (set_modelsState newMap (set_submitting prompt a),
       Some {| closes := currentConnection;
               context := getConversationContext currentHistory;
               targets := selectedModels a |})
  end.

(** The question [handleSubmit] adds to the history of [modelId]. *)
Definition question (prompt : string) (fresh : string → string)
    (stamp : string → Z) (modelId : string) : Message :=
  {| id := fresh modelId; role := User; content := prompt;
     timestamp := stamp modelId; modelId := None |}.

(** The tokens of an answer, one after the other. *)
Definition glue (tokens : list string) : string :=
  foldr (λ tok rest, tok +:+ rest) "" tokens.

(** What changes the selection: a click in the sidebar, or the focus on
    one model ([onFocusModel]). *)
Inductive Click :=
| Toggle (modelId : string)
| Focus (modelId : string).

Definition click (prev : list string) (c : Click) : list string :=
  match c with
  | Toggle modelId => handleModelToggle modelId prev
  | Focus modelId => [modelId]
  end.

(** The selection after a series of clicks, from the empty one. *)
Definition selection (clicks : list Click) : list string :=
  foldl click [] clicks.

(** The assistant message a first token makes. *)
Definition answer (modelId fresh : string) (stamp : Z) (text : string)
  : Message :=
  {| id := fresh; role := Assistant; content := text; timestamp := stamp;
     modelId := Some modelId |}.

(** The history of [m] after the tokens [acc] have come, from the
    history [h]: [h] itself, or [h] and one answer that holds them all. *)
Definition grown (h : list Message) (m : string) (acc : list string)
    (now : list Message) : Prop :=
  match acc with
  | [] => now = h
  | _ :: _ => ∃ fresh stamp, now = h ++ [answer m fresh stamp (glue acc)]
  end.

(** ** Scenarios *)

(** A decoder for scenarios whose data is the bare token. *)
Definition bareFields (d : string) : Fields :=
  {| token := Some d; message := None; retryableFlag := None |}.

Definition chunkOf (m tok : string) (t : Z) : Arrival :=
  {| arrived := {| Pool.event := {| Sse.modelId := m; Sse.type := "chunk";
                                    Sse.data := Sse.Parsed tok |};
                   Pool.connectionId := "c"; Pool.timestamp := t |};
     freshId := "id-" +:+ m; currentTime := t; updateTime := t + 1 |}.

(** An application in which the two models have been asked ["hi"]. *)
Definition asked : App :=
  let question :=
    addMessageToHistory [] "hi" User None "q" 0 in
  let waiting :=
    {| history := question; isLoading := true; error := None;
       progress := Some "Initializing..."; retryable := false;
       requestStartTime := Some 0; firstTokenTime := None;
       lastTokenTime := None; responseEndTime := None |} in
  {| selectedModels := ["a"; "b"];
     modelsState := <["a" := waiting]> (<["b" := waiting]> ∅);
     connectionStatus := Some Connecting;
     isSubmitting := true; currentPrompt := "hi";
     lastResponseTimestamp := ∅ |}.

(** An application in which model ["a"] has answered ["hi"] and model
    ["b"] has been selected since. *)
Definition joined : App :=
  let answered :=
    {| history :=
         addMessageToHistory
           (addMessageToHistory [] "hi" User None "q" 0)
           "hello" Assistant (Some "a") "r" 1;
       isLoading := false; error := None; progress := None;
       retryable := false; requestStartTime := Some 0;
       firstTokenTime := Some 1; lastTokenTime := Some 1;
       responseEndTime := Some 2 |} in
  {| selectedModels := ["a"; "b"];
     modelsState := <["a" := answered]> ∅;
     connectionStatus := Some Connected;
     isSubmitting := false; currentPrompt := "hi";
     lastResponseTimestamp := <["a" := 1]> ∅ |}.

(** Tokens of the two models, interleaved. *)
Definition interleaved : list Arrival :=
  [chunkOf "a" "He" 10; chunkOf "b" "Bon" 11; chunkOf "a" "llo" 12;
   chunkOf "b" "jour" 13].

End Chat.

(* ===================================================================== *)
(** * Properties of the connection pool *)
(* ===================================================================== *)

Section PoolFacts.
Import Pool.

Implicit Types (p q : ConnectionPool) (i j : string).

Lemma removeConnection_connections i p :
  connections (removeConnection i p) = delete i (connections p).
Proof.
  unfold removeConnection.
  destruct (connections p !! i) eqn:Hi.
  - simpl. by destruct (0 <? activeConnections p).
  - by rewrite delete_id.
Qed.

Lemma removeConnection_absent i p :
  connections p !! i = None → removeConnection i p = p.
Proof. intros Hi. unfold removeConnection. by rewrite Hi. Qed.

Lemma removeConnection_activeConnections i p c :
  connections p !! i = Some c →
  activeConnections (removeConnection i p) =
    if 0 <? activeConnections p then activeConnections p - 1
    else activeConnections p.
Proof.
  intros Hi. unfold removeConnection. rewrite Hi. simpl.
  by destruct (0 <? activeConnections p).
Qed.

Lemma handleStatusChange_absent i s p :
  connections p !! i = None → handleStatusChange i s p = p.
Proof. intros Hi. unfold handleStatusChange. by rewrite Hi. Qed.

Lemma handleStatusChange_connections i s p :
  connections (handleStatusChange i s p) =
    alter (set_status s) i (connections p).
Proof.
  unfold handleStatusChange.
  destruct (connections p !! i) eqn:Hi.
  - by destruct (isClosedStatus s).
  - symmetry. apply map_eq. intros j. rewrite lookup_alter.
    case_decide; subst; by rewrite ?Hi.
Qed.

Lemma handleStatusChange_activeConnections i s p :
  activeConnections (handleStatusChange i s p) = activeConnections p.
Proof.
  unfold handleStatusChange.
  destruct (connections p !! i); [|done]. by destruct (isClosedStatus s).
Qed.

Lemma size_alter {A} (f : A → A) i (m : gmap string A) :
  size (alter f i m) = size m.
Proof.
  rewrite <- !size_dom. f_equal. apply leibniz_equiv, dom_alter.
Qed.

Lemma closeConnection_absent i p :
  connections p !! i = None → closeConnection i p = p.
Proof. intros Hi. unfold closeConnection. by rewrite Hi. Qed.

Lemma closeConnection_connections i p :
  connections (closeConnection i p) = delete i (connections p).
Proof.
  unfold closeConnection.
  destruct (connections p !! i) eqn:Hi; [|by rewrite delete_id].
  simpl. rewrite removeConnection_connections,
    handleStatusChange_connections. apply delete_alter_eq.
Qed.

Lemma closeConnection_activeConnections i p c :
  connections p !! i = Some c →
  activeConnections (closeConnection i p) =
    if 0 <? activeConnections p then activeConnections p - 1
    else activeConnections p.
Proof.
  intros Hi. unfold closeConnection. rewrite Hi. simpl.
  assert (is_Some (connections (handleStatusChange i Sse.StDisconnected p)
                     !! i)) as [c' Hc'].
  { rewrite handleStatusChange_connections, lookup_alter_eq, Hi. by eexists. }
  rewrite (removeConnection_activeConnections _ _ _ Hc').
  by rewrite handleStatusChange_activeConnections.
Qed.

Lemma elem_of_keys i p : i ∈ keys p ↔ is_Some (connections p !! i).
Proof.
  unfold keys. rewrite list_elem_of_fmap. split.
  - intros [[k c] [Hk Hin]]. simpl in Hk. subst k.
    apply elem_of_map_to_list in Hin. by eexists.
  - intros [c Hc]. exists (i, c). split; [done|].
    by apply elem_of_map_to_list.
Qed.

(** Closing the ids of a list, in any order, removes exactly them. *)
Lemma closeConnections_lookup (l : list string) p i :
  connections (foldl (λ q k, closeConnection k q) p l) !! i =
    if decide (i ∈ l) then None else connections p !! i.
Proof.
  revert p. induction l as [|k l IH]; intros p; simpl.
  - destruct (decide (i ∈ [])) as [H|H]; [by apply elem_of_nil in H | done].
  - rewrite IH, closeConnection_connections.
    destruct (decide (i ∈ l)) as [Hl|Hl], (decide (i ∈ k :: l)) as [Hkl|Hkl];
      try done.
    + exfalso. apply Hkl. by right.
    + apply elem_of_cons in Hkl as [->|?]; [apply lookup_delete_eq | done].
    + rewrite lookup_delete_ne; [done|]. intros ->. apply Hkl. by left.
Qed.

Lemma handleEvent_absent i ev now p :
  connections p !! i = None → handleEvent i ev now p = p.
Proof. intros Hi. unfold handleEvent. by rewrite Hi. Qed.

(** ** The counter and the map *)

Lemma counterMatches_removeConnection i p :
  counterMatches p → counterMatches (removeConnection i p).
Proof.
  unfold counterMatches. intros Hp.
  destruct (connections p !! i) as [c|] eqn:Hi.
  - rewrite (removeConnection_activeConnections _ _ _ Hi),
      removeConnection_connections, map_size_delete, Hi.
    assert (size (connections p) ≠ 0%nat).
    { apply map_size_ne_0_lookup. eauto. }
    destruct (0 <? activeConnections p) eqn:E; [|apply Z.ltb_ge in E]; lia.
  - by rewrite removeConnection_absent.
Qed.

Lemma counterMatches_handleStatusChange i s p :
  counterMatches p → counterMatches (handleStatusChange i s p).
Proof.
  unfold counterMatches.
  by rewrite handleStatusChange_activeConnections,
    handleStatusChange_connections, size_alter.
Qed.

Lemma counterMatches_closeConnection i p :
  counterMatches p → counterMatches (closeConnection i p).
Proof.
  intros Hp. unfold closeConnection.
  destruct (connections p !! i); [|done]. simpl.
  by apply counterMatches_removeConnection,
    counterMatches_handleStatusChange.
Qed.

Lemma counterMatches_closeConnections (l : list string) p :
  counterMatches p →
  counterMatches (foldl (λ q k, closeConnection k q) p l).
Proof.
  revert p. induction l as [|k l IH]; intros p Hp; simpl; [done|].
  by apply IH, counterMatches_closeConnection.
Qed.

End PoolFacts.

Section PoolCleanup.
Import Pool.

Variables maxAge now : Z.

Lemma cleanup_fold_lookup (l : list (string * PooledConnection)) acc i :
  connections (foldl (cleanupVisit maxAge now) acc l).1 !! i =
    if visitedStale maxAge now i l then None else connections acc.1 !! i.
Proof.
  revert acc. induction l as [|[k c] l IH]; intros acc; simpl; [done|].
  rewrite IH. unfold cleanupVisit. simpl.
  destruct (isStale maxAge now c) eqn:Hc; simpl.
  - rewrite removeConnection_connections.
    destruct (String.eqb_spec k i) as [->|Hne]; simpl.
    + rewrite lookup_delete_eq. by destruct (visitedStale maxAge now i l).
    + by rewrite lookup_delete_ne.
  - by rewrite andb_false_r.
Qed.

Lemma cleanup_fold_count (l : list (string * PooledConnection)) acc :
  (foldl (cleanupVisit maxAge now) acc l).2 =
    acc.2 + Z.of_nat (staleCount maxAge now l).
Proof.
  unfold staleCount.
  revert acc. induction l as [|[k c] l IH]; intros acc; simpl; [lia|].
  rewrite IH. unfold cleanupVisit. simpl.
  destruct (isStale maxAge now c); simpl; lia.
Qed.

Lemma cleanup_fold_size (l : list (string * PooledConnection)) acc :
  NoDup l.*1 →
  (∀ k c, (k, c) ∈ l → is_Some (connections acc.1 !! k)) →
  (size (connections (foldl (cleanupVisit maxAge now) acc l).1)
     + staleCount maxAge now l)%nat
  = size (connections acc.1).
Proof.
  unfold staleCount.
  revert acc. induction l as [|[k c] l IH]; intros acc Hnd Hin; simpl.
  - lia.
  - apply NoDup_cons in Hnd as [Hk Hnd].
    unfold cleanupVisit at 2. simpl.
    destruct (isStale maxAge now c) eqn:Hc; simpl.
    + rewrite Nat.add_succ_r, IH; [|done|].
      * simpl. rewrite removeConnection_connections.
        rewrite map_size_delete_Some by (eapply Hin; left).
        assert (size (connections acc.1) ≠ 0%nat); [|lia].
        apply map_size_ne_0_lookup. exists k. eapply Hin. left.
      * intros k' c' Hin'. simpl. rewrite removeConnection_connections.
        rewrite lookup_delete_ne.
        -- eapply Hin. right. done.
        -- intros ->. apply Hk. apply list_elem_of_fmap.
           by exists (k', c').
    + apply IH; [done|]. intros k' c' Hin'. eapply Hin. by right.
Qed.

Lemma counterMatches_cleanup_fold (l : list (string * PooledConnection)) acc :
  counterMatches acc.1 →
  counterMatches (foldl (cleanupVisit maxAge now) acc l).1.
Proof.
  revert acc. induction l as [|[k c] l IH]; intros acc Hacc; simpl; [done|].
  apply IH. unfold cleanupVisit. simpl.
  destruct (isStale maxAge now c); [|done].
  by apply counterMatches_removeConnection.
Qed.

Lemma visitedStale_map_to_list (m : gmap string PooledConnection) i :
  visitedStale maxAge now i (map_to_list m) =
    match m !! i with
    | Some c => isStale maxAge now c
    | None => false
    end.
Proof.
  apply eq_true_iff_eq. unfold visitedStale. rewrite existsb_exists.
  split.
  - intros [[k c] [Hin Hb]]. apply andb_true_iff in Hb as [Hk Hs].
    apply String.eqb_eq in Hk. simpl in *. subst k.
    apply list_elem_of_In, elem_of_map_to_list in Hin. by rewrite Hin.
  - destruct (m !! i) as [c|] eqn:Hi; [|done]. intros Hs.
    exists (i, c). split.
    + by apply list_elem_of_In, elem_of_map_to_list.
    + simpl. by rewrite String.eqb_refl.
Qed.

Lemma cleanupStaleConnections_lookup p i :
  connections (cleanupStaleConnections maxAge now p).1 !! i =
    match connections p !! i with
    | Some c => if isStale maxAge now c then None else Some c
    | None => None
    end.
Proof.
  unfold cleanupStaleConnections.
  rewrite cleanup_fold_lookup, visitedStale_map_to_list. simpl.
  destruct (connections p !! i) as [c|]; [|done].
  by destruct (isStale maxAge now c).
Qed.

Lemma cleanupStaleConnections_count p :
  (cleanupStaleConnections maxAge now p).2 =
    Z.of_nat (size (connections p))
    - Z.of_nat (size (connections (cleanupStaleConnections maxAge now p).1)).
Proof.
  unfold cleanupStaleConnections.
  rewrite cleanup_fold_count. simpl.
  pose proof (cleanup_fold_size (map_to_list (connections p)) (p, 0)) as H.
  simpl in H. rewrite <- H; [lia | apply NoDup_fst_map_to_list |].
  intros k c Hin. apply elem_of_map_to_list in Hin. by eexists.
Qed.

Lemma counterMatches_cleanupStaleConnections p :
  counterMatches p →
  counterMatches (cleanupStaleConnections maxAge now p).1.
Proof. intros Hp. by apply counterMatches_cleanup_fold. Qed.

End PoolCleanup.

Section PoolInvariant.
Import Pool.

Implicit Types (p q : ConnectionPool) (i j : string).

Lemma removeConnection_eventCalls i p :
  eventCalls (removeConnection i p) = eventCalls p.
Proof.
  unfold removeConnection. destruct (connections p !! i); [|done].
  simpl. by destruct (0 <? activeConnections p).
Qed.

Lemma handleStatusChange_eventCalls i s p :
  eventCalls (handleStatusChange i s p) = eventCalls p.
Proof.
  unfold handleStatusChange. destruct (connections p !! i); [|done].
  by destruct (isClosedStatus s).
Qed.

Lemma closeConnection_eventCalls i p :
  eventCalls (closeConnection i p) = eventCalls p.
Proof.
  unfold closeConnection. destruct (connections p !! i); [|done]. simpl.
  by rewrite removeConnection_eventCalls, handleStatusChange_eventCalls.
Qed.

Lemma closeConnections_eventCalls (l : list string) p :
  eventCalls (foldl (λ q k, closeConnection k q) p l) = eventCalls p.
Proof.
  revert p. induction l as [|k l IH]; intros p; simpl; [done|].
  by rewrite IH, closeConnection_eventCalls.
Qed.

Lemma counterMatches_insert call now p :
  connections p !! pendingId call = None →
  counterMatches p → counterMatches (createConnection_insert call now p).
Proof.
  unfold counterMatches, createConnection_insert. intros Hi Hp.
  rewrite handleStatusChange_activeConnections,
    handleStatusChange_connections, size_alter. simpl.
  rewrite map_size_insert_None by done. lia.
Qed.

Lemma counterMatches_replace call now p :
  counterMatches p → counterMatches (createConnection_replace call now p).
Proof.
  intros Hp. unfold createConnection_replace.
  destruct (connections p !! pendingId call) eqn:Hi.
  - by apply (counterMatches_closeConnection (pendingId call)) in Hp.
  - by apply counterMatches_insert.
Qed.

Lemma counterMatches_removalTimerFires k p :
  counterMatches p → counterMatches (removalTimerFires k p).
Proof.
  intros Hp. unfold removalTimerFires.
  destruct (removalTimers p !! k) as [i|]; [|done]. simpl.
  destruct (connections p !! i) eqn:Hi; [|done].
  by apply counterMatches_removeConnection.
Qed.

(** Every piece of the pool keeps the counter equal to the size of the
    map, except the insertion of a resumed [createConnection] under an id
    that has been taken meanwhile. *)
Lemma counterMatches_step p op :
  counterMatches p → ¬ resumesOnTakenId p op → counterMatches (step p op).
Proof.
  intros Hp Hop.
  destruct op as [models cid generated now | k now | k now | cid | cid | | maxAge now | cid s | cid ev now | k]; simpl.
  - unfold createConnection.
    destruct (_ <=? _); [done | by apply counterMatches_replace].
  - unfold checkSlot. destruct (waitingForSlot p !! k); [|done].
    destruct (_ <? _); [|done]. by apply counterMatches_replace.
  - unfold createConnection_resume.
    destruct (closingOld p !! k) as [call|] eqn:Hk; [|done].
    apply counterMatches_insert; [|done]. simpl.
    destruct (connections p !! pendingId call) eqn:Hi; [|done].
    exfalso. apply Hop. simpl. eauto.
  - by apply counterMatches_removeConnection.
  - by apply counterMatches_closeConnection.
  - by apply counterMatches_closeConnections.
  - by apply counterMatches_cleanupStaleConnections.
  - by apply counterMatches_handleStatusChange.
  - unfold handleEvent. by destruct (connections p !! cid).
  - by apply counterMatches_removalTimerFires.
Qed.

Lemma counterMatches_run ops p :
  counterMatches p → neverResumesOnTakenId ops p →
  counterMatches (run ops p).
Proof.
  revert p. induction ops as [|op ops IH]; intros p Hp Hops; [done|].
  destruct Hops as [Hop Hops]. simpl. apply IH; [|done].
  by apply counterMatches_step.
Qed.

Lemma removeConnection_nonneg i p :
  0 ≤ activeConnections p → 0 ≤ activeConnections (removeConnection i p).
Proof.
  intros Hp. unfold removeConnection.
  destruct (connections p !! i); [|done]. simpl.
  destruct (0 <? activeConnections p) eqn:E; simpl; lia.
Qed.

Lemma closeConnection_nonneg i p :
  0 ≤ activeConnections p → 0 ≤ activeConnections (closeConnection i p).
Proof.
  intros Hp. unfold closeConnection.
  destruct (connections p !! i); [|done]. simpl.
  apply removeConnection_nonneg.
  by rewrite handleStatusChange_activeConnections.
Qed.

Lemma insert_nonneg call now p :
  0 ≤ activeConnections p →
  0 ≤ activeConnections (createConnection_insert call now p).
Proof.
  intros Hp. unfold createConnection_insert.
  rewrite handleStatusChange_activeConnections. simpl. lia.
Qed.

Lemma replace_nonneg call now p :
  0 ≤ activeConnections p →
  0 ≤ activeConnections (createConnection_replace call now p).
Proof.
  intros Hp. unfold createConnection_replace.
  destruct (connections p !! pendingId call).
  - simpl. by apply closeConnection_nonneg.
  - by apply insert_nonneg.
Qed.

(** The counter never goes below zero, whatever happens. *)
Lemma activeConnections_nonneg_step p op :
  0 ≤ activeConnections p → 0 ≤ activeConnections (step p op).
Proof.
  intros Hp.
  destruct op as [models cid generated now | k now | k now | cid | cid | | maxAge now | cid s | cid ev now | k]; simpl.
  - unfold createConnection.
    destruct (_ <=? _); [done | by apply replace_nonneg].
  - unfold checkSlot. destruct (waitingForSlot p !! k); [|done].
    destruct (_ <? _); [|done]. by apply replace_nonneg.
  - unfold createConnection_resume.
    destruct (closingOld p !! k); [|done]. by apply insert_nonneg.
  - by apply removeConnection_nonneg.
  - by apply closeConnection_nonneg.
  - unfold closeAllConnections. generalize (keys p). intros l.
    revert p Hp. induction l as [|k l IH]; intros p Hp; simpl; [done|].
    by apply IH, closeConnection_nonneg.
  - unfold cleanupStaleConnections.
    change p with (p, 0).1 in Hp. revert Hp.
    generalize (p, 0). generalize (map_to_list (connections p)).
    intros l. induction l as [|[k c] l IH]; intros acc Hacc; simpl; [done|].
    apply IH. unfold cleanupVisit. simpl.
    destruct (isStale maxAge now c); [|done].
    by apply removeConnection_nonneg.
  - by rewrite handleStatusChange_activeConnections.
  - unfold handleEvent. by destruct (connections p !! cid).
  - unfold removalTimerFires.
    destruct (removalTimers p !! k) as [i|]; [|done]. simpl.
    destruct (connections p !! i); [|done].
    by apply removeConnection_nonneg.
Qed.

Lemma activeConnections_nonneg_run ops p :
  0 ≤ activeConnections p → 0 ≤ activeConnections (run ops p).
Proof.
  revert p. induction ops as [|op ops IH]; intros p Hp; [done|].
  simpl. by apply IH, activeConnections_nonneg_step.
Qed.

End PoolInvariant.

Section PoolClaims.
Import Pool.

(** With no connection in the map, whatever happens that is not part of
    a [createConnection] leaves the map empty and calls the global event
    handler no more. *)
Lemma empty_pool_stays_silent (ops : list Op) (p : ConnectionPool) :
  connections p = ∅ →
  Forall (λ op, creates op = false) ops →
  connections (run ops p) = ∅ ∧ eventCalls (run ops p) = eventCalls p.
Proof.
  revert p. induction ops as [|op ops IH]; intros p Hp Hops; [done|].
  apply Forall_cons in Hops as [Hop Hops]. cbn [run foldl].
  assert (∀ i, connections p !! i = None) as Hnone
    by (intros i; by rewrite Hp, lookup_empty).
  assert (connections (step p op) = ∅
          ∧ eventCalls (step p op) = eventCalls p) as [Hc He].
  { destruct op as [models cid generated now | k now | k now | cid | cid |
                    | maxAge now | cid s | cid ev now | k];
      try discriminate Hop; cbn [step].
    - by rewrite removeConnection_absent.
    - by rewrite closeConnection_absent.
    - unfold closeAllConnections, keys. by rewrite Hp, map_to_list_empty.
    - unfold cleanupStaleConnections. by rewrite Hp, map_to_list_empty.
    - by rewrite handleStatusChange_absent.
    - by rewrite handleEvent_absent.
    - unfold removalTimerFires.
      destruct (removalTimers p !! k) as [i|]; [|done]. cbn [connections
        set_removalTimers]. by rewrite Hnone. }
  destruct (IH (step p op) Hc Hops) as [IHc IHe]. fold (run ops (step p op)).
  by rewrite IHc, IHe, He.
Qed.

(** What [closeAllConnections()] does by itself: when its synchronous
    part has run the map of connections is empty, it has not called the
    global event handler, and events that arrive for any id do not reach
    the global event handler.  The same holds when status changes, timers,
    closes and cleanups come in between, as long as no piece of a
    [createConnection] does. *)
Lemma closeAllConnections_leaves_nothing (p : ConnectionPool) :
  connections (closeAllConnections p) = ∅
  ∧ size (connections (closeAllConnections p)) = 0%nat
  ∧ eventCalls (closeAllConnections p) = eventCalls p
  ∧ (∀ arrivals : list (string * Sse.SSEEventData * Z),
       foldl (λ q a, handleEvent a.1.1 a.1.2 a.2 q)
             (closeAllConnections p) arrivals
       = closeAllConnections p)
  ∧ (∀ ops : list Op,
       Forall (λ op, creates op = false) ops →
       connections (run ops (closeAllConnections p)) = ∅
       ∧ eventCalls (run ops (closeAllConnections p)) = eventCalls p).
Proof.
  assert (connections (closeAllConnections p) = ∅) as Hempty.
  { apply map_eq. intros i. unfold closeAllConnections.
    rewrite closeConnections_lookup, lookup_empty.
    destruct (decide (i ∈ keys p)) as [Hi|Hi]; [done|].
    destruct (connections p !! i) eqn:E; [|done].
    exfalso. apply Hi, elem_of_keys. by eexists. }
  assert (eventCalls (closeAllConnections p) = eventCalls p) as Hcalls
    by apply closeConnections_eventCalls.
  split; [done|]. split; [by rewrite Hempty|].
  split; [done|]. split.
  - intros arrivals. induction arrivals as [|[[i ev] now] l IH]; [done|].
    simpl. rewrite handleEvent_absent; [done|].
    by rewrite Hempty, lookup_empty.
  - intros ops Hops.
    destruct (empty_pool_stays_silent ops (closeAllConnections p) Hempty Hops)
      as [Hc He].
    by rewrite Hc, He, Hcalls.
Qed.

(** C6 (the code departs from the claim).  A call of [createConnection]
    for an id that is in the pool closes the old connection and waits at
    [await this.closeConnection(id)]; [closeAllConnections()] is called
    meanwhile and empties the map; the first call then goes on, unaware of
    it, and inserts its connection: after [closeAllConnections] the pool
    holds ["x"], and a chunk that arrives for ["x"] is handed to the global
    event handler.  A call that waits in [waitForAvailableSlot] goes on in
    the same way at its next [checkSlot]. *)
Theorem create_in_flight_outlives_closeAll :
  keys (run (take 4 closeAllDuringCreate) (newPool defaultOptions)) = []
  ∧ closingOld (run (take 4 closeAllDuringCreate) (newPool defaultOptions))
    = [{| pendingId := "x"; pendingModels := ["m"] |}]
  ∧ keys (run (take 5 closeAllDuringCreate) (newPool defaultOptions))
    = ["x"]
  ∧ activeConnections
      (run (take 5 closeAllDuringCreate) (newPool defaultOptions)) = 1
  ∧ eventCalls (run closeAllDuringCreate (newPool defaultOptions))
    = [{| event := {| Sse.modelId := "m"; Sse.type := "chunk";
                      Sse.data := Sse.Parsed "{}" |};
          connectionId := "x"; timestamp := 2000 |}]
  ∧ keys (run (take 4 closeAllWhileWaiting)
            (newPool {| maxConcurrentConnections := 2;
                        connectionTimeout := 60000;
                        retryOptions := Sse.defaultOptions |})) = []
  ∧ keys (run closeAllWhileWaiting
            (newPool {| maxConcurrentConnections := 2;
                        connectionTimeout := 60000;
                        retryOptions := Sse.defaultOptions |})) = ["z"].
Proof. vm_compute. repeat split; reflexivity. Qed.

(** C9.  [closeConnection(id)] on an id that is not in the pool changes
    nothing, and a second [closeConnection(id)] right after a first one
    changes nothing either: the map of connections, the counter and the
    rest of the pool are those left by the first call. *)
Theorem closeConnection_idempotent (i : string) (p : ConnectionPool) :
  (connections p !! i = None → closeConnection i p = p)
  ∧ closeConnection i (closeConnection i p) = closeConnection i p
  ∧ connections (closeConnection i (closeConnection i p))
    = connections (closeConnection i p)
  ∧ activeConnections (closeConnection i (closeConnection i p))
    = activeConnections (closeConnection i p).
Proof.
  assert (closeConnection i (closeConnection i p) = closeConnection i p) as H.
  { apply closeConnection_absent.
    rewrite closeConnection_connections. apply lookup_delete_eq. }
  split; [apply closeConnection_absent|]. by rewrite !H.
Qed.

Lemma closeConnection_idempotent_witness :
  closeConnection "none" samplePool = samplePool
  ∧ closeConnection "live" (closeConnection "live" samplePool)
    = closeConnection "live" samplePool.
Proof.
  split.
  - refine (proj1 (closeConnection_idempotent "none" samplePool) _).
    vm_compute. reflexivity.
  - exact (proj1 (proj2 (closeConnection_idempotent "live" samplePool))).
Defined.

(** C7.  [cleanupStaleConnections(maxAge)] run at time [now] removes a
    connection exactly when its status is [disconnected] or [error] and
    [now - createdAt > maxAge]; every other connection stays as it was and
    nothing is added; the number returned is the number of connections
    removed; a connection whose status is [connecting] or [connected]
    stays, whatever its age. *)
Theorem cleanupStaleConnections_exact (maxAge now : Z) (p : ConnectionPool) :
  (∀ i, connections (cleanupStaleConnections maxAge now p).1 !! i =
        match connections p !! i with
        | Some c => if isStale maxAge now c then None else Some c
        | None => None
        end)
  ∧ (∀ c, isStale maxAge now c = true ↔
          (status c = Sse.StDisconnected ∨ status c = Sse.StError)
          ∧ maxAge < now - createdAt c)
  ∧ (cleanupStaleConnections maxAge now p).2 =
      Z.of_nat (size (connections p))
      - Z.of_nat (size (connections (cleanupStaleConnections maxAge now p).1))
  ∧ (∀ i c, connections p !! i = Some c →
            status c = Sse.StConnecting ∨ status c = Sse.StConnected →
            connections (cleanupStaleConnections maxAge now p).1 !! i
            = Some c).
Proof.
  split; [apply cleanupStaleConnections_lookup|].
  split.
  { intros c. unfold isStale. rewrite andb_true_iff, Z.ltb_lt.
    destruct (status c); simpl; intuition congruence. }
  split; [apply cleanupStaleConnections_count|].
  intros i c Hi Hs. rewrite cleanupStaleConnections_lookup, Hi.
  unfold isStale. destruct Hs as [-> | ->]; simpl; by rewrite andb_false_r.
Qed.

Lemma cleanupStaleConnections_exact_witness :
  ∃ c, connections samplePool !! "live" = Some c
       ∧ connections (cleanupStaleConnections 300000 900000 samplePool).1
           !! "live" = Some c
       ∧ connections (cleanupStaleConnections 300000 900000 samplePool).1
           !! "gone" = None
       ∧ (cleanupStaleConnections 300000 900000 samplePool).2 = 1.
Proof.
  destruct (connections samplePool !! "live") as [c|] eqn:Hc;
    [|by vm_compute in Hc].
  exists c. split; [done|].
  pose proof (cleanupStaleConnections_exact 300000 900000 samplePool)
    as (Hlook & _ & _ & Hkeep).
  split.
  - apply Hkeep; [done|]. right.
    vm_compute in Hc. by injection Hc as <-.
  - split; [rewrite Hlook|]; vm_compute; reflexivity.
Defined.

(** C10 (the code departs from the claim).  Two overlapping calls of
    [createConnection] for an id that is in the pool: the second one inserts
    while the first waits at [await this.closeConnection(id)]; when the
    first goes on it overwrites the entry and counts it a second time.  The
    counter is then 2 for a map of one connection. *)
Theorem counter_drifts_on_overlapping_creates :
  activeConnections (run overlappingCreates (newPool defaultOptions)) = 2
  ∧ size (connections (run overlappingCreates (newPool defaultOptions)))
    = 1%nat
  ∧ ¬ counterMatches (run overlappingCreates (newPool defaultOptions))
  ∧ ¬ neverResumesOnTakenId overlappingCreates (newPool defaultOptions).
Proof.
  assert (activeConnections (run overlappingCreates (newPool defaultOptions))
          = 2) as Ha by (vm_compute; reflexivity).
  assert (size (connections
                  (run overlappingCreates (newPool defaultOptions)))
          = 1%nat) as Hs by (vm_compute; reflexivity).
  split; [done|]. split; [done|]. split.
  - unfold counterMatches. rewrite Ha, Hs. lia.
  - intros H. apply (counterMatches_run _ (newPool defaultOptions)) in H.
    + unfold counterMatches in H. rewrite Ha, Hs in H. lia.
    + vm_compute. reflexivity.
Qed.

End PoolClaims.

(* ===================================================================== *)
(** * Properties of the upstream adapter, the dispatcher and the
      multiplexer *)
(* ===================================================================== *)

Section UpstreamAdapter.
Import Proxy.

Implicit Types (up : Upstream) (x : Mux) (t : list Step).
Implicit Types (next : list Step * CallResult).

Lemma fetches_app t1 t2 : fetches (t1 ++ t2) = fetches t1 ++ fetches t2.
Proof. apply omap_app. Qed.

Lemma fetches_wait d t : fetches (Wait d :: t) = fetches t.
Proof. done. Qed.

Lemma fetches_startWait d : fetches (startWait d) = [].
Proof. unfold startWait. by destruct (Qle_bool d 0). Qed.

Lemma upstreamSteps_app t1 t2 :
  upstreamSteps (t1 ++ t2) = upstreamSteps t1 ++ upstreamSteps t2.
Proof. apply List.filter_app. Qed.

Lemma upstreamSteps_startWait d : upstreamSteps (startWait d) = startWait d.
Proof. unfold startWait. by destruct (Qle_bool d 0). Qed.

(** ** One call of [callOpenRouter], whatever the next one does *)

Lemma retryAfter_settles before d next :
  next.2 ≠ OutOfFuel → (retryAfter before d next).2 ≠ OutOfFuel.
Proof. done. Qed.

Lemma caught_settles up modelName retryCount next before e :
  ((retryCount < maxRetries)%nat → next.2 ≠ OutOfFuel) →
  (caught up modelName retryCount next before e).2 ≠ OutOfFuel.
Proof.
  intros Hnext. unfold caught.
  destruct (retryCount <? maxRetries)%nat eqn:Hlt; simpl; [|done].
  destruct (looksRetryable _); [|done].
  apply Hnext. by apply Nat.ltb_lt.
Qed.

Lemma callOpenRouter_body_settles up modelName delayMs retryCount next :
  ((retryCount < maxRetries)%nat → next.2 ≠ OutOfFuel) →
  (callOpenRouter_body up modelName delayMs retryCount next).2 ≠ OutOfFuel.
Proof.
  intros Hnext. unfold callOpenRouter_body.
  destruct (apiKey up); simpl; [|by apply caught_settles].
  destruct (answers up retryCount) as [body|st txt|e];
    [done| |by apply caught_settles].
  destruct (st =? 429); simpl; [|by apply caught_settles].
  destruct (retryCount <? maxRetries)%nat eqn:Hlt;
    [|by apply caught_settles].
  apply Hnext. by apply Nat.ltb_lt.
Qed.

Lemma caught_fetches up modelName retryCount next before e :
  (length (fetches (caught up modelName retryCount next before e).1)
   ≤ length (fetches before) + length (fetches next.1))%nat.
Proof.
  unfold caught. destruct (_ && _); simpl; [|lia].
  rewrite fetches_app, fetches_wait, length_app. lia.
Qed.

Lemma callOpenRouter_body_fetches up modelName delayMs retryCount next :
  (length (fetches (callOpenRouter_body up modelName delayMs retryCount next).1)
   ≤ 1 + length (fetches next.1))%nat.
Proof.
  unfold callOpenRouter_body.
  assert (length (fetches (startWait delayMs ++ [Fetch retryCount])) = 1%nat)
    as Hf by (by rewrite fetches_app, fetches_startWait).
  destruct (apiKey up); simpl.
  - destruct (answers up retryCount) as [body|st txt|e].
    + simpl. lia.
    + destruct (_ && _).
      * simpl. rewrite fetches_app, fetches_wait, length_app. lia.
      * etrans; [apply caught_fetches|]. lia.
    + etrans; [apply caught_fetches|]. lia.
  - etrans; [apply caught_fetches|]. rewrite fetches_startWait. simpl. lia.
Qed.

Lemma caught_no_send up modelName retryCount next before e :
  upstreamSteps before = before → upstreamSteps next.1 = next.1 →
  upstreamSteps (caught up modelName retryCount next before e).1
  = (caught up modelName retryCount next before e).1.
Proof.
  intros Hb Hn. unfold caught. destruct (_ && _); simpl; [|done].
  rewrite upstreamSteps_app, Hb. unfold upstreamSteps at 1. simpl.
  fold (upstreamSteps next.1). by rewrite Hn.
Qed.

Lemma callOpenRouter_body_no_send up modelName delayMs retryCount next :
  upstreamSteps next.1 = next.1 →
  upstreamSteps (callOpenRouter_body up modelName delayMs retryCount next).1
  = (callOpenRouter_body up modelName delayMs retryCount next).1.
Proof.
  intros Hn. unfold callOpenRouter_body.
  assert (upstreamSteps (startWait delayMs ++ [Fetch retryCount])
          = startWait delayMs ++ [Fetch retryCount]) as Hf.
  { by rewrite upstreamSteps_app, upstreamSteps_startWait. }
  destruct (apiKey up); simpl.
  - destruct (answers up retryCount) as [body|st txt|e]; [done| |].
    + destruct (_ && _); [|by apply caught_no_send]. simpl.
      rewrite upstreamSteps_app, Hf. unfold upstreamSteps at 1. simpl.
      fold (upstreamSteps next.1). by rewrite Hn.
    + by apply caught_no_send.
  - apply caught_no_send; [apply upstreamSteps_startWait | done].
Qed.

Lemma callOpenRouter_body_starts up modelName delayMs retryCount next :
  apiKey up = true →
  ∃ rest, (callOpenRouter_body up modelName delayMs retryCount next).1
          = startWait delayMs ++ Fetch retryCount :: rest.
Proof.
  intros Hkey. unfold callOpenRouter_body, caught, retryAfter.
  rewrite Hkey. simpl.
  destruct (answers up retryCount) as [body|st txt|e]; simpl.
  - by exists [].
  - destruct (_ && _); simpl.
    + eexists. by rewrite <- app_assoc.
    + destruct (_ && _); simpl; [|by exists []].
      eexists. by rewrite <- app_assoc.
  - destruct (_ && _); simpl; [|by exists []].
    eexists. by rewrite <- app_assoc.
Qed.

(** ** The recursion *)

Lemma callOpenRouter_fuel_enough fuel up modelName delayMs retryCount :
  (maxRetries - retryCount < fuel)%nat →
  (callOpenRouter_fuel fuel up modelName delayMs retryCount).2 ≠ OutOfFuel.
Proof.
  revert delayMs retryCount.
  induction fuel as [|fuel IH]; intros delayMs retryCount Hfuel; [lia|].
  simpl. apply callOpenRouter_body_settles. intros Hlt. apply IH. lia.
Qed.

(** [callOpenRouter] always settles: it resolves or rejects. *)
Lemma callOpenRouter_settles up modelName delayMs :
  (callOpenRouter up modelName delayMs 0).2 ≠ OutOfFuel.
Proof. apply callOpenRouter_fuel_enough. unfold maxRetries. lia. Qed.

(** One request at most per level of the recursion. *)
Lemma callOpenRouter_fuel_fetches fuel up modelName delayMs retryCount :
  (length (fetches (callOpenRouter_fuel fuel up modelName delayMs retryCount).1)
   ≤ fuel)%nat.
Proof.
  revert delayMs retryCount.
  induction fuel as [|fuel IH]; intros delayMs retryCount; [done|].
  simpl. etrans; [apply callOpenRouter_body_fetches|].
  specialize (IH 0%Q (S retryCount)). lia.
Qed.

Lemma callOpenRouter_fuel_no_send fuel up modelName delayMs retryCount :
  upstreamSteps (callOpenRouter_fuel fuel up modelName delayMs retryCount).1
  = (callOpenRouter_fuel fuel up modelName delayMs retryCount).1.
Proof.
  revert delayMs retryCount.
  induction fuel as [|fuel IH]; intros delayMs retryCount; [done|].
  simpl. apply callOpenRouter_body_no_send, IH.
Qed.

(** With a key configured, the first thing [callOpenRouter] does after
    its start delay is the request. *)
Lemma callOpenRouter_starts up modelName delayMs :
  apiKey up = true →
  ∃ rest, (callOpenRouter up modelName delayMs 0).1
          = startWait delayMs ++ Fetch 0 :: rest.
Proof. intros Hkey. by apply callOpenRouter_body_starts. Qed.

Lemma upstreamSteps_emit (dc : string → option string) ev d x :
  upstreamSteps (emit ev d x).2 = [].
Proof. unfold emit. simpl. by destruct (_ && _). Qed.

(** The requests and waits of an adapter are those of its
    [callOpenRouter]: nothing else in [makeAIRequest] waits or fetches
    before them. *)
Lemma makeAIRequest_upstreamSteps dc up modelName index x :
  ∃ tail,
    upstreamSteps (makeAIRequest dc up modelName index x).2
    = (callOpenRouter up modelName (staggerDelay index) 0).1 ++ tail.
Proof.
  unfold makeAIRequest.
  pose proof (callOpenRouter_fuel_no_send (S maxRetries) up modelName
                (staggerDelay index) 0) as Hns.
  fold (callOpenRouter up modelName (staggerDelay index) 0) in Hns.
  destruct (callOpenRouter up modelName (staggerDelay index) 0)
    as [s2 result]. simpl in Hns.
  pose proof (upstreamSteps_emit dc (modelName +:+ "_progress")
                (Progress "connecting" "Connecting to model...") x) as Hs1.
  destruct (emit (modelName +:+ "_progress")
              (Progress "connecting" "Connecting to model...") x)
    as [x1 s1]. simpl in Hs1.
  destruct result as [[body|]|e|].
  - destruct (emit _ _ x1) as [x2 s3].
    destruct (readLoop _ _ _ _ _ _) as [[[x3 r] s4] ex].
    assert (∃ x4 s5, (match ex with
                      | SawDone => (x3, [])
                      | LeftLoop =>
                          if hasReceivedContent r
                          then emit (modelName +:+ "_end")
                                 (End "Response completed (stream ended)" None)
                                 x3
                          else emitError modelName
                                 (plainError
                                    "Stream ended without receiving any content")
                                 x3
                      | ReadThrew e => emitError modelName e x3
                      end) = (x4, s5)) as (x4 & s5 & ->).
    { destruct ex as [| |e]; [eauto| |];
        [destruct (hasReceivedContent r)|];
        match goal with
        | |- ∃ a b, ?pair = _ => destruct pair as [a b]; by exists a, b
        end. }
    simpl. rewrite !upstreamSteps_app, Hs1, Hns. simpl. eauto.
  - destruct (emitError _ _ _) as [x2 s3]. simpl.
    rewrite !upstreamSteps_app, Hs1, Hns. simpl. eauto.
  - destruct (emitError _ _ _) as [x2 s3]. simpl.
    rewrite !upstreamSteps_app, Hs1, Hns. simpl. eauto.
  - simpl. rewrite !upstreamSteps_app, Hs1, Hns. simpl. exists [].
    by rewrite app_nil_r.
Qed.

(** ** Messages are neither requests nor waits *)

Lemma emit_sendsOnly ev d x : sendsOnly (emit ev d x).2.
Proof. unfold emit. simpl. destruct (_ && _); repeat constructor. Qed.

Lemma emitError_sendsOnly modelName e x :
  sendsOnly (emitError modelName e x).2.
Proof.
  unfold emitError.
  destruct (Js.includes "fetch" _); [apply emit_sendsOnly|].
  destruct (Js.includes "timeout" _); [apply emit_sendsOnly|].
  destruct (Js.includes "rate limit" _); apply emit_sendsOnly.
Qed.

Lemma processLines_sendsOnly dc modelName now lines r x :
  sendsOnly (processLines dc modelName now lines r x).1.2.
Proof.
  revert r x. induction lines as [|line lines IH]; intros r x;
    cbn [processLines]; [constructor|].
  destruct (negb (connectionActive x)); [constructor|].
  destruct (Js.startsWith "data: " line); [|apply IH].
  destruct (String.eqb _ "[DONE]").
  - pose proof (emit_sendsOnly (modelName +:+ "_end")
                  (End (if hasReceivedContent r then "Response completed"
                        else "Response completed (empty)")
                       (Some (chunkCount r))) x) as H.
    by destruct (emit _ _ x).
  - destruct (dc (Js.slice 6 line)) as [token|]; [|apply IH].
    pose proof (emit_sendsOnly (modelName +:+ "_chunk") (Chunk token now) x)
      as H.
    destruct (emit _ _ x) as [x1 s1].
    match goal with
    | |- context [processLines dc modelName now lines ?r' x1] =>
        specialize (IH r' x1);
        destruct (processLines dc modelName now lines r' x1)
          as [[[x2 r2] s2] b]
    end.
    by apply Forall_app.
Qed.

Lemma readLoop_sendsOnly dc modelName reads failure r x :
  sendsOnly (readLoop dc modelName reads failure r x).1.2.
Proof.
  revert r x. induction reads as [|[now chunk] reads IH]; intros r x;
    cbn [readLoop].
  - destruct (negb (connectionActive x)); [constructor|].
    destruct failure; constructor.
  - destruct (negb (connectionActive x)); [constructor|].
    match goal with
    | |- context [processLines dc modelName now ?ls ?r' ?x'] =>
        pose proof (processLines_sendsOnly dc modelName now ls r' x') as H;
        destruct (processLines dc modelName now ls r' x')
          as [[[x2 r2] s2] b]
    end.
    destruct b; [done|].
    match goal with
    | |- context [readLoop dc modelName reads failure ?r' x2] =>
        specialize (IH r' x2);
        destruct (readLoop dc modelName reads failure r' x2)
          as [[[x3 r3] s3] ex]
    end.
    by apply Forall_app.
Qed.

(** What [makeAIRequest] does once [callOpenRouter] has resolved with a
    body: messages only. *)
Lemma makeAIRequest_split dc up modelName index x :
  ∃ s1 after,
    (makeAIRequest dc up modelName index x).2
    = s1 ++ (callOpenRouter up modelName (staggerDelay index) 0).1 ++ after
    ∧ s1 = (emit (modelName +:+ "_progress")
              (Progress "connecting" "Connecting to model...") x).2
    ∧ sendsOnly after.
Proof.
  unfold makeAIRequest.
  destruct (emit (modelName +:+ "_progress")
              (Progress "connecting" "Connecting to model...") x)
    as [x1 s1].
  destruct (callOpenRouter up modelName (staggerDelay index) 0)
    as [s2 result].
  exists s1. cbn [fst snd].
  destruct result as [[body|]|e|].
  - pose proof (emit_sendsOnly (modelName +:+ "_progress")
                  (Progress "streaming" "Receiving response...") x1) as H3.
    destruct (emit _ _ x1) as [x2 s3].
    pose proof (readLoop_sendsOnly dc modelName (chunks body) (failure body)
                  {| buffer := ""; chunkCount := 0;
                     hasReceivedContent := false |} x2) as H4.
    destruct (readLoop _ _ _ _ _ _) as [[[x3 r] s4] ex].
    assert (∃ x4 s5,
             (match ex with
              | SawDone => (x3, [])
              | LeftLoop =>
                  if hasReceivedContent r
                  then emit (modelName +:+ "_end")
                         (End "Response completed (stream ended)" None) x3
                  else emitError modelName
                         (plainError
                            "Stream ended without receiving any content")
                         x3
              | ReadThrew e => emitError modelName e x3
              end) = (x4, s5) ∧ sendsOnly s5) as (x4 & s5 & -> & H5).
    { destruct ex as [| |e].
      - exists x3, []. split; [done|constructor].
      - destruct (hasReceivedContent r).
        + pose proof (emit_sendsOnly (modelName +:+ "_end")
                        (End "Response completed (stream ended)" None) x3)
            as H.
          destruct (emit _ _ x3) as [a b]. by exists a, b.
        + pose proof (emitError_sendsOnly modelName
                        (plainError
                           "Stream ended without receiving any content") x3)
            as H.
          destruct (emitError _ _ x3) as [a b]. by exists a, b.
      - pose proof (emitError_sendsOnly modelName e x3) as H.
        destruct (emitError _ _ x3) as [a b]. by exists a, b. }
    exists (s3 ++ s4 ++ s5). cbn [fst snd] in *. split; [done|].
    split; [done|]. repeat (apply Forall_app; split); done.
  - pose proof (emitError_sendsOnly modelName
                  (plainError "No response stream received from the model")
                  x1) as H3.
    destruct (emitError _ _ x1) as [x2 s3]. by exists s3.
  - pose proof (emitError_sendsOnly modelName e x1) as H3.
    destruct (emitError _ _ x1) as [x2 s3]. by exists s3.
  - exists []. cbn [fst snd]. rewrite app_nil_r. split; [done|].
    split; [done|constructor].
Qed.

End UpstreamAdapter.

Section ProxyClaims.
Import Proxy.

Implicit Types (up : Upstream) (x : Mux) (t : list Step).

Lemma startWait_staggerDelay (index : nat) :
  startWait (staggerDelay index)
  = match index with
    | O => []
    | S _ => [Wait (inject_Z (Z.of_nat index * 2000))]
    end.
Proof.
  unfold startWait, staggerDelay, Qle_bool. simpl.
  destruct index as [|k]; [done|].
  destruct (Z.of_nat (S k) * 2000 * 1 <=? 0) eqn:E; [|done].
  apply Z.leb_le in E. lia.
Qed.

(** C8.  The adapter the dispatcher starts for the model at index [i] is
    [makeAIRequest(model, i)]; it calls [callOpenRouter] with
    [delayMs = i * 2000], and, a key being configured, the first request
    leaves after a wait of exactly that many milliseconds (no wait at all
    for index 0) and nothing else. *)
Theorem dispatcher_staggers_by_index
    (dc : string → option string) (ups : nat → Upstream)
    (models : list string) (i : nat) (modelName : string) (x : Mux) :
  models !! i = Some modelName →
  apiKey (ups i) = true →
  ∃ adapter rest,
    dispatch dc ups models !! i = Some adapter
    ∧ adapter = makeAIRequest dc (ups i) modelName i
    ∧ staggerDelay i = inject_Z (Z.of_nat i * 2000)
    ∧ upstreamSteps (adapter x).2
      = match i with
        | O => []
        | S _ => [Wait (inject_Z (Z.of_nat i * 2000))]
        end ++ Fetch 0 :: rest.
Proof.
  intros Hi Hkey.
  destruct (makeAIRequest_upstreamSteps dc (ups i) modelName i x)
    as [tail Htail].
  destruct (callOpenRouter_starts (ups i) modelName (staggerDelay i) Hkey)
    as [rest Hrest].
  exists (makeAIRequest dc (ups i) modelName i), (rest ++ tail).
  split; [|split; [done|split; [done|]]].
  - unfold dispatch. by rewrite list_lookup_imap, Hi.
  - rewrite Htail, Hrest, startWait_staggerDelay.
    by rewrite <- app_assoc.
Qed.

Lemma dispatcher_staggers_by_index_witness :
  ∃ adapter rest,
    dispatch bareToken (λ _, limitedThrice) ["a"; "b"; "c"] !! 2%nat
      = Some adapter
    ∧ adapter = makeAIRequest bareToken limitedThrice "c" 2
    ∧ staggerDelay 2 = inject_Z 4000
    ∧ upstreamSteps (adapter (start 0 ["a"; "b"; "c"])).2
      = [Wait (inject_Z 4000)] ++ Fetch 0 :: rest.
Proof.
  exact (dispatcher_staggers_by_index bareToken (λ _, limitedThrice)
           ["a"; "b"; "c"] 2 "c" (start 0 ["a"; "b"; "c"])
           eq_refl eq_refl).
Defined.

(** ** Backoff *)


Lemma pow2_ge_1 n : (1 <= pow2 n)%Q.
Proof.
  unfold pow2. change 1%Q with (inject_Z 1). rewrite <- Zle_Qle.
  pose proof (Z.pow_pos_nonneg 2 (Z.of_nat n)). lia.
Qed.





End ProxyClaims.

Section RetryPolicy.
Import Proxy.

Implicit Types (up : Upstream) (x : Mux) (t : list Step).

(** The flag set by the [switch]: 429 and 5xx are retryable, every other
    4xx is not. *)
Lemma httpRetryable_classes :
  httpRetryable 429 = true
  ∧ (∀ st, 500 ≤ st → httpRetryable st = true)
  ∧ (∀ st, 400 ≤ st < 500 → st ≠ 429 → httpRetryable st = false).
Proof.
  split; [done|]. split; intros st Hst.
  - unfold httpRetryable.
    repeat case_match; try done; try lia; apply Z.leb_le; lia.
  - intros Hne. unfold httpRetryable.
    repeat case_match; try done; try lia; apply Z.leb_gt; lia.
Qed.

(** A failure that the [catch] does not take for retryable is not
    retried: one request, then the rejection. *)
Lemma failure_not_retried up modelName delayMs st txt :
  apiKey up = true → answers up 0 = HttpError st txt → st ≠ 429 →
  looksRetryable (httpError modelName st txt) = false →
  callOpenRouter up modelName delayMs 0
  = (startWait delayMs ++ [Fetch 0],
     Rejected (nameModel modelName (httpError modelName st txt))).
Proof.
  intros Hkey Hans Hne Hlooks. unfold callOpenRouter.
  simpl callOpenRouter_fuel. unfold callOpenRouter_body at 1. unfold caught.
  rewrite Hkey, Hans. cbn [negb].
  apply Z.eqb_neq in Hne. rewrite Hne. cbn [andb].
  change (noteTimeout modelName (httpError modelName st txt))
    with (httpError modelName st txt).
  by rewrite Hlooks, andb_false_r.
Qed.

Lemma callOpenRouter_body_flagged up modelName delayMs n st txt next :
  apiKey up = true → answers up n = HttpError st txt →
  httpRetryable st = true → (n < maxRetries)%nat →
  ∃ d, callOpenRouter_body up modelName delayMs n next
       = retryAfter (startWait delayMs ++ [Fetch n]) d next.
Proof.
  intros Hkey Hans Hr Hlt. apply Nat.ltb_lt in Hlt.
  unfold callOpenRouter_body, caught. rewrite Hkey, Hans, Hlt. cbn [negb].
  destruct (st =? 429); cbn [andb]; [eauto|].
  change (noteTimeout modelName (httpError modelName st txt))
    with (httpError modelName st txt).
  assert (looksRetryable (httpError modelName st txt) = true) as ->; [|eauto].
  unfold looksRetryable. simpl. rewrite Hr. by rewrite !orb_true_r.
Qed.

Lemma callOpenRouter_body_spent up modelName delayMs n st txt next :
  apiKey up = true → answers up n = HttpError st txt →
  ¬ (n < maxRetries)%nat →
  callOpenRouter_body up modelName delayMs n next
  = (startWait delayMs ++ [Fetch n],
     Rejected (nameModel modelName (httpError modelName st txt))).
Proof.
  intros Hkey Hans Hlt. apply Nat.ltb_nlt in Hlt.
  unfold callOpenRouter_body, caught. rewrite Hkey, Hans, Hlt. cbn [negb].
  by rewrite andb_false_r.
Qed.

(** A failure whose flag is set is retried until the budget is used up:
    four requests, then the rejection with the flag still set. *)
Lemma retryable_failure_exhausts_budget up modelName delayMs st txt :
  apiKey up = true → (∀ n, answers up n = HttpError st txt) →
  httpRetryable st = true →
  fetches (callOpenRouter up modelName delayMs 0).1 = [0; 1; 2; 3]%nat
  ∧ ∃ e, (callOpenRouter up modelName delayMs 0).2 = Rejected e
         ∧ retryable e = Some true.
Proof.
  intros Hkey Hans Hr. unfold callOpenRouter. simpl callOpenRouter_fuel.
  rewrite (callOpenRouter_body_spent up modelName 0%Q 3 st txt)
    by (done || unfold maxRetries; lia).
  destruct (callOpenRouter_body_flagged up modelName 0%Q 2 st txt
              (startWait 0 ++ [Fetch 3],
               Rejected (nameModel modelName (httpError modelName st txt)))
              Hkey (Hans _) Hr) as [d2 ->]; [unfold maxRetries; lia|].
  match goal with |- context [callOpenRouter_body _ _ _ 1 ?next] =>
    destruct (callOpenRouter_body_flagged up modelName 0%Q 1 st txt next
                Hkey (Hans _) Hr) as [d1 ->]; [unfold maxRetries; lia|] end.
  match goal with |- context [callOpenRouter_body _ _ _ 0 ?next] =>
    destruct (callOpenRouter_body_flagged up modelName delayMs 0 st txt next
                Hkey (Hans _) Hr) as [d0 ->]; [unfold maxRetries; lia|] end.
  unfold retryAfter. cbn [fst snd]. split.
  - rewrite !fetches_app, fetches_startWait. done.
  - eexists. split; [done|]. unfold nameModel.
    destruct (Js.includes _ _); simpl; by rewrite Hr.
Qed.

(** C3 (the code departs from the claim).  A 404 for a model whose name
    contains [network], and a 408 whose body says [Request timeout]: the
    [switch] flags both as not retryable, yet the [catch] finds one of its
    words in the message and retries three times; the 408 is then reported
    with [retryable = true]. *)
Theorem fatal_failure_retried_on_message_match :
  let named :=
    makeAIRequest noContent (alwaysFails 404 "Not Found")
      "acme/network-7b" 0 (start 0 ["acme/network-7b"]) in
  let timed :=
    makeAIRequest noContent (alwaysFails 408 "Request timeout")
      "acme/llama-7b" 0 (start 0 ["acme/llama-7b"]) in
  retryable (httpError "acme/network-7b" 404 "Not Found") = Some false
  ∧ fetches named.2 = [0; 1; 2; 3]%nat
  ∧ retryable (httpError "acme/llama-7b" 408 "Request timeout") = Some false
  ∧ fetches timed.2 = [0; 1; 2; 3]%nat
  ∧ messages timed.2
    = [ {| event := "acme/llama-7b_progress";
           data := Progress "connecting" "Connecting to model..." |};
        {| event := "acme/llama-7b_error";
           data := ErrorInfo "Request timed out. The model may be overloaded."
                     true |} ].
Proof. vm_compute. repeat split; reflexivity. Qed.

(** The same two failures without the offending words are not retried. *)
Example fatal_failure_plain :
  fetches (makeAIRequest noContent (alwaysFails 404 "Not Found")
             "acme/llama-7b" 0 (start 0 ["acme/llama-7b"])).2 = [0%nat]
  ∧ messages (makeAIRequest noContent (alwaysFails 404 "Not Found")
                "acme/llama-7b" 0 (start 0 ["acme/llama-7b"])).2
    = [ {| event := "acme/llama-7b_progress";
           data := Progress "connecting" "Connecting to model..." |};
        {| event := "acme/llama-7b_error";
           data := ErrorInfo
                     "Model acme/llama-7b not found. This model may have been removed or renamed."
                     false |} ].
Proof. vm_compute. split; reflexivity. Qed.

(** A body that fails while it is read, after a successful request, is
    reported at once: [callOpenRouter] has returned, nothing retries. *)
Example failure_while_streaming_is_not_retried :
  let broken :=
    {| apiKey := true;
       answers := λ _, HttpOk (Some {| chunks := [];
                                       failure := Some
                                         {| kind := TypeError;
                                            message := "terminated";
                                            status := None;
                                            retryable := None |} |});
       random := λ _, 0%Q |} in
  fetches (makeAIRequest noContent broken "m" 0 (start 0 ["m"])).2 = [0%nat]
  ∧ last (messages (makeAIRequest noContent broken "m" 0 (start 0 ["m"])).2)
    = Some {| event := "m_error"; data := ErrorInfo "terminated" false |}.
Proof. vm_compute. split; reflexivity. Qed.

End RetryPolicy.

Section Staleness.
Import Proxy.

Implicit Types (x : Mux).

Lemma sendSSEMessage_lastActivity ev d x :
  lastActivity (sendSSEMessage ev d x) = lastActivity x.
Proof.
  unfold sendSSEMessage.
  destruct (negb (connectionActive x)); [done|]. by destruct (writable x).
Qed.

Lemma heartbeatTick_lastActivity now x :
  lastActivity (heartbeatTick now x) = lastActivity x.
Proof.
  unfold heartbeatTick. destruct (negb (heartbeatInterval x)); [done|].
  destruct (negb (connectionActive x)); [done|].
  destruct (_ <? _); [done|]. apply sendSSEMessage_lastActivity.
Qed.

Lemma processLines_lastActivity dc modelName now lines r x :
  lastActivity (processLines dc modelName now lines r x).1.1.1
  = lastActivity x.
Proof.
  revert r x. induction lines as [|line lines IH]; intros r x;
    cbn [processLines]; [done|].
  destruct (negb (connectionActive x)); [done|].
  destruct (Js.startsWith "data: " line); [|apply IH].
  destruct (String.eqb _ "[DONE]").
  - unfold emit. cbn [fst snd]. apply sendSSEMessage_lastActivity.
  - destruct (dc (Js.slice 6 line)) as [token|]; [|apply IH].
    unfold emit.
    match goal with
    | |- context [processLines dc modelName now lines ?r' ?x'] =>
        specialize (IH r' x');
        destruct (processLines dc modelName now lines r' x')
          as [[[x2 r2] s2] b]
    end.
    cbn [fst snd] in *. by rewrite IH, sendSSEMessage_lastActivity.
Qed.

(** Reading a chunk of upstream data at time [t] is what moves
    [lastActivity]. *)
Lemma readLoop_lastActivity dc modelName t chunk r x :
  connectionActive x = true →
  lastActivity (readLoop dc modelName [(t, chunk)] None r x).1.1.1 = t.
Proof.
  intros Hx. cbn [readLoop]. rewrite Hx. cbn [negb].
  match goal with
  | |- context [processLines dc modelName t ?ls ?r' ?x'] =>
      pose proof (processLines_lastActivity dc modelName t ls r' x') as H;
      destruct (processLines dc modelName t ls r' x') as [[[x2 r2] s2] b]
  end.
  cbn [fst snd] in *. destruct b; [done|].
  destruct (negb (connectionActive x2)); cbn [fst snd]; done.
Qed.

(** C5, as the code has it.  At a run of the interval callback on a live
    stream: when more than 120000 ms have passed since the last chunk was
    read from an upstream ([lastActivity]), the stream is made inactive, the
    interval is cleared, no heartbeat is sent and nothing can be sent any
    more (the controller itself is not closed at that point); otherwise,
    the transport being writable, the heartbeat is sent and the stream
    stays as it is.  [lastActivity] is moved by the reading of an upstream
    chunk only: neither a message sent nor the heartbeat changes it.  The
    callback is run every 10000 ms. *)
Theorem stale_check_follows_upstream_reads (now : Z) (x : Mux) :
  heartbeatInterval x = true → connectionActive x = true →
  (staleThreshold < now - lastActivity x →
     connectionActive (heartbeatTick now x) = false
     ∧ heartbeatInterval (heartbeatTick now x) = false
     ∧ sent (heartbeatTick now x) = sent x
     ∧ closed (heartbeatTick now x) = closed x
     ∧ ∀ ev d, sendSSEMessage ev d (heartbeatTick now x)
               = heartbeatTick now x)
  ∧ (now - lastActivity x ≤ staleThreshold → writable x = true →
     heartbeatTick now x
     = enqueue {| event := "heartbeat";
                  data := HeartbeatAlive now (now - lastActivity x) |} x)
  ∧ (∀ ev d, lastActivity (sendSSEMessage ev d x) = lastActivity x)
  ∧ lastActivity (heartbeatTick now x) = lastActivity x
  ∧ (∀ dc modelName t chunk r,
       lastActivity (readLoop dc modelName [(t, chunk)] None r x).1.1.1 = t)
  ∧ staleThreshold = 120000
  ∧ heartbeatPeriod = 10000.
Proof.
  intros Hint Hact. unfold heartbeatTick. rewrite Hint, Hact. cbn [negb].
  split; [|split; [|split; [|split; [|split; [|split]]]]].
  - intros Hstale. apply Z.ltb_lt in Hstale. rewrite Hstale. done.
  - intros Hfresh Hw. apply Z.ltb_ge in Hfresh. rewrite Hfresh.
    unfold sendSSEMessage. by rewrite Hact, Hw.
  - intros ev d. apply sendSSEMessage_lastActivity.
  - destruct (_ <? _); [done|]. apply sendSSEMessage_lastActivity.
  - intros dc modelName t chunk r. by apply readLoop_lastActivity.
  - done.
  - done.
Qed.

Lemma stale_check_follows_upstream_reads_witness :
  connectionActive (heartbeatTick 130000 quietStream) = false
  ∧ heartbeatTick 125000 busyStream
    = enqueue {| event := "heartbeat";
                 data := HeartbeatAlive 125000 75000 |} busyStream.
Proof.
  split.
  - refine (proj1 (proj1 (stale_check_follows_upstream_reads 130000
                            quietStream eq_refl eq_refl) _)).
    vm_compute. reflexivity.
  - refine (proj1 (proj2 (stale_check_follows_upstream_reads 125000
                            busyStream eq_refl eq_refl)) _ eq_refl).
    vm_compute. discriminate.
Defined.

(** C5 as the document words it, refuted.  A stream whose upstream stays
    silent: at 130 s its last heartbeat is 10 s old, and yet the callback
    sends none and gives the stream up; had a chunk been read at 50 s, with
    no message sent for it, the same callback would send the heartbeat. *)
Lemma heartbeat_stops_while_events_flow :
  ¬ heartbeatWhileEventsFlow
  ∧ connectionActive quietStream = true
  ∧ last (sent quietStream)
    = Some {| event := "heartbeat"; data := HeartbeatAlive 120000 120000 |}
  ∧ connectionActive (heartbeatTick 130000 quietStream) = false
  ∧ sent (heartbeatTick 130000 quietStream) = sent quietStream
  ∧ (λ m, (event m, stamp (data m))) <$> sent busyStream
    = (λ m, (event m, stamp (data m))) <$> sent quietStream
  ∧ last (sent (heartbeatTick 130000 busyStream))
    = Some {| event := "heartbeat"; data := HeartbeatAlive 130000 80000 |}.
Proof.
  split; [|vm_compute; repeat split; reflexivity].
  intros H.
  destruct (H 130000 quietStream) as [Hactive _].
  - vm_compute. reflexivity.
  - vm_compute. reflexivity.
  - vm_compute. reflexivity.
  - exists {| event := "heartbeat"; data := HeartbeatAlive 120000 120000 |},
      120000.
    split; [|split; [reflexivity|unfold staleThreshold; lia]].
    apply list_elem_of_lookup. exists 14%nat. vm_compute. reflexivity.
  - vm_compute in Hactive. discriminate.
Qed.

End Staleness.

(* ===================================================================== *)
(** * Properties of the connection manager *)
(* ===================================================================== *)

Section Consumer.
Import Sse.

Implicit Types (m : Manager) (es : list Effect) (id : string).
Implicit Types (ids expected : list string).

(** ** Counting terminal events *)

Lemma terminalCount_app id es1 es2 :
  terminalCount id (es1 ++ es2)
  = (terminalCount id es1 + terminalCount id es2)%nat.
Proof. unfold terminalCount. by rewrite List.filter_app, length_app. Qed.

Lemma occurrences_app id ids1 ids2 :
  occurrences id (ids1 ++ ids2)
  = (occurrences id ids1 + occurrences id ids2)%nat.
Proof. unfold occurrences. by rewrite List.filter_app, length_app. Qed.

Lemma occurrences_cons id id' ids :
  occurrences id (id' :: ids)
  = ((if String.eqb id' id then 1 else 0) + occurrences id ids)%nat.
Proof. unfold occurrences. simpl. by destruct (String.eqb id' id). Qed.

Lemma occurrences_not_in id ids : id ∉ ids → occurrences id ids = 0%nat.
Proof.
  induction ids as [|id' ids IH]; intros Hid; [done|].
  rewrite occurrences_cons, IH.
  - destruct (String.eqb_spec id' id) as [->|]; [|done].
    exfalso. apply Hid. by left.
  - intros H. apply Hid. by right.
Qed.

Lemma occurrences_NoDup id ids :
  NoDup ids → id ∈ ids → occurrences id ids = 1%nat.
Proof.
  induction ids as [|id' ids IH]; intros Hnd Hid.
  - by apply elem_of_nil in Hid.
  - apply NoDup_cons in Hnd as [Hnotin Hnd]. rewrite occurrences_cons.
    destruct (String.eqb_spec id' id) as [->|Hne].
    + by rewrite occurrences_not_in.
    + apply elem_of_cons in Hid as [->|Hid]; [done|]. by rewrite IH.
Qed.

(** ** One event *)

Lemma handleSSEEvent_manager now event data m :
  (handleSSEEvent now event data m).1
  = match terminalOf event with
    | Some id => add_completed id m
    | None => m
    end.
Proof.
  unfold handleSSEEvent, terminalOf.
  destruct (String.eqb event "heartbeat"); [done|].
  destruct (length _ <? 2)%nat; [done|].
  by destruct (isTerminal _).
Qed.

Lemma handleSSEEvent_terminalCount now event data m id :
  terminalCount id (handleSSEEvent now event data m).2
  = match terminalOf event with
    | Some id' => if String.eqb id' id then 1%nat else 0%nat
    | None => 0%nat
    end.
Proof.
  unfold handleSSEEvent, terminalOf, terminalCount.
  destruct (String.eqb event "heartbeat").
  { simpl. by rewrite andb_false_r. }
  destruct (length _ <? 2)%nat; [done|].
  destruct (isTerminal _) eqn:Ht; simpl; rewrite Ht.
  - rewrite andb_true_r. by destruct (String.eqb _ id).
  - by rewrite andb_false_r.
Qed.

(** ** The records of a chunk *)

Lemma handleAll_manager now recs m :
  (handleAll now recs m).1 = markCompleted (terminals recs) m.
Proof.
  revert m. induction recs as [|[event data] recs IH]; intros m; [done|].
  cbn [handleAll].
  pose proof (handleSSEEvent_manager now event data m) as H1.
  destruct (handleSSEEvent now event data m) as [m1 e1].
  specialize (IH m1). destruct (handleAll now recs m1) as [m2 e2].
  cbn [fst snd] in *. subst m1. rewrite IH.
  unfold terminals. cbn [omap list_omap fst].
  by destruct (terminalOf event).
Qed.

Lemma handleAll_terminalCount now recs m id :
  terminalCount id (handleAll now recs m).2 = occurrences id (terminals recs).
Proof.
  revert m. induction recs as [|[event data] recs IH]; intros m; [done|].
  cbn [handleAll].
  pose proof (handleSSEEvent_terminalCount now event data m id) as H1.
  destruct (handleSSEEvent now event data m) as [m1 e1].
  specialize (IH m1). destruct (handleAll now recs m1) as [m2 e2].
  cbn [fst snd] in *. rewrite terminalCount_app, H1, IH.
  unfold terminals. cbn [omap list_omap fst].
  destruct (terminalOf event) as [id'|]; [|done].
  fold (terminals recs). by rewrite occurrences_cons.
Qed.

Lemma dispatchLines_records_le (n : nat) now lines m :
  (length lines ≤ n)%nat →
  dispatchLines now lines m = handleAll now (records lines) m.
Proof.
  revert lines m. induction n as [|n IH]; intros lines m Hn.
  { destruct lines; [done|simpl in Hn; lia]. }
  destruct lines as [|l rest]; [done|]. cbn [dispatchLines records].
  simpl in Hn.
  destruct (Js.startsWith "event: " (Js.trim l)); [|apply IH; lia].
  destruct rest as [|d rest']; [apply IH; simpl; lia|].
  destruct (Js.startsWith "data: " d); [|apply IH; lia].
  cbn [handleAll]. destruct (handleSSEEvent _ _ _ _) as [m1 e1].
  rewrite IH; [done|]. simpl in Hn. lia.
Qed.

Lemma dispatchLines_records now lines m :
  dispatchLines now lines m = handleAll now (records lines) m.
Proof. by apply (dispatchLines_records_le (length lines)). Qed.

Lemma processChunk_parseChunk now chunk m :
  processChunk now chunk m
  = handleAll now (parseChunk (options m) (buffer m) chunk).2
      (set_buffer (parseChunk (options m) (buffer m) chunk).1
         (count_chunk (Z.of_nat (String.length chunk)) m)).
Proof. unfold processChunk, parseChunk. apply dispatchLines_records. Qed.

(** ** What marking targets leaves alone *)

Lemma markCompleted_completedModels ids m :
  completedModels (markCompleted ids m)
  = list_to_set ids ∪ completedModels m.
Proof.
  revert m. induction ids as [|id ids IH]; intros m.
  - apply set_eq. intros x.
    rewrite elem_of_union, elem_of_list_to_set. split; [auto|].
    intros [H|H]; [by apply elem_of_nil in H | done].
  - unfold markCompleted in *. cbn [foldl]. rewrite IH. cbn [completedModels add_completed].
    apply set_eq. intros x.
    rewrite !elem_of_union, !elem_of_list_to_set, elem_of_cons,
      elem_of_singleton. tauto.
Qed.

Lemma markCompleted_session ids m :
  isConnected (markCompleted ids m) = isConnected m
  ∧ reader (markCompleted ids m) = reader m
  ∧ options (markCompleted ids m) = options m
  ∧ buffer (markCompleted ids m) = buffer m
  ∧ reconnectAttempts (markCompleted ids m) = reconnectAttempts m
  ∧ maxReconnectAttempts (markCompleted ids m) = maxReconnectAttempts m.
Proof.
  revert m. induction ids as [|id ids IH]; intros m; [done|].
  unfold markCompleted in *. cbn [foldl].
  destruct (IH (add_completed id m)) as (-> & -> & -> & -> & -> & ->).
  done.
Qed.

End Consumer.

Section TransportEnd.
Import Sse.

Implicit Types (m : Manager) (es : list Effect) (id : string).
Implicit Types (ids expected : list string) (ts : list Timer).

Lemma terminalCount_streamEndedError id ids :
  terminalCount id (streamEndedError <$> ids) = occurrences id ids.
Proof.
  induction ids as [|id' ids IH]; [done|].
  rewrite occurrences_cons, <- IH. unfold terminalCount. simpl.
  rewrite andb_true_r. by destruct (String.eqb id' id).
Qed.

Lemma terminalCount_connectionLostError id ids :
  terminalCount id (connectionLostError <$> ids) = occurrences id ids.
Proof.
  induction ids as [|id' ids IH]; [done|].
  rewrite occurrences_cons, <- IH. unfold terminalCount. simpl.
  rewrite andb_true_r. by destruct (String.eqb id' id).
Qed.

Lemma occurrences_incomplete id expected m :
  occurrences id (incomplete expected m)
  = if decide (id ∈ completedModels m) then 0%nat
    else occurrences id expected.
Proof.
  unfold incomplete. induction expected as [|id' ids IH].
  - by destruct (decide _).
  - rewrite filter_cons, occurrences_cons.
    destruct (decide (id' ∉ completedModels m)) as [Hid'|Hid'].
    + rewrite occurrences_cons, IH.
      destruct (decide (id ∈ completedModels m)) as [Hid|Hid]; [|done].
      destruct (String.eqb_spec id' id) as [->|]; [done|done].
    + rewrite IH.
      destruct (decide (id ∈ completedModels m)) as [Hid|Hid]; [done|].
      destruct (String.eqb_spec id' id) as [->|]; [|done].
      exfalso. apply Hid'. done.
Qed.

Lemma handleStreamEnd_terminalCount id expected m :
  terminalCount id (handleStreamEnd expected m).2
  = if decide (id ∈ completedModels m) then 0%nat
    else occurrences id expected.
Proof.
  unfold handleStreamEnd. cbn [snd].
  by rewrite terminalCount_streamEndedError, occurrences_incomplete.
Qed.

(** ** Timers during the sleep of [handleUnexpectedDisconnection] *)

(** Timers that are calm leave the manager as it is. *)
Lemma timersFire_calm ts m :
  timersCalm (heartbeatInterval (options m) * 2) (lastActivity m) ts →
  timersFire ts m = (m, []).
Proof.
  induction ts as [|t ts IH]; intros Hcalm; [done|].
  apply Forall_cons in Hcalm as [Ht Hcalm]. cbn [timersFire].
  destruct t as [now|]; [|done]. cbn [timerFires].
  assert ((if heartbeatTimer m then heartbeatCheck now m else (m, []))
          = (m, [])) as ->.
  { destruct (heartbeatTimer m); [|done]. unfold heartbeatCheck.
    by replace (_ <? _) with false by (symmetry; apply Z.ltb_ge; lia). }
  by rewrite IH.
Qed.

Lemma handleUnexpectedDisconnection_calm expected ts m :
  timersCalm (heartbeatInterval (options m) * 2) (lastActivity m) ts →
  handleUnexpectedDisconnection expected ts m
  = handleUnexpectedDisconnection expected [] m.
Proof.
  intros Hcalm. unfold handleUnexpectedDisconnection.
  destruct (_ <=? _); [done|].
  by rewrite (timersFire_calm ts (set_reconnectAttempts _ m)).
Qed.

Lemma handleUnexpectedDisconnection_terminalCount id expected ts m :
  timersCalm (heartbeatInterval (options m) * 2) (lastActivity m) ts →
  terminalCount id (handleUnexpectedDisconnection expected ts m).2
  = if decide (id ∈ completedModels m) then 0%nat
    else occurrences id expected.
Proof.
  intros Hcalm. rewrite handleUnexpectedDisconnection_calm by done.
  unfold handleUnexpectedDisconnection.
  destruct (_ <=? _); [apply handleStreamEnd_terminalCount|].
  cbn [timersFire snd app].
  match goal with
  | |- terminalCount id (?a :: ?b :: ?l) = _ =>
      change (a :: b :: l) with ([a] ++ [b] ++ l)
  end.
  rewrite !terminalCount_app.
  assert (∀ ev, type ev = "progress" → terminalCount id [OnEvent ev] = 0%nat)
    as Hnotice.
  { intros ev Hev. unfold terminalCount. simpl. rewrite Hev.
    by rewrite andb_false_r. }
  rewrite Hnotice by done.
  change (terminalCount id [Sleep ?d]) with 0%nat.
  cbn [Nat.add]. rewrite terminalCount_connectionLostError.
  apply (occurrences_incomplete id expected
           (set_reconnectAttempts (reconnectAttempts m + 1) m)).
Qed.

(** What [processStream] does when the transport is done. *)
Lemma processStream_done expected ts m :
  isConnected m = true → reader m = true →
  processStream expected [] (Done ts) m
  = (if (size (completedModels m) <? length expected)%nat
        && reconnectOnDrop (options m)
     then handleUnexpectedDisconnection expected ts m
     else handleStreamEnd expected m, Returned).
Proof.
  intros Hc Hr. unfold processStream. rewrite Hr.
  cbn [negb processStream_while]. rewrite Hc. cbn [negb].
  destruct (_ && _).
  - by destruct (handleUnexpectedDisconnection expected ts m).
  - by destruct (handleStreamEnd expected m).
Qed.

Lemma processStream_done_terminalCount id expected ts m :
  isConnected m = true → reader m = true →
  timersCalm (heartbeatInterval (options m) * 2) (lastActivity m) ts →
  terminalCount id (processStream expected [] (Done ts) m).1.2
  = if decide (id ∈ completedModels m) then 0%nat
    else occurrences id expected.
Proof.
  intros Hc Hr Hcalm. rewrite processStream_done by done. cbn [fst].
  destruct (_ && _).
  - by apply handleUnexpectedDisconnection_terminalCount.
  - apply handleStreamEnd_terminalCount.
Qed.

Lemma lastRead_cons (start now : Z) (chunk : string)
    (reads : list (Z * string)) :
  lastRead start ((now, chunk) :: reads) = lastRead now reads.
Proof.
  unfold lastRead. rewrite fmap_cons. cbn [fst].
  generalize (reads.*1). intros l. revert start now.
  induction l as [|t l IH]; intros start now; [done|].
  change (List.last (now :: t :: l) start) with (List.last (t :: l) start).
  by rewrite !IH.
Qed.

(** ** What reading leaves alone *)

Lemma markCompleted_timers (ids : list string) m :
  lastActivity (markCompleted ids m) = lastActivity m
  ∧ timeoutTimer (markCompleted ids m) = timeoutTimer m
  ∧ heartbeatTimer (markCompleted ids m) = heartbeatTimer m.
Proof.
  revert m. induction ids as [|id ids IH]; intros m; [done|].
  unfold markCompleted in *. cbn [foldl].
  destruct (IH (add_completed id m)) as (-> & -> & ->). done.
Qed.

Lemma processChunk_session now c m :
  isConnected (processChunk now c m).1 = isConnected m
  ∧ options (processChunk now c m).1 = options m
  ∧ lastActivity (processChunk now c m).1 = lastActivity m
  ∧ timeoutTimer (processChunk now c m).1 = timeoutTimer m
  ∧ heartbeatTimer (processChunk now c m).1 = heartbeatTimer m.
Proof.
  rewrite processChunk_parseChunk, handleAll_manager.
  set (m' := set_buffer _ _).
  destruct (markCompleted_session
              (terminals (parseChunk (options m) (buffer m) c).2) m')
    as (-> & _ & -> & _).
  destruct (markCompleted_timers
              (terminals (parseChunk (options m) (buffer m) c).2) m')
    as (-> & -> & ->).
  done.
Qed.

Lemma processStream_while_disconnected expected inputs ending m :
  isConnected m = false →
  processStream_while expected inputs ending m = (m, [], Returned).
Proof. intros H. destruct inputs; cbn [processStream_while]; by rewrite H. Qed.

(** Runs of the heartbeat callback that come at most
    [2 * heartbeatInterval] after the last chunk do nothing: when the
    timeout does not fire either, only the chunks count. *)
Lemma processStream_while_reads
    (expected : list string) (inputs : list Input) (ending : Ending)
    (m : Manager) :
  TimeoutTimer ∉ inputs →
  heartbeatsFresh (heartbeatInterval (options m) * 2) (lastActivity m)
    inputs →
  processStream_while expected inputs ending m
  = processStream_while expected (readsOnly (readsOf inputs)) ending m.
Proof.
  revert m. induction inputs as [|i inputs IH]; intros m Hno Hfresh; [done|].
  assert (TimeoutTimer ∉ inputs) as Hno'
    by (intros H; apply Hno; by right).
  destruct (isConnected m) eqn:Hc;
    [|by rewrite !processStream_while_disconnected].
  destruct i as [now value|now|].
  - change (readsOnly (readsOf (Read now value :: inputs)))
      with (Read now value :: readsOnly (readsOf inputs)).
    cbn [processStream_while]. rewrite Hc. cbn [negb].
    destruct (processChunk_session now value (set_lastActivity now m))
      as (_ & Ho & Hl & _).
    destruct (processChunk now value (set_lastActivity now m)) as [m1 e1].
    cbn [fst] in *. destruct (_ =? _)%nat; [done|].
    rewrite IH; [done|done|]. rewrite Ho, Hl. exact Hfresh.
  - change (readsOnly (readsOf (HeartbeatTimer now :: inputs)))
      with (readsOnly (readsOf inputs)).
    cbn [processStream_while]. rewrite Hc. cbn [negb].
    destruct Hfresh as [Hnow Hfresh].
    assert ((if heartbeatTimer m then heartbeatCheck now m else (m, []))
            = (m, [])) as ->.
    { destruct (heartbeatTimer m); [|done]. unfold heartbeatCheck.
      by replace (_ <? _) with false by (symmetry; apply Z.ltb_ge; lia). }
    rewrite Hc, IH by done.
    by destruct (processStream_while _ _ _ _) as [[m2 e2] r].
  - exfalso. apply Hno. by left.
Qed.

(** ** The whole transport *)

(** From any connected state: reading a transport whose terminal events
    name each target once at most, only expected targets and none that is
    completed already, delivers one terminal event to every expected
    target that is not completed, and none to any other, when the timers
    that fire during the sleep before the errors are calm. *)
Lemma processStream_readsOnly expected reads ts m id :
  isConnected m = true → reader m = true →
  NoDup expected →
  NoDup (streamTerminals (options m) (buffer m) reads) →
  (∀ id', id' ∈ streamTerminals (options m) (buffer m) reads →
          id' ∈ expected ∧ id' ∉ completedModels m) →
  (∀ id', id' ∈ completedModels m → id' ∈ expected) →
  timersCalm (heartbeatInterval (options m) * 2)
    (lastRead (lastActivity m) reads) ts →
  (processStream expected (readsOnly reads) (Done ts) m).2 = Returned
  ∧ terminalCount id
      (processStream expected (readsOnly reads) (Done ts) m).1.2
    = if decide (id ∈ expected ∧ id ∉ completedModels m) then 1%nat
      else 0%nat.
Proof.
  intros Hc Hr Hnd.
  assert (∀ m', reader m' = true →
            processStream expected (readsOnly reads) (Done ts) m'
            = processStream_while expected (readsOnly reads) (Done ts) m')
    as Hwhile by (intros m' Hr'; unfold processStream; by rewrite Hr').
  rewrite (Hwhile m Hr). clear Hwhile.
  assert (∀ m', reader m' = true →
            processStream expected [] (Done ts) m'
            = processStream_while expected [] (Done ts) m')
    as Hwhile by (intros m' Hr'; unfold processStream; by rewrite Hr').
  revert m Hc Hr.
  induction reads as [|[now chunk] reads IH];
    intros m Hc Hr Hts Hin Hsub Hcalm.
  - change (readsOnly []) with (@nil Input). rewrite <- Hwhile by done.
    split; [by rewrite processStream_done|].
    rewrite processStream_done_terminalCount by done.
    destruct (decide (id ∈ completedModels m)) as [Hid|Hid].
    + rewrite decide_False; [done|]. intros [_ H]. done.
    + destruct (decide (id ∈ expected)) as [He|He].
      * rewrite decide_True by done. by apply occurrences_NoDup.
      * rewrite decide_False by (intros [H _]; done).
        by apply occurrences_not_in.
  - change (readsOnly ((now, chunk) :: reads))
      with (Read now chunk :: readsOnly reads).
    rewrite lastRead_cons in Hcalm.
    cbn [processStream_while]. rewrite Hc. cbn [negb].
    rewrite processChunk_parseChunk.
    cbn [streamTerminals] in Hts, Hin.
    cbn [options buffer set_lastActivity].
    destruct (parseChunk (options m) (buffer m) chunk) as [buf' recs]
      eqn:Hparse.
    cbn [fst snd].
    set (m0 := set_buffer buf'
                 (count_chunk (Z.of_nat (String.length chunk))
                    (set_lastActivity now m))).
    pose proof (handleAll_manager now recs m0) as Hm1.
    pose proof (handleAll_terminalCount now recs m0 id) as He1.
    destruct (handleAll now recs m0) as [m1 e1]. cbn [fst snd] in *.
    destruct (markCompleted_session (terminals recs) m0)
      as (Hc1 & Hr1 & Ho1 & Hb1 & _ & _).
    pose proof (proj1 (markCompleted_timers (terminals recs) m0)) as Hl1.
    pose proof (markCompleted_completedModels (terminals recs) m0) as Hcm1.
    rewrite <- Hm1 in Hc1, Hr1, Ho1, Hb1, Hl1, Hcm1.
    cbn [isConnected reader options buffer lastActivity completedModels m0
         set_buffer count_chunk set_lastActivity]
      in Hc1, Hr1, Ho1, Hb1, Hl1, Hcm1.
    apply NoDup_app in Hts as (Hts1 & Hdisj & Hts2).
    assert (occurrences id (terminals recs)
            = if decide (id ∈ terminals recs) then 1%nat else 0%nat) as Hocc.
    { destruct (decide (id ∈ terminals recs)).
      - by apply occurrences_NoDup.
      - by apply occurrences_not_in. }
    assert (∀ id', id' ∈ completedModels m1 → id' ∈ expected) as Hsub1.
    { intros id'. rewrite Hcm1, elem_of_union, elem_of_list_to_set.
      intros [H|H]; [|by apply Hsub]. apply Hin, elem_of_app. by left. }
    destruct (size (completedModels m1) =? length expected)%nat eqn:Hsize.
    + (* every expected target is completed: [disconnect()] *)
      apply Nat.eqb_eq in Hsize.
      assert (completedModels m1 = list_to_set expected) as Hall.
      { apply set_subseteq_size_eq.
        - intros id' H. apply elem_of_list_to_set. by apply Hsub1.
        - rewrite size_list_to_set by done. lia. }
      destruct (disconnect m1) as [m2 e2] eqn:Hd. cbn [fst snd].
      split; [done|].
      injection Hd as _ <-.
      rewrite terminalCount_app, He1, Hocc.
      change (terminalCount id [OnConnectionChange StDisconnected])
        with 0%nat.
      rewrite Nat.add_0_r.
      destruct (decide (id ∈ terminals recs)) as [Ht|Ht].
      * rewrite decide_True; [done|]. apply Hin, elem_of_app. by left.
      * destruct (decide (id ∈ expected ∧ id ∉ completedModels m))
          as [[He Hn]|Hn]; [|done].
        exfalso.
        assert (id ∈ completedModels m1) as He'
          by (rewrite Hall; by apply elem_of_list_to_set).
        rewrite Hcm1 in He'.
        apply elem_of_union in He' as [He'|He']; [|done].
        by apply elem_of_list_to_set in He'.
    + rewrite Hc in Hc1. rewrite Hr in Hr1.
      specialize (IH m1 Hc1 Hr1).
      rewrite Ho1, Hb1, Hl1 in IH.
      destruct IH as [IHr IHc]; [done| |done|done|].
      { intros id' Hid'. split.
        - apply Hin, elem_of_app. by right.
        - rewrite Hcm1, elem_of_union, elem_of_list_to_set.
          intros [H|H].
          + by apply (Hdisj id').
          + assert (id' ∈ terminals recs ++
                      streamTerminals (options m) buf' reads) as H'
              by (apply elem_of_app; by right).
            by apply Hin in H' as [_ H']. }
      destruct (processStream_while expected (readsOnly reads) (Done ts) m1)
        as [[m2 e2] r]. cbn [fst snd] in *.
      split; [done|].
      rewrite terminalCount_app, He1, Hocc, IHc.
      destruct (decide (id ∈ terminals recs)) as [Ht|Ht].
      * assert (id ∈ expected ∧ id ∉ completedModels m) as Hid
          by (apply Hin, elem_of_app; by left).
        rewrite (decide_True (P := id ∈ expected ∧ id ∉ completedModels m))
          by done.
        rewrite decide_False; [done|]. intros [_ Hn]. apply Hn.
        rewrite Hcm1, elem_of_union, elem_of_list_to_set. by left.
      * cbn [Nat.add].
        destruct (decide (id ∈ expected ∧ id ∉ completedModels m))
          as [[He Hn]|Hn].
        -- rewrite decide_True; [done|]. split; [done|].
           rewrite Hcm1, elem_of_union, elem_of_list_to_set. tauto.
        -- rewrite decide_False; [done|]. intros [He Hn1]. apply Hn.
           split; [done|]. intros Hm. apply Hn1.
           rewrite Hcm1, elem_of_union. by right.
Qed.

(** ** No request leaves [processStream] *)

Lemma handleAll_no_request now (recs : list (string * string)) m :
  List.filter isRequest (handleAll now recs m).2 = [].
Proof.
  revert m. induction recs as [|[event data] recs IH]; intros m; [done|].
  cbn [handleAll].
  assert (List.filter isRequest (handleSSEEvent now event data m).2 = [])
    as H1.
  { unfold handleSSEEvent. destruct (String.eqb event "heartbeat"); [done|].
    destruct (_ <? _)%nat; [done|]. by destruct (isTerminal _). }
  destruct (handleSSEEvent now event data m) as [m1 e1].
  specialize (IH m1). destruct (handleAll now recs m1) as [m2 e2].
  cbn [snd] in *. by rewrite List.filter_app, H1, IH.
Qed.

Lemma timersFire_no_request ts m :
  List.filter isRequest (timersFire ts m).2 = [].
Proof.
  revert m. induction ts as [|t ts IH]; intros m; [done|].
  cbn [timersFire].
  assert (List.filter isRequest (timerFires t m).2 = []) as H1.
  { destruct t as [now|]; cbn [timerFires].
    - destruct (heartbeatTimer m); [|done]. unfold heartbeatCheck.
      by destruct (_ <? _).
    - destruct (timeoutTimer m); [|done]. unfold timeoutCheck.
      by destruct (isConnected m). }
  destruct (timerFires t m) as [m1 e1].
  specialize (IH m1). destruct (timersFire ts m1) as [m2 e2].
  cbn [snd] in *. by rewrite List.filter_app, H1, IH.
Qed.

Lemma errors_no_request (f : string → Effect) ids :
  (∀ i, isRequest (f i) = false) → List.filter isRequest (f <$> ids) = [].
Proof.
  intros Hf. induction ids as [|i ids IH]; [done|].
  rewrite fmap_cons. cbn [List.filter]. by rewrite Hf.
Qed.

Lemma handleUnexpectedDisconnection_no_request expected ts m :
  List.filter isRequest (handleUnexpectedDisconnection expected ts m).2 = [].
Proof.
  unfold handleUnexpectedDisconnection, handleStreamEnd.
  destruct (_ <=? _); cbn [snd]; [by apply errors_no_request|].
  pose proof (timersFire_no_request ts
                (set_reconnectAttempts (reconnectAttempts m + 1) m)) as Ht.
  destruct (timersFire ts _) as [m2 woken]. cbn [snd] in *.
  cbn [List.filter isRequest]. rewrite List.filter_app, Ht.
  by apply errors_no_request.
Qed.

(** Whatever it reads and however the transport ends, [processStream]
    sends no request. *)
Lemma processStream_no_request expected (inputs : list Input)
    (ending : Ending) m :
  List.filter isRequest (processStream expected inputs ending m).1.2 = [].
Proof.
  unfold processStream. destruct (reader m); [|done]. cbn [negb].
  revert m. induction inputs as [|i inputs IH]; intros m.
  - cbn [processStream_while]. destruct (isConnected m); [|done].
    cbn [negb]. destruct ending as [ts|name message ts].
    + destruct (_ && _).
      * pose proof (handleUnexpectedDisconnection_no_request expected ts m).
        by destruct (handleUnexpectedDisconnection expected ts m).
      * unfold handleStreamEnd. by apply errors_no_request.
    + destruct (String.eqb name "AbortError"); [done|].
      destruct (_ && _); [|done].
      pose proof (handleUnexpectedDisconnection_no_request expected ts m).
      by destruct (handleUnexpectedDisconnection expected ts m).
  - cbn [processStream_while]. destruct (isConnected m); [|done].
    cbn [negb]. destruct i as [now value|now|].
    + pose proof (handleAll_no_request now
                    (parseChunk (options (set_lastActivity now m))
                       (buffer (set_lastActivity now m)) value).2
                    (set_buffer
                       (parseChunk (options (set_lastActivity now m))
                          (buffer (set_lastActivity now m)) value).1
                       (count_chunk (Z.of_nat (String.length value))
                          (set_lastActivity now m)))) as H1.
      rewrite <- processChunk_parseChunk in H1.
      destruct (processChunk now value (set_lastActivity now m)) as [m1 e1].
      cbn [snd] in H1. destruct (_ =? _)%nat.
      * cbn [disconnect fst snd]. by rewrite List.filter_app, H1.
      * specialize (IH m1).
        destruct (processStream_while expected inputs ending m1)
          as [[m2 e2] r]. cbn [fst snd] in *.
        by rewrite List.filter_app, H1, IH.
    + assert (List.filter isRequest
                (if heartbeatTimer m then heartbeatCheck now m
                 else (m, [])).2 = []) as H1.
      { destruct (heartbeatTimer m); [|done]. unfold heartbeatCheck.
        by destruct (_ <? _). }
      destruct (if heartbeatTimer m then heartbeatCheck now m else (m, []))
        as [m1 e1]. cbn [snd] in H1. destruct (isConnected m1); [|done].
      specialize (IH m1).
      destruct (processStream_while expected inputs ending m1)
        as [[m2 e2] r]. cbn [fst snd] in *.
      by rewrite List.filter_app, H1, IH.
    + assert (List.filter isRequest
                (if timeoutTimer m then timeoutCheck m else (m, [])).2 = [])
        as H1.
      { destruct (timeoutTimer m); [|done]. unfold timeoutCheck.
        by destruct (isConnected m). }
      destruct (if timeoutTimer m then timeoutCheck m else (m, []))
        as [m1 e1]. cbn [snd] in H1. destruct (isConnected m1); [|done].
      specialize (IH m1).
      destruct (processStream_while expected inputs ending m1)
        as [[m2 e2] r]. cbn [fst snd] in *.
      by rewrite List.filter_app, H1, IH.
Qed.

End TransportEnd.

Section ConsumerClaims.
Import Sse.

Implicit Types (m : Manager) (es : list Effect) (id : string).

(** C1, as the code has it.  A manager connects and reads a transport to
    its end; no timer disconnects it meanwhile (the timeout does not fire
    and every run of the heartbeat callback comes at most
    [2 * heartbeatInterval] after the last chunk), nor while it sleeps in
    [handleUnexpectedDisconnection].  If the expected targets are distinct
    and the terminal events the transport carries name only expected
    targets, each once at most, then [processStream] returns and the
    observer has been given exactly one terminal event for each expected
    target (the one forwarded, or else one made-up error) and none for any
    other.  As long as no timer disconnects the manager during that sleep,
    an error is not made up for a target that is in [completedModels]. *)
Theorem one_terminal_event_per_target
    (now : Z) (m0 : Manager) (expectedModels : list string)
    (inputs : list Input) (asleep : list Timer) :
  NoDup expectedModels →
  NoDup (streamTerminals (options m0) "" (readsOf inputs)) →
  (∀ id, id ∈ streamTerminals (options m0) "" (readsOf inputs) →
         id ∈ expectedModels) →
  TimeoutTimer ∉ inputs →
  heartbeatsFresh (heartbeatInterval (options m0) * 2) now inputs →
  timersCalm (heartbeatInterval (options m0) * 2)
    (lastRead now (readsOf inputs)) asleep →
  let m := (connectWithMessages_open now expectedModels m0).1 in
  let r := processStream expectedModels inputs (Done asleep) m in
  r.2 = Returned
  ∧ (∀ id, id ∈ expectedModels → terminalCount id r.1.2 = 1%nat)
  ∧ (∀ id, id ∉ expectedModels → terminalCount id r.1.2 = 0%nat)
  ∧ (∀ m' id ts,
       timersCalm (heartbeatInterval (options m') * 2) (lastActivity m') ts →
       id ∈ completedModels m' →
       terminalCount id (handleStreamEnd expectedModels m').2 = 0%nat
       ∧ terminalCount id
           (handleUnexpectedDisconnection expectedModels ts m').2 = 0%nat).
Proof.
  intros Hnd Hts Hin Hno Hfresh Hcalm m r.
  assert (∀ id' : string,
            id' ∈ streamTerminals (options m) (buffer m) (readsOf inputs) →
            id' ∈ expectedModels ∧ id' ∉ completedModels m) as Hin'.
  { intros id' Hid'. split; [by apply Hin|]. apply not_elem_of_empty. }
  assert (∀ id' : string, id' ∈ completedModels m → id' ∈ expectedModels)
    as Hsub.
  { intros id' Hid'. by apply elem_of_empty in Hid'. }
  assert (r = processStream expectedModels (readsOnly (readsOf inputs))
                (Done asleep) m) as Hr.
  { unfold r, processStream. change (reader m) with true. cbn [negb].
    by apply processStream_while_reads. }
  pose proof (λ id, processStream_readsOnly expectedModels (readsOf inputs)
                      asleep m id eq_refl eq_refl Hnd Hts Hin' Hsub Hcalm)
    as H.
  rewrite <- Hr in H.
  split; [apply (H ""%string)|]. split; [|split].
  - intros id Hid. destruct (H id) as [_ ->].
    rewrite decide_True; [done|]. split; [done|]. apply not_elem_of_empty.
  - intros id Hid. destruct (H id) as [_ ->].
    rewrite decide_False; [done|]. intros [He _]. done.
  - intros m' id ts Hts' Hid.
    rewrite handleStreamEnd_terminalCount,
      handleUnexpectedDisconnection_terminalCount by done.
    by rewrite decide_True.
Qed.

Lemma one_terminal_event_per_target_witness :
  let r := processStream fourTargets
             (readsOnly twoOfFour ++ [HeartbeatTimer 10000])
             (Done [HeartbeatFires 20000]) connectedManager in
  r.2 = Returned
  ∧ terminalCount "A" r.1.2 = 1%nat
  ∧ terminalCount "C" r.1.2 = 1%nat
  ∧ terminalCount "E" r.1.2 = 0%nat.
Proof.
  assert (NoDup fourTargets) as Hnd
    by (apply (bool_decide_unpack _); vm_compute; reflexivity).
  assert (NoDup (streamTerminals (options (newManager defaultOptions)) ""
                   (readsOf (readsOnly twoOfFour
                               ++ [HeartbeatTimer 10000])))) as Hts
    by (apply (bool_decide_unpack _); vm_compute; reflexivity).
  assert (∀ id, id ∈ streamTerminals (options (newManager defaultOptions)) ""
                       (readsOf (readsOnly twoOfFour
                                   ++ [HeartbeatTimer 10000]))
                → id ∈ fourTargets) as Hin.
  { intros id. vm_compute streamTerminals. unfold fourTargets.
    rewrite !elem_of_cons. intros [->|[->|H]]; [tauto|tauto|].
    by apply elem_of_nil in H. }
  assert (TimeoutTimer ∉ readsOnly twoOfFour ++ [HeartbeatTimer 10000])
    as Hno.
  { intros [H|H]%elem_of_app.
    - apply list_elem_of_fmap in H as (read & H & _). discriminate H.
    - apply list_elem_of_singleton in H. discriminate H. }
  assert (heartbeatsFresh
            (heartbeatInterval (options (newManager defaultOptions)) * 2) 0
            (readsOnly twoOfFour ++ [HeartbeatTimer 10000])) as Hfresh.
  { vm_compute. split; [discriminate|exact I]. }
  assert (timersCalm
            (heartbeatInterval (options (newManager defaultOptions)) * 2)
            (lastRead 0 (readsOf (readsOnly twoOfFour
                                    ++ [HeartbeatTimer 10000])))
            [HeartbeatFires 20000]) as Hcalm.
  { repeat constructor. vm_compute. discriminate. }
  destruct (one_terminal_event_per_target 0 (newManager defaultOptions)
              fourTargets (readsOnly twoOfFour ++ [HeartbeatTimer 10000])
              [HeartbeatFires 20000] Hnd Hts Hin Hno Hfresh Hcalm)
    as (Hr & H1 & H0 & _).
  split; [exact Hr|]. split; [|split].
  - apply H1. unfold fourTargets. rewrite !elem_of_cons. tauto.
  - apply H1. unfold fourTargets. rewrite !elem_of_cons. tauto.
  - apply H0. unfold fourTargets. rewrite !elem_of_cons, elem_of_nil.
    intros [H|[H|[H|[H|H]]]]; try discriminate H; done.
Defined.

(** C1 as the document words it, refuted.  [handleSSEEvent] forwards a
    terminal event whether or not its target is in [completedModels]: a
    transport that carries the end of [A] twice gives the observer two
    terminal events for [A]. *)
Lemma second_terminal_event_is_forwarded :
  ¬ noSecondTerminal
  ∧ terminalCount "A"
      (processStream ["A"; "B"] (readsOnly endTwice) (Done [])
         connectedManager).1.2 = 2%nat.
Proof.
  split; [|vm_compute; reflexivity].
  intros H.
  specialize (H 200 "A_end" "{}" (add_completed "A" connectedManager) "A").
  assert (terminalCount "A"
            (handleSSEEvent 200 "A_end" "{}"
               (add_completed "A" connectedManager)).2 = 1%nat) as H1
    by (vm_compute; reflexivity).
  rewrite H in H1; [discriminate|].
  cbn [completedModels add_completed]. apply elem_of_union. left.
  by apply elem_of_singleton.
Qed.

(** The timeout armed by [connectWithMessages] disconnects a manager that
    is still reading: the targets left get no terminal event. *)
Example timeout_disconnect_is_silent :
  let r := processStream fourTargets
             [Read 100 (record "A_end" "{}"); TimeoutTimer] (Done [])
             connectedManager in
  r.2 = Returned
  ∧ terminalCount "A" r.1.2 = 1%nat
  ∧ terminalCount "B" r.1.2 = 0%nat
  ∧ last r.1.2 = Some (OnConnectionChange StDisconnected).
Proof. vm_compute. repeat split; reflexivity. Qed.

(** ** The end of the transport *)

(** C2 (the code departs from the claim).  Two of four targets have ended
    when the transport is done: the manager announces the first of five
    reconnection attempts, sleeps one second, and then gives the errors to
    [C] and [D] at once, without having sent a request; the counter of
    attempts is 1 of 5.  Whatever it reads and however the transport ends,
    [processStream] sends no request at all. *)
Theorem errors_come_with_the_first_attempt :
  ¬ errorsOnlyAfterBudget
  ∧ (processStream fourTargets (readsOnly twoOfFour) (Done [])
       connectedManager).1.2
    = [ OnEvent {| modelId := "A"; type := "end"; data := Parsed "{}" |};
        OnEvent {| modelId := "B"; type := "chunk"; data := Parsed "{}" |};
        OnEvent {| modelId := "B"; type := "end"; data := Parsed "{}" |};
        OnEvent {| modelId := ""; type := "progress";
                   data := Reconnecting
                             "Connection lost, reconnecting... (1/5)" |};
        Sleep 1000;
        connectionLostError "C";
        connectionLostError "D" ]
  ∧ reconnectAttempts
      (processStream fourTargets (readsOnly twoOfFour) (Done [])
         connectedManager).1.1 = 1
  ∧ maxReconnectAttempts connectedManager = 5
  ∧ (∀ (expectedModels : list string) (inputs : list Input)
       (ending : Ending) m,
       List.filter isRequest
         (processStream expectedModels inputs ending m).1.2 = []).
Proof.
  split; [|split; [|split; [|split]]];
    [|vm_compute; reflexivity|vm_compute; reflexivity|vm_compute; reflexivity
     |apply processStream_no_request].
  intros H.
  specialize (H fourTargets [] (markCompleted ["A"; "B"] connectedManager)).
  assert (maxReconnectAttempts (markCompleted ["A"; "B"] connectedManager)
          ≤ reconnectAttempts
              (handleUnexpectedDisconnection fourTargets []
                 (markCompleted ["A"; "B"] connectedManager)).1) as Hle.
  { apply (H eq_refl) with (id := "C").
    - vm_compute. lia.
    - vm_compute. lia. }
  vm_compute in Hle. by apply Hle.
Qed.

End ConsumerClaims.

(* ===================================================================== *)
(** * Strings: lines, separators and white space *)
(* ===================================================================== *)

Section JsFacts.
Import Js.

Implicit Types (s a b : string) (sep c : ascii).

Lemma string_app_cons c a b : String c a +:+ b = String c (a +:+ b).
Proof. done. Qed.

Lemma string_app_nil_l s : "" +:+ s = s.
Proof. done. Qed.

Lemma string_app_nil_r s : s +:+ "" = s.
Proof. induction s as [|c s IH]; [done|]. by rewrite string_app_cons, IH. Qed.

Lemma string_app_assoc a b s : (a +:+ b) +:+ s = a +:+ (b +:+ s).
Proof. induction a as [|c a IH]; [done|]. by rewrite !string_app_cons, IH. Qed.

Lemma string_length_app a b :
  String.length (a +:+ b) = (String.length a + String.length b)%nat.
Proof.
  induction a as [|c a IH]; [done|].
  rewrite string_app_cons. cbn [String.length]. by rewrite IH.
Qed.

Lemma split_nonempty sep s : split sep s ≠ [].
Proof.
  destruct s as [|c s]; simpl; [done|].
  destruct (Ascii.eqb c sep); [done|]. by destruct (split sep s).
Qed.

Lemma split_lacks sep s : lacks sep s = true → split sep s = [s].
Proof.
  induction s as [|c s IH]; simpl; [done|].
  intros [Hc Hs]%andb_prop. apply negb_true_iff in Hc. rewrite Hc.
  by rewrite IH.
Qed.

Lemma split_app sep a b :
  split sep (a +:+ b)
  = removelast (split sep a)
    ++ (List.last (split sep a) "" +:+ hd "" (split sep b))
       :: tl (split sep b).
Proof.
  induction a as [|c a IH].
  - rewrite string_app_nil_l. pose proof (split_nonempty sep b).
    by destruct (split sep b).
  - rewrite string_app_cons. cbn [split]. destruct (Ascii.eqb c sep).
    + rewrite IH. pose proof (split_nonempty sep a).
      destruct (split sep a) as [|h t] eqn:E; [done|]. done.
    + rewrite IH. pose proof (split_nonempty sep a).
      destruct (split sep a) as [|h [|h2 t]] eqn:E; [done| |]; done.
Qed.

Lemma split_app_sep sep a b :
  split sep (a +:+ String sep b) = split sep a ++ split sep b.
Proof.
  rewrite split_app. cbn [split]. rewrite Ascii.eqb_refl. cbn [hd tl].
  rewrite string_app_nil_r. pose proof (split_nonempty sep a) as Hne.
  rewrite (app_removelast_last "" Hne) at 3.
  by rewrite <- List.app_assoc.
Qed.

Lemma join_cons_cons sepS p q rest :
  join sepS (p :: q :: rest) = p +:+ sepS +:+ join sepS (q :: rest).
Proof. done. Qed.

Lemma join_split sep s : join (String sep "") (split sep s) = s.
Proof.
  induction s as [|c s IH]; [done|]. cbn [split].
  pose proof (split_nonempty sep s).
  destruct (Ascii.eqb_spec c sep) as [->|Hne].
  - destruct (split sep s) as [|h t] eqn:E; [done|].
    by rewrite join_cons_cons, IH.
  - destruct (split sep s) as [|h [|h2 t]] eqn:E; [done| |].
    + cbn [join] in *. by rewrite IH.
    + rewrite join_cons_cons, string_app_cons.
      rewrite join_cons_cons in IH. by rewrite IH.
Qed.

Lemma last_split_lacks sep s : lacks sep (List.last (split sep s) "") = true.
Proof.
  induction s as [|c s IH]; [done|]. cbn [split].
  pose proof (split_nonempty sep s).
  destruct (Ascii.eqb c sep) eqn:Hc.
  - by destruct (split sep s) as [|h t] eqn:E.
  - destruct (split sep s) as [|h [|h2 t]] eqn:E; [done| |].
    + cbn [List.last lacks] in *. by rewrite Hc, IH.
    + done.
Qed.

Lemma lacks_app c a b :
  lacks c (a +:+ b) = lacks c a && lacks c b.
Proof.
  induction a as [|c' a IH]; [done|].
  rewrite string_app_cons. cbn [lacks]. by rewrite IH, andb_assoc.
Qed.

Lemma rev_app_app a b acc :
  String.rev_app (a +:+ b) acc = String.rev_app b (String.rev_app a acc).
Proof.
  revert acc. induction a as [|c a IH]; intros acc; [done|].
  rewrite string_app_cons. cbn [String.rev_app]. apply IH.
Qed.

Lemma rev_app_rev_app a b acc :
  String.rev_app (String.rev_app a b) acc = String.rev_app b (a +:+ acc).
Proof.
  revert b acc. induction a as [|c a IH]; intros b acc; [done|].
  cbn [String.rev_app]. rewrite IH. by rewrite string_app_cons.
Qed.

Lemma rev_involutive s : String.rev (String.rev s) = s.
Proof.
  unfold String.rev. rewrite rev_app_rev_app. cbn [String.rev_app].
  apply string_app_nil_r.
Qed.

Lemma rev_app_acc a acc : String.rev_app a acc = String.rev a +:+ acc.
Proof.
  unfold String.rev. revert acc.
  induction a as [|c a IH]; intros acc; [done|]. cbn [String.rev_app].
  rewrite IH, (IH (String c "")). by rewrite string_app_assoc.
Qed.

Lemma rev_append a b : String.rev (a +:+ b) = String.rev b +:+ String.rev a.
Proof. unfold String.rev at 1. rewrite rev_app_app. apply rev_app_acc. Qed.

Lemma endsClean_rev s :
  endsClean s = true →
  ∃ c r, String.rev s = String c r ∧ isSpace c = false.
Proof.
  unfold endsClean. destruct (String.rev s) as [|c r]; [done|].
  intros H%negb_true_iff. eauto.
Qed.

(** [trim] leaves a line alone that starts and ends with characters that are
    not white space. *)
Lemma trim_clean c a :
  isSpace c = false → endsClean a = true →
  trim (String c a) = String c a.
Proof.
  intros Hc (c' & r & Hr & Hc')%endsClean_rev.
  unfold trim. cbn [trimStart]. rewrite Hc.
  change (String c a) with (String c "" +:+ a).
  rewrite rev_append, Hr, string_app_cons. cbn [trimStart]. rewrite Hc'.
  rewrite <- string_app_cons, <- Hr, <- rev_append. apply rev_involutive.
Qed.

Lemma prefix_app p s : String.prefix p (p +:+ s) = true.
Proof.
  induction p as [|c p IH]; [by destruct s|].
  rewrite string_app_cons. cbn [String.prefix].
  destruct (ascii_dec c c); [done|congruence].
Qed.

Lemma slice_app p s : slice (String.length p) (p +:+ s) = s.
Proof. induction p as [|c p IH]; [by destruct s|done]. Qed.

End JsFacts.

(* ===================================================================== *)
(** * The records of the multiplexed stream, as the manager reads them *)
(* ===================================================================== *)

Section Wire.
Import Js Sse.

Implicit Types (m : Manager) (s e d : string).

Lemma eqb_heartbeat modelName eventType :
  String.eqb (modelName +:+ "_" +:+ eventType) "heartbeat" = false.
Proof.
  apply String.eqb_neq. intros H.
  assert (lacks underscore (modelName +:+ "_" +:+ eventType) = true) as Hl
    by (by rewrite H).
  rewrite lacks_app in Hl. apply andb_prop in Hl as [_ Hl]. done.
Qed.

(** X1.  The server names the events of a model [modelName_progress],
    [modelName_chunk], [modelName_end] and [modelName_error].  Whatever the
    model name is (it may hold underscores), for a type without an
    underscore [handleSSEEvent] hands to [onEvent] exactly one event, with
    that model as [modelId] and that type, and it adds the model to
    [completedModels] exactly when the type is [end] or [error]. *)
Theorem event_name_round_trip
    (now : Z) (modelName eventType data : string) (m : Manager) :
  lacks underscore eventType = true →
  handleSSEEvent now (modelName +:+ "_" +:+ eventType) data m
  = (if isTerminal eventType then add_completed modelName m else m,
     [OnEvent {| modelId := modelName; type := eventType;
                 data := Parsed data |}]).
Proof.
  intros Ht. unfold handleSSEEvent. rewrite eqb_heartbeat.
  change (modelName +:+ "_" +:+ eventType)
    with (modelName +:+ String underscore eventType).
  rewrite split_app_sep, (split_lacks _ eventType Ht).
  pose proof (split_nonempty underscore modelName) as Hne.
  rewrite removelast_last, last_last, join_split.
  rewrite List.length_app. cbn [length].
  destruct (split underscore modelName) as [|h t]; [done|].
  replace (length (h :: t) + 1 <? 2)%nat with false
    by (symmetry; apply Nat.ltb_ge; cbn [length]; lia).
  by destruct (isTerminal eventType).
Qed.

Lemma event_name_round_trip_witness :
  handleSSEEvent 7 ("meta_llama/llama_3" +:+ "_" +:+ "end") "{}"
    (newManager defaultOptions)
  = (add_completed "meta_llama/llama_3" (newManager defaultOptions),
     [OnEvent {| modelId := "meta_llama/llama_3"; type := "end";
                 data := Parsed "{}" |}]).
Proof.
  apply (event_name_round_trip 7 "meta_llama/llama_3" "end" "{}"
           (newManager defaultOptions)).
  reflexivity.
Defined.

(** ** Lines *)

Lemma lastN_short {A} (n : nat) (l : list A) :
  (length l ≤ n)%nat → lastN n l = l.
Proof.
  intros Hl. unfold lastN.
  by replace (length l - n)%nat with 0%nat by lia.
Qed.

(** The guard of [processChunk] against a large buffer changes nothing
    when the buffer is within the limit or has at most 50 lines. *)
Lemma truncation_idle (o : SSEConnectionOptions) (buf : string) :
  Z.of_nat (String.length buf) ≤ bufferSizeOrDefault o * 2
  ∨ (length (split nl buf) ≤ 50)%nat →
  (if bufferSizeOrDefault o * 2 <? Z.of_nat (String.length buf)
   then join nlS (lastN 50 (split nl buf)) else buf) = buf.
Proof.
  intros H. destruct (Z.ltb_spec (bufferSizeOrDefault o * 2)
                        (Z.of_nat (String.length buf))) as [Hlt|]; [|done].
  destruct H as [H|H]; [lia|].
  rewrite lastN_short by done. apply join_split.
Qed.

Lemma dispatchLines_one now (l : string) m : dispatchLines now [l] m = (m, []).
Proof. cbn [dispatchLines]. by destruct (startsWith _ _). Qed.

Lemma dispatchLines_blank now (rest : list string) m :
  dispatchLines now ("" :: rest) m = dispatchLines now rest m.
Proof. done. Qed.

Lemma dispatchLines_one_blank now (l : string) m :
  dispatchLines now [l; ""] m = (m, []).
Proof.
  cbn [dispatchLines]. destruct (startsWith "event: " (trim l)); [|done].
  done.
Qed.

Lemma handleSSEEvent_effects now event data m m' :
  (handleSSEEvent now event data m).2 = (handleSSEEvent now event data m').2.
Proof.
  unfold handleSSEEvent. destruct (String.eqb event "heartbeat"); [done|].
  destruct (_ <? _)%nat; [done|]. by destruct (isTerminal _).
Qed.

Lemma handleAll_effects now (recs : list (string * string)) m m' :
  (handleAll now recs m).2 = (handleAll now recs m').2.
Proof.
  revert m m'. induction recs as [|[event data] recs IH]; intros m m'; [done|].
  cbn [handleAll].
  pose proof (handleSSEEvent_effects now event data m m') as He.
  destruct (handleSSEEvent now event data m) as [m1 e1].
  destruct (handleSSEEvent now event data m') as [m1' e1'].
  simpl in He. subst e1'. specialize (IH m1 m1').
  destruct (handleAll now recs m1) as [m2 e2].
  destruct (handleAll now recs m1') as [m2' e2'].
  simpl in *. by subst.
Qed.

(** ** Whole records *)

Lemma char_app (c : ascii) (x : string) : String c "" +:+ x = String c x.
Proof. done. Qed.

Lemma endsClean_app p e : endsClean e = true → endsClean (p +:+ e) = true.
Proof.
  intros (c & r & Hr & Hc)%endsClean_rev. unfold endsClean.
  rewrite rev_append, Hr, string_app_cons. by rewrite Hc.
Qed.

Lemma split_record e d rest :
  lacks nl e = true → lacks nl d = true →
  split nl (record e d +:+ rest) = recordLines (e, d) ++ split nl rest.
Proof.
  intros He Hd. unfold record, recordLines, nlS. cbn [fst snd].
  rewrite <- (string_app_assoc "event: " e).
  rewrite !string_app_assoc, <- (string_app_assoc "event: " e).
  rewrite !char_app.
  rewrite split_app_sep, split_lacks
    by (rewrite lacks_app, He; done).
  rewrite <- (string_app_assoc "data: " d).
  rewrite split_app_sep, split_lacks by (rewrite lacks_app, Hd; done).
  cbn [split]. rewrite Ascii.eqb_refl. done.
Qed.

Lemma split_wire rs :
  forallb wellFormed rs = true →
  split nl (wire rs) = flat_map recordLines rs ++ [""].
Proof.
  induction rs as [|[e d] rs IH]; [done|]. cbn [forallb flat_map].
  change (wire ((e, d) :: rs)) with (record e d +:+ wire rs).
  intros [Hr Hrs]%andb_prop. unfold wellFormed in Hr. cbn [fst snd] in *.
  apply andb_prop in Hr as [[He _]%andb_prop Hd].
  rewrite split_record by done. rewrite IH by done.
  by rewrite <- List.app_assoc.
Qed.

Lemma records_recordLines e d (rest : list string) :
  endsClean e = true →
  records (recordLines (e, d) ++ rest) = (e, d) :: records rest.
Proof.
  intros He. unfold recordLines. cbn [fst snd app records].
  change ("event: " +:+ e) with (String "e" ("vent: " +:+ e)).
  rewrite trim_clean by (done || by apply endsClean_app).
  change (String "e" ("vent: " +:+ e)) with ("event: " +:+ e).
  unfold startsWith. rewrite !prefix_app.
  change 7%nat with (String.length "event: ").
  change 6%nat with (String.length "data: ").
  by rewrite !slice_app.
Qed.

Lemma records_flat_map rs :
  forallb wellFormed rs = true → records (flat_map recordLines rs) = rs.
Proof.
  induction rs as [|[e d] rs IH]; [done|]. cbn [forallb flat_map].
  intros [Hr Hrs]%andb_prop. unfold wellFormed in Hr. cbn [fst snd] in *.
  apply andb_prop in Hr as [[_ He]%andb_prop _].
  rewrite records_recordLines by done. by rewrite IH.
Qed.

Lemma length_flat_map_recordLines rs :
  length (flat_map recordLines rs) = (3 * length rs)%nat.
Proof.
  induction rs as [|r rs IH]; [done|]. cbn [flat_map].
  rewrite List.length_app, IH. cbn [recordLines length]. lia.
Qed.

Lemma parseChunk_wire (o : SSEConnectionOptions) rs :
  forallb wellFormed rs = true →
  Z.of_nat (String.length (wire rs)) ≤ bufferSizeOrDefault o * 2
  ∨ (length rs ≤ 16)%nat →
  parseChunk o "" (wire rs) = ("", rs).
Proof.
  intros Hrs Hsize. unfold parseChunk. rewrite string_app_nil_l.
  rewrite truncation_idle.
  - rewrite split_wire by done. unfold popOrEmpty.
    rewrite removelast_last, last_last. by rewrite records_flat_map.
  - destruct Hsize as [H|H]; [by left|right].
    rewrite split_wire by done.
    rewrite List.length_app, length_flat_map_recordLines. cbn [length]. lia.
Qed.

(** X2.  What [sendSSEMessage] writes is what [processChunk] reads: a
    chunk that holds whole records [event: E], [data: D], empty line, one
    after the other, read with an empty buffer, is handed to
    [handleSSEEvent] record by record, in order, with the same [E] and [D],
    and leaves the buffer empty; as long as no [E] or [D] holds a line
    break, no [E] is empty or ends in white space, and the chunk is within
    twice [bufferSize] or holds at most 16 records. *)
Theorem records_round_trip
    (now : Z) (rs : list (string * string)) (m : Manager) :
  buffer m = "" →
  forallb wellFormed rs = true →
  Z.of_nat (String.length (wire rs)) ≤ bufferSizeOrDefault (options m) * 2
  ∨ (length rs ≤ 16)%nat →
  parseChunk (options m) (buffer m) (wire rs) = ("", rs)
  ∧ processChunk now (wire rs) m
    = handleAll now rs
        (set_buffer ""
           (count_chunk (Z.of_nat (String.length (wire rs))) m)).
Proof.
  intros Hb Hrs Hsize.
  assert (parseChunk (options m) (buffer m) (wire rs) = ("", rs)) as Hp
    by (rewrite Hb; by apply parseChunk_wire).
  split; [done|]. rewrite processChunk_parseChunk. by rewrite Hp.
Qed.

Lemma records_round_trip_witness :
  processChunk 5
    (wire [("heartbeat", "{}"); ("a/b_chunk", "{x}"); ("a/b_end", "{}")])
    (newManager defaultOptions)
  = handleAll 5
      [("heartbeat", "{}"); ("a/b_chunk", "{x}"); ("a/b_end", "{}")]
      (set_buffer ""
         (count_chunk
            (Z.of_nat
               (String.length
                  (wire [("heartbeat", "{}"); ("a/b_chunk", "{x}");
                         ("a/b_end", "{}")])))
            (newManager defaultOptions))).
Proof.
  refine (proj2 (records_round_trip 5
           [("heartbeat", "{}"); ("a/b_chunk", "{x}"); ("a/b_end", "{}")]
           (newManager defaultOptions) _ _ _)).
  - reflexivity.
  - vm_compute. reflexivity.
  - right. simpl. lia.
Defined.

(** X3.  [processChunk] pairs an [event: ] line with the [data: ] line
    that follows it among the complete lines of one call.  When a chunk
    ends after the line break of the event line and before the line break
    of the data line, nothing is handed to [onEvent], neither by this call
    nor by the one that reads the rest: the record is lost, the buffer is
    empty again and [completedModels] is as before.  The same record in
    one chunk is delivered. *)
Theorem record_cut_before_its_data_ends_is_lost
    (now1 now2 : Z) (e p s : string) (m : Manager) :
  buffer m = "" →
  lacks nl e = true → lacks nl p = true → lacks nl s = true →
  let first := processChunk now1 ("event: " +:+ e +:+ nlS +:+ p) m in
  let second := processChunk now2 (s +:+ nlS +:+ nlS) first.1 in
  first.2 = []
  ∧ second.2 = []
  ∧ buffer second.1 = ""
  ∧ completedModels second.1 = completedModels m
  ∧ (∀ d, p +:+ s = "data: " +:+ d → endsClean e = true →
       (processChunk now1 (record e d) m).2
       = (handleSSEEvent now1 e d m).2).
Proof.
  intros Hb He Hp Hs first second.
  assert (first = (set_buffer p
            (count_chunk (Z.of_nat (String.length
                            ("event: " +:+ e +:+ nlS +:+ p))) m), []))
    as Hfirst.
  { unfold first, processChunk. cbn [buffer count_chunk]. rewrite Hb.
    rewrite string_app_nil_l.
    assert (split nl ("event: " +:+ e +:+ nlS +:+ p)
            = ["event: " +:+ e; p]) as Hsplit.
    { rewrite <- (string_app_assoc "event: " e). unfold nlS.
      rewrite char_app.
      rewrite split_app_sep, !split_lacks; [done|done|].
      by rewrite lacks_app, He. }
    rewrite truncation_idle by (right; rewrite Hsplit; cbn [length]; lia).
    rewrite Hsplit. cbn [removelast popOrEmpty List.last].
    apply dispatchLines_one. }
  assert (second = (set_buffer ""
            (count_chunk (Z.of_nat (String.length (s +:+ nlS +:+ nlS)))
               first.1), [])) as Hsecond.
  { unfold second, processChunk. rewrite Hfirst.
    cbn [fst buffer count_chunk set_buffer].
    assert (split nl (p +:+ s +:+ nlS +:+ nlS) = [p +:+ s; ""; ""])
      as Hsplit.
    { rewrite <- (string_app_assoc p s). unfold nlS.
      rewrite char_app.
      rewrite split_app_sep, split_lacks by (by rewrite lacks_app, Hp, Hs).
      cbn [split]. by rewrite !Ascii.eqb_refl. }
    rewrite truncation_idle by (right; rewrite Hsplit; cbn [length]; lia).
    rewrite Hsplit. cbn [removelast popOrEmpty List.last].
    apply dispatchLines_one_blank. }
  split; [by rewrite Hfirst|]. split; [by rewrite Hsecond|].
  split; [by rewrite Hsecond|]. split; [by rewrite Hsecond, Hfirst|].
  intros d Hd Hclean.
  assert (lacks nl d = true) as Hld.
  { assert (lacks nl (p +:+ s) = true) as H by (by rewrite lacks_app, Hp, Hs).
    rewrite Hd, lacks_app in H. by apply andb_prop in H as [_ H]. }
  pose proof (records_round_trip now1 [(e, d)] m Hb) as [_ Hone].
  { cbn [forallb]. unfold wellFormed. cbn [fst snd].
    by rewrite He, Hclean, Hld. }
  { right. cbn [length]. lia. }
  cbn [wire foldr fst snd] in Hone. rewrite string_app_nil_r in Hone.
  rewrite Hone. cbn [handleAll].
  set (M := set_buffer _ _).
  pose proof (handleSSEEvent_effects now1 e d M m) as Heff.
  destruct (handleSSEEvent now1 e d M) as [m1 e1].
  destruct (handleSSEEvent now1 e d m) as [m1' e1'].
  cbn [snd] in *. subst. apply List.app_nil_r.
Qed.

Lemma record_cut_before_its_data_ends_is_lost_witness :
  (processChunk 1 ("event: " +:+ "A_end" +:+ nlS +:+ "data: {")
     (newManager defaultOptions)).2 = []
  ∧ (processChunk 2 ("}" +:+ nlS +:+ nlS)
       (processChunk 1 ("event: " +:+ "A_end" +:+ nlS +:+ "data: {")
          (newManager defaultOptions)).1).2 = []
  ∧ (processChunk 1 (record "A_end" "{}") (newManager defaultOptions)).2
    = (handleSSEEvent 1 "A_end" "{}" (newManager defaultOptions)).2.
Proof.
  pose proof (record_cut_before_its_data_ends_is_lost 1 2 "A_end" "data: {"
                "}" (newManager defaultOptions) eq_refl eq_refl eq_refl
                eq_refl) as (H1 & H2 & _ & _ & H3).
  split; [exact H1|]. split; [exact H2|].
  apply (H3 "{}"); reflexivity.
Defined.

Lemma handleAll_buffer now (recs : list (string * string)) m :
  buffer (handleAll now recs m).1 = buffer m.
Proof.
  rewrite handleAll_manager.
  by destruct (markCompleted_session (terminals recs) m) as (_&_&_&->&_).
Qed.

Lemma processChunk_buffer_lacks now c m :
  lacks nl (buffer (processChunk now c m).1) = true.
Proof.
  rewrite processChunk_parseChunk, handleAll_buffer. cbn [set_buffer buffer].
  unfold parseChunk. cbn [fst]. apply last_split_lacks.
Qed.

(** X4.  A chunk without a line break only extends the buffer: reading
    it and then another chunk delivers the same events, and leaves the same
    buffer and the same [completedModels], as reading the two as one
    chunk.  After any call of [processChunk] the buffer holds no line
    break. *)
Theorem chunk_without_line_break_waits
    (now1 now2 : Z) (c1 c2 : string) (m : Manager) :
  lacks nl (buffer m) = true → lacks nl c1 = true →
  let first := processChunk now1 c1 m in
  let both := processChunk now2 c2 first.1 in
  let whole := processChunk now2 (c1 +:+ c2) m in
  first.2 = []
  ∧ buffer first.1 = buffer m +:+ c1
  ∧ both.2 = whole.2
  ∧ buffer both.1 = buffer whole.1
  ∧ completedModels both.1 = completedModels whole.1
  ∧ (∀ now c m0, lacks nl (buffer (processChunk now c m0).1) = true).
Proof.
  intros Hb Hc first both whole.
  assert (first = (set_buffer (buffer m +:+ c1)
            (count_chunk (Z.of_nat (String.length c1)) m), [])) as Hfirst.
  { unfold first, processChunk. cbn [buffer count_chunk options].
    assert (split nl (buffer m +:+ c1) = [buffer m +:+ c1]) as Hsplit
      by (apply split_lacks; by rewrite lacks_app, Hb, Hc).
    rewrite truncation_idle by (right; rewrite Hsplit; cbn [length]; lia).
    by rewrite Hsplit. }
  assert (parseChunk (options first.1) (buffer first.1) c2
          = parseChunk (options m) (buffer m) (c1 +:+ c2)) as Hparse.
  { rewrite Hfirst. cbn [fst set_buffer count_chunk options buffer].
    unfold parseChunk. by rewrite string_app_assoc. }
  split; [by rewrite Hfirst|]. split; [by rewrite Hfirst|].
  unfold both, whole. rewrite !processChunk_parseChunk, Hparse.
  split; [apply handleAll_effects|].
  split; [by rewrite !handleAll_buffer|].
  split; [|apply processChunk_buffer_lacks].
  rewrite !handleAll_manager, !markCompleted_completedModels.
  by rewrite Hfirst.
Qed.

Lemma chunk_without_line_break_waits_witness :
  (processChunk 2 ("nd" +:+ nlS +:+ "data: {}" +:+ nlS +:+ nlS)
     (processChunk 1 "event: A_e" (newManager defaultOptions)).1).2
  = (processChunk 2
       ("event: A_e" +:+ "nd" +:+ nlS +:+ "data: {}" +:+ nlS +:+ nlS)
       (newManager defaultOptions)).2.
Proof.
  refine (proj1 (proj2 (proj2
    (chunk_without_line_break_waits 1 2 "event: A_e"
       ("nd" +:+ nlS +:+ "data: {}" +:+ nlS +:+ nlS)
       (newManager defaultOptions) _ _)))); reflexivity.
Defined.

End Wire.

(* ===================================================================== *)
(** * Connecting, and connecting again *)
(* ===================================================================== *)

Section Connecting.
Import Js Sse.

Implicit Types (m : Manager).

Lemma timerFires_idle t m :
  isConnected m = false → heartbeatTimer m = false →
  (timerFires t m).2 = []
  ∧ isConnected (timerFires t m).1 = false
  ∧ heartbeatTimer (timerFires t m).1 = false
  ∧ options (timerFires t m).1 = options m
  ∧ retryCount (timerFires t m).1 = retryCount m
  ∧ controller (timerFires t m).1 = controller m.
Proof.
  intros Hc Hh. destruct t as [now|]; cbn [timerFires].
  - by rewrite Hh.
  - unfold timeoutCheck. rewrite Hc. by destruct (timeoutTimer m).
Qed.

Lemma timersFire_idle ts m :
  isConnected m = false → heartbeatTimer m = false →
  (timersFire ts m).2 = []
  ∧ isConnected (timersFire ts m).1 = false
  ∧ options (timersFire ts m).1 = options m.
Proof.
  revert m. induction ts as [|t ts IH]; intros m Hc Hh; [done|].
  cbn [timersFire].
  destruct (timerFires_idle t m Hc Hh) as (He & Hc1 & Hh1 & Ho & _).
  destruct (timerFires t m) as [m1 e1]. cbn [fst snd] in *.
  destruct (IH m1 Hc1 Hh1) as (He2 & Hc2 & Ho2).
  destruct (timersFire ts m1) as [m2 e2]. cbn [fst snd] in *.
  subst. by rewrite Ho2.
Qed.

(** The opening of a connection the properties of [processStream] start
    from is the one of this section, read at one time. *)
Lemma connectWithMessages_open_agrees (now : Z) (models : list string) m :
  connectWithMessages_open now models m
  = let '(m1, e1) := connectWithMessages_begin now models m in
    let '(m2, e2) := connectWithMessages_connected now m1 in
    (m2, e1 ++ e2).
Proof. done. Qed.

Lemma retryDelayFor_first (k : Z) m :
  k = 1 → retryDelayFor (set_retryCount k m) = retryDelay (options m).
Proof.
  intros ->. unfold retryDelayFor. destruct m; simpl.
  change (2 ^ (1 - 1)) with 1. lia.
Qed.

Lemma failedRounds_S models delay n :
  failedRounds models delay (S n)
  = [OnConnectionChange StConnecting; Request models;
     OnConnectionChange StError; Sleep delay]
    ++ failedRounds models delay n.
Proof.
  unfold failedRounds. cbn [seq flat_map]. f_equal.
  rewrite <- seq_shift. by rewrite flat_map_concat_map, List.map_map,
    <- flat_map_concat_map.
Qed.

(** X5.  [connectWithMessages] starts with [cleanup()], which sets
    [retryCount] back to 0, so the test [retryCount >= maxRetries] of
    [shouldRetry] never holds and the delay of [retryWithMessages] is
    always [retryDelay].  While the request fails before a stream is read,
    with an error that is not an [AbortError] and has neither 401 nor 403
    in its message, a manager that is not connected goes round without
    end: whatever the number of rounds allowed, it has not settled, has
    sent that many requests, and each round shows [connecting], the
    request, [error] and a wait of [retryDelay] ms. *)
Theorem connecting_never_gives_up
    (fuel : nat) (models : list string) (script : nat → Attempt)
    (m : Manager) :
  isConnected m = false →
  0 < maxRetries (options m) →
  (∀ n, ∃ name message,
     answerError (answer (script n)) = Some (name, message)
     ∧ retryableError name message = true) →
  let r := connectWithMessages_fuel fuel models script 0 m in
  r.2 = StillRetrying
  ∧ r.1.2 = failedRounds models (retryDelay (options m)) fuel
  ∧ length (List.filter isRequest r.1.2) = fuel.
Proof.
  intros Hc Hmax Hfail.
  assert (∀ fuel n m', isConnected m' = false → options m' = options m →
            (connectWithMessages_fuel fuel models script n m').2 = StillRetrying
            ∧ (connectWithMessages_fuel fuel models script n m').1.2
              = failedRounds models (retryDelay (options m)) fuel) as H.
  { clear Hc. intros fuel'. induction fuel' as [|fuel' IH]; intros n m' Hc Ho.
    { done. }
    cbn [connectWithMessages_fuel]. unfold connectWithMessages_begin.
    set (m1 := Build_Manager _ _ _ _ _ _ _ _ _ _ _ _ _ _ _).
    assert (isConnected m1 = false) as Hc1 by done.
    assert (heartbeatTimer m1 = false) as Hh1 by done.
    assert (options m1 = options m) as Ho1 by done.
    assert (retryCount m1 = 0) as Hr1 by done.
    assert (controller m1 = true) as Hk1 by done.
    clearbody m1. unfold connectWithMessages_try.
    destruct (Hfail n) as (name & message & Herr & Hretry).
    assert (∃ m1', (if timeoutBeforeAnswer (script n)
                    then timerFires TimeoutFires m1 else (m1, []))
                   = (m1', [])
                   ∧ isConnected m1' = false ∧ heartbeatTimer m1' = false
                   ∧ options m1' = options m ∧ retryCount m1' = 0
                   ∧ controller m1' = true) as (m1' & -> & Hc2 & Hh2 & Ho2 & Hr2 & Hk2).
    { destruct (timeoutBeforeAnswer (script n)); [|by exists m1].
      destruct (timerFires_idle TimeoutFires m1 Hc1 Hh1)
        as (He & ? & ? & ? & ? & ?).
      destruct (timerFires TimeoutFires m1) as [m1' e1']. cbn [fst snd] in *.
      subst e1'. exists m1'. repeat split; congruence. }
    rewrite Hk1, Hk2. cbn [negb andb]. rewrite Herr.
    unfold shouldRetry. rewrite Ho2, Hr2.
    replace (maxRetries (options m) <=? 0) with false
      by (symmetry; apply Z.leb_gt; lia).
    rewrite Hretry.
    set (m3 := set_retryCount _ _).
    assert (isConnected m3 = false) as Hc3 by done.
    assert (heartbeatTimer m3 = false) as Hh3 by done.
    assert (options m3 = options m) as Ho3 by done.
    assert (retryDelayFor m3 = retryDelay (options m)) as Hd.
    { unfold m3. rewrite retryDelayFor_first by lia. by rewrite Ho2. }
    rewrite Hd. clearbody m3.
    destruct (timersFire_idle (timersWhileWaiting (script n)) m3 Hc3 Hh3)
      as (He4 & Hc4 & Ho4).
    destruct (timersFire _ m3) as [m4 e4]. cbn [fst snd] in *. subst e4.
    destruct (IH (S n) m4 Hc4 (eq_trans Ho4 Ho3)) as [Hres Heff].
    destruct (connectWithMessages_fuel fuel' models script (S n) m4)
      as [[m5 e5] r5]. cbn [fst snd] in *. subst.
    split; [done|]. by rewrite failedRounds_S. }
  intros r. destruct (H fuel 0%nat m Hc eq_refl) as [H1 H2].
  split; [done|]. split; [done|]. unfold r. rewrite H2.
  clear. induction fuel as [|fuel IH]; [done|].
  rewrite failedRounds_S, List.filter_app, List.length_app, IH. done.
Qed.

Lemma connecting_never_gives_up_witness :
  (connectWithMessages_fuel 6 ["a"; "b"] unreachable 0
     (newManager defaultOptions)).1.2
  = failedRounds ["a"; "b"] 2000 6.
Proof.
  refine (proj1 (proj2 (connecting_never_gives_up 6 ["a"; "b"] unreachable
                          (newManager defaultOptions) _ _ _))).
  - reflexivity.
  - reflexivity.
  - intros n. exists "TypeError", "Failed to fetch". split; reflexivity.
Defined.

Lemma includes_prefix p s : String.prefix p s = true → includes p s = true.
Proof. intros H. destruct s; cbn [includes]; by rewrite H. Qed.

Lemma includes_here p s : includes p (p +:+ s) = true.
Proof. apply includes_prefix, prefix_app. Qed.

Lemma includes_later p c s : includes p s = true → includes p (String c s) = true.
Proof. intros H. cbn [includes]. rewrite H. apply orb_true_r. Qed.

(** X6.  A response with status 401 or 403 is not retried: the manager
    shows [connecting], sends one request, shows [error], and
    [connectWithMessages] rejects with [HTTP <status>: <statusText>]. *)
Theorem refused_request_is_not_retried
    (fuel : nat) (models : list string) (script : nat → Attempt)
    (m : Manager) (status : Z) (statusText : string) (body : bool) :
  isConnected m = false →
  answer (script 0%nat) = Answers false status statusText body →
  status = 401 ∨ status = 403 →
  let r := connectWithMessages_fuel (S fuel) models script 0 m in
  r.2 = RejectedWith "Error" ("HTTP " +:+ pretty status +:+ ": " +:+ statusText)
  ∧ r.1.2 = [OnConnectionChange StConnecting; Request models;
             OnConnectionChange StError].
Proof.
  intros Hc Hans Hst r. unfold r. cbn [connectWithMessages_fuel].
  unfold connectWithMessages_begin.
  set (m1 := Build_Manager _ _ _ _ _ _ _ _ _ _ _ _ _ _ _).
  assert (isConnected m1 = false) as Hc1 by done.
  assert (heartbeatTimer m1 = false) as Hh1 by done.
  assert (controller m1 = true) as Hk1 by done.
  clearbody m1. unfold connectWithMessages_try.
  assert (∃ m1', (if timeoutBeforeAnswer (script 0%nat)
                  then timerFires TimeoutFires m1 else (m1, []))
                 = (m1', []) ∧ controller m1' = true)
    as (m1' & -> & Hk2).
  { destruct (timeoutBeforeAnswer (script 0%nat)); [|by exists m1].
    destruct (timerFires_idle TimeoutFires m1 Hc1 Hh1)
      as (He & ? & ? & ? & ? & ?).
    destruct (timerFires TimeoutFires m1) as [m1' e1']. cbn [fst snd] in *.
    subst e1'. exists m1'. split; congruence. }
  rewrite Hk1, Hk2, Hans. cbn [negb andb answerError].
  assert (retryableError "Error"
            ("HTTP " +:+ pretty status +:+ ": " +:+ statusText) = false)
    as Hno.
  { unfold retryableError.
    destruct Hst as [-> | ->].
    - replace (includes "401" _) with true; [done|]. symmetry.
      change ("HTTP " +:+ pretty 401 +:+ ": " +:+ statusText)
        with ("HTTP " +:+ ("401" +:+ (": " +:+ statusText))).
      do 5 apply includes_later. apply includes_here.
    - replace (includes "403" _) with true; [by rewrite orb_true_r|].
      symmetry.
      change ("HTTP " +:+ pretty 403 +:+ ": " +:+ statusText)
        with ("HTTP " +:+ ("403" +:+ (": " +:+ statusText))).
      do 5 apply includes_later. apply includes_here. }
  unfold shouldRetry. rewrite Hno. by destruct (_ <=? _).
Qed.

Lemma refused_request_is_not_retried_witness :
  (connectWithMessages_fuel 4 ["a"] (refused 401) 0
     (newManager defaultOptions)).2
  = RejectedWith "Error" "HTTP 401: Unauthorized".
Proof.
  refine (proj1 (refused_request_is_not_retried 3 ["a"] (refused 401)
                   (newManager defaultOptions) 401 "Unauthorized" false
                   _ _ _)).
  - reflexivity.
  - reflexivity.
  - by left.
Defined.

End Connecting.

(* ===================================================================== *)
(** * The two timers of a connected manager *)
(* ===================================================================== *)

Section Timers.
Import Js Sse.

Implicit Types (m : Manager).

Lemma handleAll_from_stream now (recs : list (string * string)) m :
  Forall (λ e, syntheticRetryable e = None) (handleAll now recs m).2.
Proof.
  revert m. induction recs as [|[event data] recs IH]; intros m.
  { constructor. }
  cbn [handleAll].
  assert (Forall (λ e, syntheticRetryable e = None)
            (handleSSEEvent now event data m).2) as H1.
  { unfold handleSSEEvent. destruct (String.eqb event "heartbeat").
    { by repeat constructor. }
    destruct (_ <? _)%nat; [constructor|].
    destruct (isTerminal _); by repeat constructor. }
  destruct (handleSSEEvent now event data m) as [m1 e1].
  specialize (IH m1). destruct (handleAll now recs m1) as [m2 e2].
  cbn [snd] in *. by apply Forall_app.
Qed.

Lemma processChunk_from_stream now c m :
  Forall (λ e, syntheticRetryable e = None) (processChunk now c m).2.
Proof. rewrite processChunk_parseChunk. apply handleAll_from_stream. Qed.

(** X7.  The callback of [startHeartbeat] does nothing as long as it
    runs at most [2 * heartbeatInterval] after the last chunk was read (or
    the connection was made): [processStream] then does what it does on
    the same reads and timeouts without any run of that callback. *)
Theorem heartbeat_timer_is_idle_while_chunks_arrive
    (expected : list string) (inputs : list Input) (ending : Ending)
    (m : Manager) :
  heartbeatsFresh (heartbeatInterval (options m) * 2) (lastActivity m)
    inputs →
  processStream_while expected inputs ending m
  = processStream_while expected
      (List.filter (λ i, negb (isHeartbeatTimer i)) inputs) ending m.
Proof.
  revert m. induction inputs as [|i inputs IH]; intros m Hfresh; [done|].
  destruct (isConnected m) eqn:Hc;
    [|by rewrite !processStream_while_disconnected].
  destruct i as [now value|now|].
  - cbn [List.filter isHeartbeatTimer negb processStream_while].
    rewrite Hc. cbn [negb].
    destruct (processChunk_session now value (set_lastActivity now m))
      as (_ & Ho & Hl & _).
    destruct (processChunk now value (set_lastActivity now m)) as [m1 e1].
    cbn [fst] in *. destruct (_ =? _)%nat; [done|].
    rewrite IH; [done|]. rewrite Ho, Hl. exact Hfresh.
  - cbn [List.filter isHeartbeatTimer negb processStream_while].
    rewrite Hc. cbn [negb]. destruct Hfresh as [Hnow Hfresh].
    assert ((if heartbeatTimer m then heartbeatCheck now m else (m, []))
            = (m, [])) as ->.
    { destruct (heartbeatTimer m); [|done]. unfold heartbeatCheck.
      by replace (_ <? _) with false by (symmetry; apply Z.ltb_ge; lia). }
    rewrite Hc, IH by done.
    by destruct (processStream_while _ _ _ _) as [[m2 e2] r].
  - cbn [List.filter isHeartbeatTimer negb processStream_while].
    rewrite Hc. cbn [negb].
    destruct (timeoutTimer m).
    + unfold timeoutCheck. rewrite Hc. done.
    + rewrite Hc, IH by done. done.
Qed.

Lemma heartbeat_timer_is_idle_while_chunks_arrive_witness :
  processStream_while fourTargets
    [Read 9000 (record "A_chunk" "{}"); HeartbeatTimer 10000;
     Read 19000 (record "A_end" "{}"); HeartbeatTimer 20000;
     HeartbeatTimer 30000] (Done []) connectedManager
  = processStream_while fourTargets
      [Read 9000 (record "A_chunk" "{}"); Read 19000 (record "A_end" "{}")]
      (Done []) connectedManager.
Proof.
  apply (heartbeat_timer_is_idle_while_chunks_arrive fourTargets
           [Read 9000 (record "A_chunk" "{}"); HeartbeatTimer 10000;
            Read 19000 (record "A_end" "{}"); HeartbeatTimer 20000;
            HeartbeatTimer 30000] (Done []) connectedManager).
  simpl. lia.
Defined.

Lemma last_app_cons {A} (l1 l2 : list A) (x d : A) :
  List.last (l1 ++ x :: l2) d = List.last (x :: l2) d.
Proof.
  induction l1 as [|y l1 IH]; [done|].
  change ((y :: l1) ++ x :: l2) with (y :: (l1 ++ x :: l2)).
  destruct (l1 ++ x :: l2) eqn:E.
  - by destruct l1.
  - rewrite <- IH. done.
Qed.

(** ** The timeout during the sleep of [handleUnexpectedDisconnection] *)

(** On a manager that is disconnected and whose heartbeat is cleared,
    the timers do nothing. *)
Lemma timersFire_spent (ts : list Timer) m :
  isConnected m = false → heartbeatTimer m = false →
  (timersFire ts m).2 = []
  ∧ isConnected (timersFire ts m).1 = false
  ∧ completedModels (timersFire ts m).1 = completedModels m.
Proof.
  revert m. induction ts as [|t ts IH]; intros m Hc Hh; [done|].
  cbn [timersFire].
  assert ((timerFires t m).2 = []
          ∧ isConnected (timerFires t m).1 = false
          ∧ heartbeatTimer (timerFires t m).1 = false
          ∧ completedModels (timerFires t m).1 = completedModels m)
    as (He1 & Hc1 & Hh1 & Hm1).
  { destruct t as [now|]; cbn [timerFires].
    - by rewrite Hh.
    - unfold timeoutCheck. rewrite Hc. by destruct (timeoutTimer m). }
  destruct (timerFires t m) as [m1 e1]. cbn [fst snd] in *.
  destruct (IH m1 Hc1 Hh1) as (He2 & Hc2 & Hm2).
  destruct (timersFire ts m1) as [m2 e2]. cbn [fst snd] in *.
  subst. by rewrite Hm2.
Qed.

(** When the timeout is among the timers that fire on a connected
    manager, the manager is disconnected once and [completedModels] is
    cleared. *)
Lemma timersFire_disconnects (ts : list Timer) m :
  isConnected m = true → timeoutTimer m = true →
  TimeoutFires ∈ ts →
  (timersFire ts m).2 = [OnConnectionChange StDisconnected]
  ∧ isConnected (timersFire ts m).1 = false
  ∧ completedModels (timersFire ts m).1 = ∅.
Proof.
  revert m. induction ts as [|t ts IH]; intros m Hc Ht Hin.
  { by apply elem_of_nil in Hin. }
  cbn [timersFire].
  assert (∀ m', (timersFire ts (cleanup (set_isConnected false m'))).2 = []
                ∧ isConnected
                    (timersFire ts (cleanup (set_isConnected false m'))).1
                  = false
                ∧ completedModels
                    (timersFire ts (cleanup (set_isConnected false m'))).1
                  = ∅) as Hspent.
  { intros m'. by apply timersFire_spent. }
  assert (∀ m', (timersFire ts
                   (set_timeoutTimer false
                      (cleanup (set_isConnected false m')))).2 = []
                ∧ isConnected
                    (timersFire ts
                       (set_timeoutTimer false
                          (cleanup (set_isConnected false m')))).1 = false
                ∧ completedModels
                    (timersFire ts
                       (set_timeoutTimer false
                          (cleanup (set_isConnected false m')))).1 = ∅)
    as Hspent'.
  { intros m'. by apply timersFire_spent. }
  destruct t as [now|]; cbn [timerFires].
  - destruct (heartbeatTimer m).
    + unfold heartbeatCheck. destruct (_ <? _).
      * cbn [disconnect]. specialize (Hspent m).
        destruct (timersFire ts _) as [m2 e2]. cbn [fst snd] in *.
        destruct Hspent as (-> & ? & ?). done.
      * apply elem_of_cons in Hin as [Hin|Hin]; [discriminate Hin|].
        specialize (IH m Hc Ht Hin).
        by destruct (timersFire ts m) as [m2 e2].
    + apply elem_of_cons in Hin as [Hin|Hin]; [discriminate Hin|].
      specialize (IH m Hc Ht Hin).
      by destruct (timersFire ts m) as [m2 e2].
  - rewrite Ht. unfold timeoutCheck. rewrite Hc. cbn [disconnect].
    specialize (Hspent' m).
    destruct (timersFire ts _) as [m2 e2]. cbn [fst snd] in *.
    destruct Hspent' as (-> & ? & ?). done.
Qed.

Lemma incomplete_none (expected : list string) m :
  completedModels m = ∅ → incomplete expected m = expected.
Proof.
  intros Hm. unfold incomplete. induction expected as [|i l IH]; [done|].
  rewrite filter_cons, IH. rewrite decide_True; [done|].
  rewrite Hm. apply not_elem_of_empty.
Qed.

(** The timeout while [processStream] waits for a chunk. *)
Lemma processStream_while_timeout
    (expected : list string) (reads : list (Z * string))
    (rest : list Input) (ending : Ending) (m : Manager) :
  isConnected m = true → timeoutTimer m = true →
  let r := processStream_while expected
             (readsOnly reads ++ TimeoutTimer :: rest) ending m in
  r.2 = Returned
  ∧ isConnected r.1.1 = false
  ∧ List.last r.1.2 (Sleep 0) = OnConnectionChange StDisconnected
  ∧ Forall (λ e, syntheticRetryable e = None) r.1.2.
Proof.
  revert m. induction reads as [|[now chunk] reads IH]; intros m Hc Ht r.
  - unfold r. cbn [readsOnly fmap list_fmap app processStream_while].
    rewrite Hc, Ht. cbn [negb]. unfold timeoutCheck. rewrite Hc.
    cbn [disconnect isConnected cleanup set_isConnected fst snd].
    repeat split. by repeat constructor.
  - unfold r. change (readsOnly ((now, chunk) :: reads))
      with (Read now chunk :: readsOnly reads).
    cbn [app processStream_while]. rewrite Hc. cbn [negb].
    destruct (processChunk_session now chunk (set_lastActivity now m))
      as (Hc1 & _ & _ & Ht1 & _).
    pose proof (processChunk_from_stream now chunk (set_lastActivity now m))
      as Hs1.
    destruct (processChunk now chunk (set_lastActivity now m)) as [m1 e1].
    cbn [fst snd] in *. destruct (_ =? _)%nat.
    + cbn [disconnect isConnected cleanup set_isConnected fst snd].
      repeat split.
      * by rewrite last_last.
      * apply Forall_app. split; [done|]. by repeat constructor.
    + specialize (IH m1 (eq_trans Hc1 Hc) (eq_trans Ht1 Ht)). cbn zeta in IH.
      destruct (processStream_while expected _ ending m1) as [[m2 e2] r2].
      cbn [fst snd] in *. destruct IH as (-> & Hc2 & Hlast & Hs2).
      repeat split; [done| |by apply Forall_app].
      destruct e2 as [|e e2]; [done|].
      rewrite <- Hlast. by apply last_app_cons.
Qed.

(** X8.  The timer of [setupTimeout] is not cleared when the connection
    is made or when chunks arrive.  When it fires while [processStream]
    waits for a chunk, whatever has been read before, [processStream]
    returns, the manager is disconnected, the last thing shown is the
    status [disconnected], and no error event is made up for the targets
    that have not finished: every event handed to [onEvent] came from the
    stream.  When it fires while [handleUnexpectedDisconnection] sleeps,
    the manager is disconnected, [completedModels] is cleared, and after
    the sleep every expected target, those that have finished included, is
    given the made-up error. *)
Theorem timeout_cuts_the_stream_without_an_error
    (expected : list string) (reads : list (Z * string))
    (rest : list Input) (ending : Ending) (m : Manager) :
  isConnected m = true → timeoutTimer m = true →
  let r := processStream_while expected
             (readsOnly reads ++ TimeoutTimer :: rest) ending m in
  r.2 = Returned
  ∧ isConnected r.1.1 = false
  ∧ List.last r.1.2 (Sleep 0) = OnConnectionChange StDisconnected
  ∧ Forall (λ e, syntheticRetryable e = None) r.1.2
  ∧ (∀ asleep : list Timer,
       reconnectAttempts m < maxReconnectAttempts m →
       TimeoutFires ∈ asleep →
       let d := handleUnexpectedDisconnection expected asleep m in
       isConnected d.1 = false
       ∧ ∃ notice delay,
           d.2 = [OnEvent notice; Sleep delay;
                  OnConnectionChange StDisconnected]
                 ++ (connectionLostError <$> expected)).
Proof.
  intros Hc Ht r.
  destruct (processStream_while_timeout expected reads rest ending m Hc Ht)
    as (H1 & H2 & H3 & H4).
  do 4 (split; [done|]).
  intros asleep Hlt Hin d. unfold d, handleUnexpectedDisconnection.
  apply Z.leb_gt in Hlt. rewrite Hlt.
  destruct (timersFire_disconnects asleep
              (set_reconnectAttempts (reconnectAttempts m + 1) m))
    as (He & Hd & Hm); [done|done|done|].
  destruct (timersFire asleep _) as [m2 woken]. cbn [fst snd] in *.
  split; [done|]. eexists _, _. rewrite He, (incomplete_none _ _ Hm).
  reflexivity.
Qed.

Lemma timeout_cuts_the_stream_without_an_error_witness :
  isConnected
    (processStream_while fourTargets
       (readsOnly [(100, record "A_end" "{}")] ++ [TimeoutTimer]) (Done [])
       connectedManager).1.1 = false
  ∧ Forall (λ e, syntheticRetryable e = None)
      (processStream_while fourTargets
         (readsOnly [(100, record "A_end" "{}")] ++ [TimeoutTimer]) (Done [])
         connectedManager).1.2
  ∧ ∃ notice delay,
      (handleUnexpectedDisconnection fourTargets
         [HeartbeatFires 10000; TimeoutFires] connectedManager).2
      = [OnEvent notice; Sleep delay; OnConnectionChange StDisconnected]
        ++ (connectionLostError <$> fourTargets).
Proof.
  destruct (timeout_cuts_the_stream_without_an_error fourTargets
              [(100, record "A_end" "{}")] [] (Done []) connectedManager
              eq_refl eq_refl) as (_ & H1 & _ & H2 & H3).
  split; [exact H1|]. split; [exact H2|].
  refine (proj2 (H3 [HeartbeatFires 10000; TimeoutFires] _ _)).
  - vm_compute. reflexivity.
  - apply elem_of_cons. right. apply elem_of_cons. by left.
Defined.

End Timers.

(* ===================================================================== *)
(** * The pool when its calls do not overlap, its timers and its counts *)
(* ===================================================================== *)

Section PoolSequential.
Import Pool.

Implicit Types (p q : ConnectionPool) (i j : string).

Lemma shrinks_refl p : shrinks p p.
Proof. by repeat split. Qed.

Lemma shrinks_trans p q r : shrinks p q → shrinks q r → shrinks p r.
Proof.
  intros (Ho & Hc & Ha & Hn & Hm) (Ho' & Hc' & Ha' & Hn' & Hm').
  repeat split; [congruence|congruence|lia|auto|auto].
Qed.

Lemma shrinks_removeConnection i p : shrinks p (removeConnection i p).
Proof.
  repeat split.
  - unfold removeConnection. destruct (connections p !! i); [|done].
    simpl. by destruct (0 <? activeConnections p).
  - unfold removeConnection. destruct (connections p !! i); [|done].
    simpl. by destruct (0 <? activeConnections p).
  - unfold removeConnection. destruct (connections p !! i); [|done].
    simpl. destruct (0 <? activeConnections p); simpl; lia.
  - intros j Hj. rewrite removeConnection_connections.
    destruct (decide (i = j)) as [->|Hne].
    + apply lookup_delete_eq.
    + by rewrite lookup_delete_ne.
  - apply counterMatches_removeConnection.
Qed.

Lemma shrinks_handleStatusChange i s p : shrinks p (handleStatusChange i s p).
Proof.
  repeat split.
  - unfold handleStatusChange. destruct (connections p !! i); [|done].
    by destruct (isClosedStatus s).
  - unfold handleStatusChange. destruct (connections p !! i); [|done].
    by destruct (isClosedStatus s).
  - rewrite handleStatusChange_activeConnections. lia.
  - intros j Hj. rewrite handleStatusChange_connections.
    destruct (decide (i = j)) as [->|Hne].
    + by rewrite lookup_alter_eq, Hj.
    + by rewrite lookup_alter_ne.
  - apply counterMatches_handleStatusChange.
Qed.

Lemma shrinks_closeConnection i p : shrinks p (closeConnection i p).
Proof.
  unfold closeConnection. destruct (connections p !! i) as [c|];
    [|apply shrinks_refl].
  cbn [Sse.disconnect foldl onManagerEffect].
  eapply shrinks_trans; [apply shrinks_handleStatusChange|].
  apply shrinks_removeConnection.
Qed.

Lemma shrinks_closeConnections (l : list string) p :
  shrinks p (foldl (λ q k, closeConnection k q) p l).
Proof.
  revert p. induction l as [|k l IH]; intros p; [apply shrinks_refl|].
  cbn [foldl]. eapply shrinks_trans; [apply shrinks_closeConnection|apply IH].
Qed.

Lemma shrinks_cleanup_fold maxAge now
    (l : list (string * PooledConnection)) (acc : ConnectionPool * Z) :
  shrinks acc.1 (foldl (cleanupVisit maxAge now) acc l).1.
Proof.
  revert acc. induction l as [|e l IH]; intros acc; [apply shrinks_refl|].
  cbn [foldl]. eapply shrinks_trans; [|apply IH].
  unfold cleanupVisit. destruct (isStale maxAge now e.2);
    [apply shrinks_removeConnection|apply shrinks_refl].
Qed.

Lemma shrinks_removalTimerFires k p : shrinks p (removalTimerFires k p).
Proof.
  unfold removalTimerFires. destruct (removalTimers p !! k) as [i|];
    [|apply shrinks_refl].
  set (p1 := set_removalTimers _ p).
  assert (shrinks p p1) as H1 by by repeat split.
  destruct (connections p1 !! i); [|done].
  eapply shrinks_trans; [exact H1|apply shrinks_removeConnection].
Qed.

Lemma shrinks_handleEvent i ev now p : shrinks p (handleEvent i ev now p).
Proof.
  unfold handleEvent. destruct (connections p !! i); [|apply shrinks_refl].
  by repeat split.
Qed.

Lemma settled_shrinks p q : shrinks p q → settled p → settled q.
Proof.
  intros (Ho & Hc & Ha & Hn & Hm) (Hcm & Hcap & Hlen & Hfree).
  unfold settled, withinCapacity in *. rewrite Hc, Ho.
  repeat split; [auto|lia|done|].
  eapply Forall_impl; [exact Hfree|]. intros call. apply Hn.
Qed.

Lemma insert_settled call now p :
  counterMatches p → closingOld p = [] →
  connections p !! pendingId call = None →
  activeConnections p < maxConcurrentConnections (options p) →
  settled (createConnection_insert call now p).
Proof.
  intros Hcm Hcl Hfree Hlt.
  pose proof (counterMatches_insert call now p Hfree Hcm) as Hcm'.
  unfold settled, withinCapacity. split; [done|].
  unfold createConnection_insert.
  set (p2 := set_activeConnections _ _).
  destruct (shrinks_handleStatusChange (pendingId call) Sse.StConnecting p2)
    as (Ho & Hc & _ & _ & _).
  rewrite Hc, Ho, handleStatusChange_activeConnections.
  unfold p2. cbn [closingOld set_activeConnections set_connections options
                  activeConnections].
  rewrite Hcl. cbn [length]. repeat split; [lia|lia|constructor].
Qed.

Lemma replace_settled call now p :
  settled p → closingOld p = [] →
  activeConnections p < maxConcurrentConnections (options p) →
  settled (createConnection_replace call now p).
Proof.
  intros (Hcm & Hcap & Hlen & Hfree) Hcl Hlt. unfold createConnection_replace.
  destruct (connections p !! pendingId call) as [c|] eqn:Hi;
    [|by apply insert_settled].
  destruct (shrinks_closeConnection (pendingId call) p)
    as (Ho & Hc & Ha & Hn & Hm).
  pose proof (closeConnection_activeConnections _ _ _ Hi) as Hact.
  unfold settled, withinCapacity, counterMatches.
  cbn [set_closingOld closingOld activeConnections connections options].
  rewrite Hc, Hcl, Ho. cbn [app length].
  split; [by apply Hm|]. split.
  { rewrite Hact. destruct (Z.ltb_spec 0 (activeConnections p)); lia. }
  split; [lia|]. constructor; [|constructor].
  cbn [pendingId]. rewrite closeConnection_connections.
  apply lookup_delete_eq.
Qed.

Lemma settled_step p op :
  settled p →
  match op with
  | CallCreate _ _ _ _ | SlotTimer _ _ => closingOld p = []
  | _ => True
  end →
  settled (step p op).
Proof.
  intros Hp Hop.
  destruct op as [models cid generated now | k now | k now | cid | cid |
                  | maxAge now | cid s | cid ev now | k]; cbn [step].
  - unfold createConnection.
    destruct (Z.leb_spec (maxConcurrentConnections (options p))
                (activeConnections p)).
    + destruct Hp as (Hcm & Hcap & Hlen & Hfree). by repeat split.
    + by apply replace_settled.
  - unfold checkSlot. destruct (waitingForSlot p !! k) as [call|]; [|done].
    destruct (Z.ltb_spec (activeConnections p)
                (maxConcurrentConnections (options p))); [|done].
    apply replace_settled; [|done|done].
    destruct Hp as (Hcm & Hcap & Hlen & Hfree). by repeat split.
  - unfold createConnection_resume.
    destruct (closingOld p !! k) as [call|] eqn:Hk; [|done].
    destruct Hp as (Hcm & Hcap & Hlen & Hfree).
    destruct (closingOld p) as [|c [|c' l]] eqn:Hcl;
      [done| |cbn [length] in Hlen; lia].
    destruct k as [|k]; [|done]. cbn in Hk. injection Hk as ->.
    apply Forall_cons in Hfree as [Hfree _].
    unfold withinCapacity in Hcap. rewrite Hcl in Hcap. cbn [length] in Hcap.
    apply insert_settled; cbn [set_closingOld closingOld connections
      activeConnections options]; [done|done|done|lia].
  - by eapply settled_shrinks; [apply shrinks_removeConnection|].
  - by eapply settled_shrinks; [apply shrinks_closeConnection|].
  - by eapply settled_shrinks; [apply shrinks_closeConnections|].
  - eapply settled_shrinks; [|done].
    apply (shrinks_cleanup_fold maxAge now _ (p, 0)).
  - by eapply settled_shrinks; [apply shrinks_handleStatusChange|].
  - by eapply settled_shrinks; [apply shrinks_handleEvent|].
  - by eapply settled_shrinks; [apply shrinks_removalTimerFires|].
Qed.

Lemma insert_options call now p :
  options (createConnection_insert call now p) = options p.
Proof.
  unfold createConnection_insert.
  by destruct (shrinks_handleStatusChange (pendingId call) Sse.StConnecting
                 (set_activeConnections (activeConnections
                    (set_connections (<[pendingId call :=
                       {| id := pendingId call;
                          manager := Sse.newManager (retryOptions (options p));
                          models := pendingModels call;
                          status := Sse.StConnecting;
                          createdAt := now |}]> (connections p)) p) + 1)
                    (set_connections (<[pendingId call :=
                       {| id := pendingId call;
                          manager := Sse.newManager (retryOptions (options p));
                          models := pendingModels call;
                          status := Sse.StConnecting;
                          createdAt := now |}]> (connections p)) p)))
    as (-> & _).
Qed.

Lemma replace_options call now p :
  options (createConnection_replace call now p) = options p.
Proof.
  unfold createConnection_replace.
  destruct (connections p !! pendingId call); [|apply insert_options].
  cbn [set_closingOld options].
  by destruct (shrinks_closeConnection (pendingId call) p) as (-> & _).
Qed.

Lemma step_options p op : options (step p op) = options p.
Proof.
  destruct op as [models cid generated now | k now | k now | cid | cid |
                  | maxAge now | cid s | cid ev now | k]; cbn [step].
  - unfold createConnection. destruct (_ <=? _); [done|apply replace_options].
  - unfold checkSlot. destruct (waitingForSlot p !! k); [|done].
    destruct (_ <? _); [|done]. by rewrite replace_options.
  - unfold createConnection_resume. destruct (closingOld p !! k); [|done].
    by rewrite insert_options.
  - by destruct (shrinks_removeConnection cid p) as (-> & _).
  - by destruct (shrinks_closeConnection cid p) as (-> & _).
  - unfold closeAllConnections.
    by destruct (shrinks_closeConnections (keys p) p) as (-> & _).
  - unfold cleanupStaleConnections.
    by destruct (shrinks_cleanup_fold maxAge now
                   (map_to_list (connections p)) (p, 0)) as (-> & _).
  - by destruct (shrinks_handleStatusChange cid s p) as (-> & _).
  - by destruct (shrinks_handleEvent cid ev now p) as (-> & _).
  - by destruct (shrinks_removalTimerFires k p) as (-> & _).
Qed.

(** X9.  When no call of [createConnection] starts or leaves
    [waitForAvailableSlot] while another is suspended at
    [await this.closeConnection(id)], a pool whose counter is the size of
    its map and within [maxConcurrentConnections] stays so, whatever else
    happens in between (closes, cleanups, status changes, events, removal
    timers, failed connects): the counter equals the number of
    connections, which never exceeds [maxConcurrentConnections]. *)
Theorem awaited_creates_keep_the_pool_within_its_limit
    (ops : list Op) (p : ConnectionPool) :
  settled p → createsOneAtATime ops p →
  settled (run ops p)
  ∧ activeConnections (run ops p) = Z.of_nat (size (connections (run ops p)))
  ∧ Z.of_nat (size (connections (run ops p)))
    ≤ maxConcurrentConnections (options p).
Proof.
  revert p. induction ops as [|op ops IH]; intros p Hp Hops.
  - split; [done|]. destruct Hp as (Hcm & Hcap & _). cbn [run foldl].
    unfold counterMatches, withinCapacity in *. split; [done|]. lia.
  - destruct Hops as [Hop Hops]. cbn [run foldl].
    pose proof (settled_step p op Hp Hop) as Hp'.
    destruct (IH (step p op) Hp' Hops) as (H1 & H2 & H3).
    split; [done|]. split; [done|].
    by rewrite <- (step_options p op).
Qed.

Lemma awaited_creates_keep_the_pool_within_its_limit_witness :
  activeConnections (run awaitedCreates (newPool twoSlots)) = 2
  ∧ Z.of_nat (size (connections (run awaitedCreates (newPool twoSlots))))
    ≤ 2.
Proof.
  assert (settled (newPool twoSlots)) as Hp.
  { unfold settled, counterMatches, withinCapacity. simpl.
    repeat split; [lia|lia|constructor]. }
  assert (createsOneAtATime awaitedCreates (newPool twoSlots)) as Hops.
  { vm_compute. repeat split; reflexivity. }
  destruct (awaited_creates_keep_the_pool_within_its_limit awaitedCreates
              (newPool twoSlots) Hp Hops) as (_ & H2 & H3).
  split; [|exact H3]. vm_compute. reflexivity.
Defined.

(** ** The removal that a closed status schedules *)

Lemma handleStatusChange_present i s p c :
  connections p !! i = Some c →
  connections (handleStatusChange i s p) !! i = Some (set_status s c)
  ∧ removalTimers (handleStatusChange i s p)
    = removalTimers p ++ (if isClosedStatus s then [i] else []).
Proof.
  intros Hi. split.
  - by rewrite handleStatusChange_connections, lookup_alter_eq, Hi.
  - unfold handleStatusChange. rewrite Hi.
    destruct (isClosedStatus s); [done|]. cbn. by rewrite List.app_nil_r.
Qed.

Lemma last_default {A} (x : A) (l : list A) (d d' : A) :
  List.last (x :: l) d = List.last (x :: l) d'.
Proof.
  revert x. induction l as [|y l IH]; intros x; [done|].
  change (List.last (y :: l) d = List.last (y :: l) d'). apply IH.
Qed.

(** X10.  The removal that [handleStatusChange] schedules on a status
    [disconnected] or [error] is not cancelled by a later status: when the
    timer fires, the connection is removed whatever its status has become
    ([connecting] and [connected] included), and from then on
    [handleEvent] drops the events of that connection. *)
Theorem scheduled_removal_is_not_cancelled
    (i : string) (s : Sse.ConnectionStatus)
    (later : list Sse.ConnectionStatus) (c : PooledConnection)
    (p : ConnectionPool) :
  connections p !! i = Some c →
  isClosedStatus s = true →
  let p1 := handleStatusChange i s p in
  let p2 := foldl (λ q s', handleStatusChange i s' q) p1 later in
  let p3 := removalTimerFires (length (removalTimers p)) p2 in
  connections p2 !! i = Some (set_status (List.last later s) c)
  ∧ connections p3 !! i = None
  ∧ (∀ ev now, handleEvent i ev now p3 = p3).
Proof.
  intros Hi Hs p1 p2 p3.
  destruct (handleStatusChange_present i s p c Hi) as [Hc1 Ht1].
  rewrite Hs in Ht1. fold p1 in Hc1, Ht1.
  assert (∀ (l : list Sse.ConnectionStatus) q c' s0,
            connections q !! i = Some (set_status s0 c') →
            removalTimers q !! length (removalTimers p) = Some i →
            connections (foldl (λ q s', handleStatusChange i s' q) q l) !! i
            = Some (set_status (List.last l s0) c')
            ∧ removalTimers (foldl (λ q s', handleStatusChange i s' q) q l)
                !! length (removalTimers p) = Some i) as Hfold.
  { induction l as [|s1 l IH]; intros q c' s0 Hq Ht; [done|].
    cbn [foldl].
    destruct (handleStatusChange_present i s1 q _ Hq) as [Hq1 Ht1'].
    destruct (IH (handleStatusChange i s1 q) c' s1) as [H1 H2].
    - exact Hq1.
    - rewrite Ht1'. by apply lookup_app_l_Some.
    - split; [|done]. rewrite H1. destruct l as [|s2 l]; [done|].
      change (List.last (s1 :: s2 :: l) s0) with (List.last (s2 :: l) s0).
      by rewrite (last_default s2 l s1 s0). }
  destruct (Hfold later p1 c s Hc1) as [Hc2 Ht2].
  { rewrite Ht1. by rewrite list_lookup_middle. }
  fold p2 in Hc2, Ht2. split; [done|].
  assert (connections p3 !! i = None) as H3.
  { unfold p3, removalTimerFires. rewrite Ht2.
    cbn [set_removalTimers connections]. rewrite Hc2.
    rewrite removeConnection_connections. cbn [set_removalTimers connections].
    apply lookup_delete_eq. }
  split; [done|]. intros ev now. by apply handleEvent_absent.
Qed.

Lemma scheduled_removal_is_not_cancelled_witness :
  ∃ c,
    connections samplePool !! "live" = Some c
    ∧ connections
        (foldl (λ q s', handleStatusChange "live" s' q)
           (handleStatusChange "live" Sse.StError samplePool)
           [Sse.StConnecting; Sse.StConnected]) !! "live"
      = Some (set_status Sse.StConnected c)
    ∧ connections
        (removalTimerFires 1
           (foldl (λ q s', handleStatusChange "live" s' q)
              (handleStatusChange "live" Sse.StError samplePool)
              [Sse.StConnecting; Sse.StConnected])) !! "live" = None.
Proof.
  assert (is_Some (connections samplePool !! "live")) as [c Hc].
  { vm_compute. eauto. }
  exists c. split; [exact Hc|].
  destruct (scheduled_removal_is_not_cancelled "live" Sse.StError
              [Sse.StConnecting; Sse.StConnected] c samplePool Hc eq_refl)
    as (H1 & H2 & _).
  split; [exact H1|exact H2].
Defined.

(** ** Cleaning twice *)

Lemma cleanup_fold_idle maxAge now
    (l : list (string * PooledConnection)) (acc : ConnectionPool * Z) :
  Forall (λ entry, isStale maxAge now entry.2 = false) l →
  foldl (cleanupVisit maxAge now) acc l = acc.
Proof.
  revert acc. induction l as [|e l IH]; intros acc Hl; [done|].
  apply Forall_cons in Hl as [He Hl]. cbn [foldl].
  unfold cleanupVisit at 2. rewrite He. by apply IH.
Qed.

(** X11.  [cleanupStaleConnections] run a second time with the same
    [maxAge] at the same time removes nothing: it returns 0 and leaves the
    pool as the first run left it. *)
Theorem cleanupStaleConnections_twice (maxAge now : Z) (p : ConnectionPool) :
  cleanupStaleConnections maxAge now (cleanupStaleConnections maxAge now p).1
  = ((cleanupStaleConnections maxAge now p).1, 0).
Proof.
  set (q := (cleanupStaleConnections maxAge now p).1).
  unfold cleanupStaleConnections at 1. apply cleanup_fold_idle.
  apply Forall_forall. intros [i c] Hic.
  apply elem_of_map_to_list in Hic. unfold q in Hic.
  rewrite cleanupStaleConnections_lookup in Hic. cbn [snd].
  destruct (connections p !! i) as [c0|]; [|done].
  destruct (isStale maxAge now c0) eqn:E; [done|]. by injection Hic as <-.
Qed.

(** ** Reading the pool *)

Lemma countWith_cons s c (cs : list PooledConnection) :
  countWith s (c :: cs) = (if hasStatus s c then 1 else 0) + countWith s cs.
Proof.
  unfold countWith. cbn [List.filter]. destruct (hasStatus s c); [|lia].
  cbn [length]. lia.
Qed.

(** X12.  In the result of [getConnectionStats()], [total] is the size
    of the map and [active] is the counter; [connecting], [connected] and
    [error] leave out the connections whose status is [disconnected], so
    [total] is their sum plus the number of those; and [active] equals
    [total] when the counter agrees with the map. *)
Theorem getConnectionStats_counts (p : ConnectionPool) :
  let stats := getConnectionStats p in
  total stats = Z.of_nat (size (connections p))
  ∧ active stats = getActiveConnectionCount p
  ∧ total stats
    = connecting stats + connected stats + error stats
      + countWith Sse.StDisconnected (getAllConnections p)
  ∧ (counterMatches p → active stats = total stats).
Proof.
  cbn zeta. unfold getConnectionStats, getActiveConnectionCount.
  cbn [total active connecting connected error].
  assert (length (getAllConnections p) = size (connections p)) as Hlen.
  { unfold getAllConnections. rewrite length_fmap.
    apply length_map_to_list. }
  rewrite Hlen. split; [done|]. split; [done|]. split; [|done].
  rewrite <- Hlen. generalize (getAllConnections p). intros cs.
  induction cs as [|c cs IH]; [done|].
  rewrite !countWith_cons. cbn [length]. rewrite Nat2Z.inj_succ, IH.
  unfold hasStatus. destruct (status c); lia.
Qed.

End PoolSequential.

(* ===================================================================== *)
(** * The upstream adapter: chunks, messages and requests *)
(* ===================================================================== *)

Section AdapterStream.
Import Js Proxy.

Variable dc : string → option string.
Implicit Types (x : Mux) (r : Reading) (t : list Step).

Lemma messages_app t1 t2 : messages (t1 ++ t2) = messages t1 ++ messages t2.
Proof. apply omap_app. Qed.

Lemma shapes_app t1 t2 : shapes (t1 ++ t2) = shapes t1 ++ shapes t2.
Proof. unfold shapes. by rewrite messages_app, fmap_app. Qed.

Lemma emit_live ev d x :
  live x →
  emit ev d x = (enqueue {| event := ev; data := d |} x,
                 [Send {| event := ev; data := d |}])
  ∧ live (enqueue {| event := ev; data := d |} x).
Proof.
  intros [Ha Hw]. unfold emit, sendSSEMessage. rewrite Ha, Hw. done.
Qed.

Lemma processLines_live modelName now lines r x :
  live x →
  let out := processLines dc modelName now lines r x in
  let ls := lineShapes dc modelName lines (hasReceivedContent r) in
  shapes out.1.2 = ls.1.1
  ∧ out.2 = ls.2
  ∧ hasReceivedContent out.1.1.2 = ls.1.2
  ∧ buffer out.1.1.2 = buffer r
  ∧ live out.1.1.1.
Proof.
  revert r x. induction lines as [|line lines IH]; intros r x Hx; [done|].
  cbn [processLines lineShapes]. destruct Hx as [Ha Hw]. rewrite Ha.
  cbn [negb]. destruct (startsWith "data: " line); [|by apply IH].
  destruct (String.eqb _ "[DONE]").
  - destruct (emit_live (modelName +:+ "_end")
                (End (if hasReceivedContent r then "Response completed"
                      else "Response completed (empty)")
                     (Some (chunkCount r))) x (conj Ha Hw)) as [-> Hl].
    done.
  - destruct (dc (slice 6 line)) as [token|]; [|by apply IH].
    destruct (emit_live (modelName +:+ "_chunk") (Chunk token now) x
                (conj Ha Hw)) as [-> Hl].
    specialize (IH {| buffer := buffer r; chunkCount := chunkCount r;
                      hasReceivedContent := true |} _ Hl).
    cbn zeta in IH. cbn [hasReceivedContent buffer] in IH.
    destruct (processLines dc modelName now lines _ _) as [[[x2 r2] s2] b].
    destruct (lineShapes dc modelName lines true) as [[ms has'] ret].
    cbn [fst snd] in *. destruct IH as (<- & -> & -> & -> & Hl2).
    done.
Qed.

Lemma lineShapes_app modelName (l1 l2 : list string) has :
  lineShapes dc modelName (l1 ++ l2) has
  = let '(ms1, has1, ret1) := lineShapes dc modelName l1 has in
    if ret1 then (ms1, has1, true)
    else let '(ms2, has2, ret2) := lineShapes dc modelName l2 has1 in
         (ms1 ++ ms2, has2, ret2).
Proof.
  revert has. induction l1 as [|line l1 IH]; intros has.
  { cbn [app lineShapes]. by destruct (lineShapes dc modelName l2 has)
      as [[ms2 has2] ret2]. }
  cbn [app lineShapes]. destruct (startsWith "data: " line); [|apply IH].
  destruct (String.eqb _ "[DONE]"); [done|].
  destruct (dc (slice 6 line)) as [token|]; [|apply IH].
  rewrite IH. destruct (lineShapes dc modelName l1 true) as [[ms1 has1] ret1].
  destruct ret1; [done|].
  by destruct (lineShapes dc modelName l2 has1) as [[ms2 has2] ret2].
Qed.

(** ** Lines across chunks *)

Lemma split_resume sep (a rest : string) :
  split sep (a +:+ rest)
  = removelast (split sep a) ++ split sep (List.last (split sep a) "" +:+ rest).
Proof.
  rewrite (split_app sep a rest).
  rewrite (split_app sep (List.last (split sep a) "") rest).
  by rewrite (split_lacks sep _ (last_split_lacks sep a)).
Qed.

Lemma removelast_app_nonempty {A} (l1 l2 : list A) :
  l2 ≠ [] → removelast (l1 ++ l2) = l1 ++ removelast l2.
Proof. intros H. by apply List.removelast_app. Qed.

Lemma last_app_nonempty {A} (l1 l2 : list A) (d : A) :
  l2 ≠ [] → List.last (l1 ++ l2) d = List.last l2 d.
Proof.
  intros H. induction l1 as [|x l1 IH]; [done|].
  change ((x :: l1) ++ l2) with (x :: (l1 ++ l2)).
  destruct (l1 ++ l2) eqn:E; [|by rewrite <- IH].
  apply app_eq_nil in E as [_ ->]. done.
Qed.

Lemma length_last_split sep (s : string) :
  (String.length (List.last (split sep s) "") ≤ String.length s)%nat.
Proof.
  induction s as [|c s IH]; [done|]. cbn [split].
  pose proof (split_nonempty sep s).
  destruct (Ascii.eqb c sep).
  - destruct (split sep s) as [|h t] eqn:E; [done|].
    change (List.last ("" :: h :: t) "") with (List.last (h :: t) "").
    cbn [String.length]. lia.
  - destruct (split sep s) as [|h [|h2 t]] eqn:E; [done| |].
    + cbn [List.last String.length] in *. lia.
    + change (List.last (String c h :: h2 :: t) "")
        with (List.last (h :: h2 :: t) "").
      cbn [String.length]. lia.
Qed.

(** What the reading loop sends for a body does not depend on its
    chunks, as long as the buffer stays below the size at which it is
    cut. *)
Lemma readLoop_live modelName (reads : list (Z * string))
    (failure : option APIError) r x :
  live x → lacks nl (buffer r) = true →
  Forall (λ line, Z.of_nat (String.length line) ≤ 10000)
    (split nl (buffer r +:+ text reads)) →
  let out := readLoop dc modelName reads failure r x in
  let ls := lineShapes dc modelName
              (removelast (split nl (buffer r +:+ text reads)))
              (hasReceivedContent r) in
  shapes out.1.2 = ls.1.1
  ∧ out.2 = (if ls.2 then SawDone
             else match failure with
                  | Some e => ReadThrew e
                  | None => LeftLoop
                  end)
  ∧ (ls.2 = false → hasReceivedContent out.1.1.2 = ls.1.2)
  ∧ live out.1.1.1.
Proof.
  revert r x. induction reads as [|[now chunk] reads IH];
    intros r x Hx Hb Hlen.
  - cbn [text foldr readLoop]. rewrite string_app_nil_r.
    rewrite (split_lacks _ _ Hb). cbn [removelast lineShapes fst snd].
    destruct Hx as [Ha Hw]. rewrite Ha. cbn [negb].
    destruct failure; done.
  - change (text ((now, chunk) :: reads)) with (chunk +:+ text reads) in *.
    rewrite <- string_app_assoc in Hlen.
    rewrite (split_resume nl (buffer r +:+ chunk) (text reads)) in Hlen.
    apply Forall_app in Hlen as [_ Hlen].
    cbn [readLoop]. pose proof Hx as [Ha Hw]. rewrite Ha. cbn [negb].
    cbn [buffer set_buffer chunkCount hasReceivedContent].
    rewrite <- string_app_assoc.
    rewrite (split_resume nl (buffer r +:+ chunk) (text reads)).
    rewrite removelast_app_nonempty by apply split_nonempty.
    rewrite lineShapes_app.
    set (lines1 := split nl (buffer r +:+ chunk)).
    set (r2 := set_buffer (popOrEmpty lines1) _).
    assert (live (Proxy.set_lastActivity now x)) as Hx1 by done.
    pose proof (processLines_live modelName now (removelast lines1) r2 _ Hx1)
      as HL.
    cbn zeta in HL. change (hasReceivedContent r2) with (hasReceivedContent r) in HL.
    change (buffer r2) with (popOrEmpty lines1) in HL.
    destruct (processLines dc modelName now (removelast lines1) r2 _)
      as [[[x2 r3] s1] returned].
    destruct (lineShapes dc modelName (removelast lines1)
                (hasReceivedContent r)) as [[ms1 has1] ret1].
    cbn [fst snd] in HL. destruct HL as (Hs1 & -> & Hh1 & Hb1 & Hx2).
    destruct ret1.
    { cbn [fst snd]. done. }
    assert (Z.of_nat (String.length (buffer r3)) ≤ 10000) as Hlen3.
    { rewrite Hb1. unfold popOrEmpty. fold lines1 in Hlen.
      rewrite (split_app nl (List.last lines1 "") (text reads)) in Hlen.
      rewrite (split_lacks nl (List.last lines1 "")
                 (last_split_lacks nl (buffer r +:+ chunk))) in Hlen.
      cbn [removelast app List.last] in Hlen.
      apply Forall_cons in Hlen as [Hlen _].
      rewrite string_length_app in Hlen. lia. }
    replace (10000 <? Z.of_nat (String.length (buffer r3))) with false
      by (symmetry; apply Z.ltb_ge; lia).
    specialize (IH r3 x2 Hx2). cbn zeta in IH.
    rewrite Hb1, Hh1 in IH. unfold popOrEmpty in IH.
    destruct IH as (Hs2 & He2 & Hh2 & Hx3).
    { unfold lines1. apply last_split_lacks. }
    { exact Hlen. }
    destruct (readLoop dc modelName reads failure r3 x2)
      as [[[x3 r5] s2] ex].
    fold lines1.
    destruct (lineShapes dc modelName
                (removelast (split nl (List.last lines1 "" +:+ text reads)))
                has1) as [[ms2 has2] ret2].
    cbn [fst snd] in *. rewrite shapes_app, Hs1, Hs2. done.
Qed.

(** X13.  What the reading loop of [makeAIRequest] sends does not depend
    on how the upstream cuts the body into chunks: on a stream that is
    open, two series of chunks with the same bytes, no line of which is
    longer than 10000 characters, give the same messages up to their time
    stamps and chunk counts, leave the loop the same way, and, unless the
    loop returned at [DONE], agree on whether content was received. *)
Theorem adapter_reads_the_same_whatever_the_chunks
    (modelName : string) (reads1 reads2 : list (Z * string))
    (failure : option APIError) (r : Reading) (x : Mux) :
  connectionActive x = true → writable x = true →
  lacks nl (buffer r) = true →
  text reads1 = text reads2 →
  Forall (λ line, Z.of_nat (String.length line) ≤ 10000)
    (split nl (buffer r +:+ text reads1)) →
  let a := readLoop dc modelName reads1 failure r x in
  let b := readLoop dc modelName reads2 failure r x in
  shapes a.1.2 = shapes b.1.2
  ∧ a.2 = b.2
  ∧ (a.2 ≠ SawDone →
     hasReceivedContent a.1.1.2 = hasReceivedContent b.1.1.2).
Proof.
  intros Ha Hw Hb Htext Hlines a b.
  destruct (readLoop_live modelName reads1 failure r x (conj Ha Hw) Hb Hlines)
    as (Hs1 & He1 & Hh1 & _).
  rewrite Htext in Hlines.
  destruct (readLoop_live modelName reads2 failure r x (conj Ha Hw) Hb Hlines)
    as (Hs2 & He2 & Hh2 & _).
  rewrite <- Htext in *. fold a in Hs1, He1, Hh1. fold b in Hs2, He2, Hh2.
  split; [congruence|]. split; [congruence|].
  intros Hne.
  destruct (lineShapes dc modelName _ _).2; [done|].
  by rewrite Hh1, Hh2.
Qed.

End AdapterStream.


Section AdapterMessages.
Import Js Proxy.

Variable dc : string → option string.
Implicit Types (x : Mux) (r : Reading) (t : list Step) (up : Upstream).


Lemma messages_upstreamSteps t : messages (upstreamSteps t) = [].
Proof.
  induction t as [|s t IH]; [done|]. unfold upstreamSteps in *.
  cbn [List.filter]. by destruct s.
Qed.

Lemma messages_callOpenRouter up modelName delayMs :
  messages (callOpenRouter up modelName delayMs 0).1 = [].
Proof.
  unfold callOpenRouter. rewrite <- callOpenRouter_fuel_no_send.
  apply messages_upstreamSteps.
Qed.

Lemma emitError_live modelName e x :
  live x →
  ∃ msg b,
    emitError modelName e x
    = (enqueue {| event := modelName +:+ "_error";
                  data := ErrorInfo msg b |} x,
       [Send {| event := modelName +:+ "_error"; data := ErrorInfo msg b |}])
    ∧ live (enqueue {| event := modelName +:+ "_error";
                       data := ErrorInfo msg b |} x).
Proof.
  intros Hx. unfold emitError.
  destruct (includes "fetch" _);
    [eexists _, _; by apply emit_live|].
  destruct (includes "timeout" _);
    [eexists _, _; by apply emit_live|].
  destruct (includes "rate limit" _);
    eexists _, _; by apply emit_live.
Qed.

Lemma processLines_terminal modelName now lines r x :
  live x →
  let out := processLines dc modelName now lines r x in
  live out.1.1.1
  ∧ if out.2 then endsWithTerminal modelName (messages out.1.2)
    else Forall notTerminal (messages out.1.2).
Proof.
  revert r x. induction lines as [|line lines IH]; intros r x Hx.
  { split; [done|constructor]. }
  cbn [processLines]. pose proof Hx as [Ha Hw]. rewrite Ha. cbn [negb].
  destruct (startsWith "data: " line); [|by apply IH].
  destruct (String.eqb _ "[DONE]").
  - destruct (emit_live (modelName +:+ "_end")
                (End (if hasReceivedContent r then "Response completed"
                      else "Response completed (empty)")
                     (Some (chunkCount r))) x Hx) as [-> Hl].
    cbn [fst snd]. split; [done|]. eexists [], _. cbn [messages omap app].
    repeat split; [constructor|by left].
  - destruct (dc (slice 6 line)) as [token|]; [|by apply IH].
    destruct (emit_live (modelName +:+ "_chunk") (Chunk token now) x Hx)
      as [-> Hl].
    specialize (IH {| buffer := buffer r; chunkCount := chunkCount r;
                      hasReceivedContent := true |} _ Hl).
    cbn zeta in IH.
    destruct (processLines dc modelName now lines _ _) as [[[x2 r2] s2] b].
    cbn [fst snd] in *. destruct IH as [Hl2 IH]. split; [done|].
    change (messages ([Send ?m] ++ s2)) with (m :: messages s2).
    destruct b.
    + destruct IH as (before & final & -> & Hq & Hf & He).
      eexists (_ :: before), final. repeat split; [|done|done].
      by constructor.
    + by constructor.
Qed.

Lemma readLoop_terminal modelName (reads : list (Z * string))
    (failure : option APIError) r x :
  live x →
  let out := readLoop dc modelName reads failure r x in
  live out.1.1.1
  ∧ match out.2 with
    | SawDone => endsWithTerminal modelName (messages out.1.2)
    | _ => Forall notTerminal (messages out.1.2)
    end.
Proof.
  revert r x. induction reads as [|[now chunk] reads IH]; intros r x Hx.
  { cbn [readLoop]. pose proof Hx as [-> _]. cbn [negb].
    destruct failure; (split; [done|constructor]). }
  cbn [readLoop]. pose proof Hx as [Ha Hw]. rewrite Ha. cbn [negb].
  assert (live (Proxy.set_lastActivity now x)) as Hx1 by done.
  match goal with
  | |- context [processLines dc modelName now ?ls ?r' ?x'] =>
      pose proof (processLines_terminal modelName now ls r' x' Hx1) as HL;
      cbn zeta in HL;
      destruct (processLines dc modelName now ls r' x')
        as [[[x2 r3] s1] returned]
  end.
  cbn [fst snd] in HL. destruct HL as [Hx2 HL].
  destruct returned; [done|].
  match goal with
  | |- context [readLoop dc modelName reads failure ?r' x2] =>
      specialize (IH r' x2 Hx2); cbn zeta in IH;
      destruct (readLoop dc modelName reads failure r' x2)
        as [[[x3 r5] s2] ex]
  end.
  cbn [fst snd] in *. destruct IH as [Hx3 IH]. split; [done|].
  rewrite messages_app.
  destruct ex as [| |e].
  - destruct IH as (before & final & -> & Hq & Hf & He).
    exists (messages s1 ++ before), final.
    rewrite List.app_assoc. repeat split; [|done|done].
    by apply Forall_app.
  - by apply Forall_app.
  - by apply Forall_app.
Qed.

Lemma endsWithTerminal_one modelName (before : list SSEMessage) final :
  Forall notTerminal before →
  isTerminalPayload (data final) = true →
  event final = modelName +:+ "_end" ∨ event final = modelName +:+ "_error" →
  endsWithTerminal modelName (before ++ [final]).
Proof. intros. by exists before, final. Qed.

(** On a stream that is open, an adapter that runs alone sends
    [modelName_progress] first and finishes its target exactly once. *)
Lemma makeAIRequest_finishes
    (up : Upstream) (modelName : string) (index : nat) (x : Mux) :
  connectionActive x = true → writable x = true →
  let out := makeAIRequest dc up modelName index x in
  endsWithTerminal modelName (messages out.2)
  ∧ length (List.filter (λ msg, isTerminalPayload (data msg))
              (messages out.2)) = 1%nat
  ∧ hd_error (messages out.2)
    = Some {| event := modelName +:+ "_progress";
              data := Progress "connecting" "Connecting to model..." |}
  ∧ connectionActive out.1 = true
  ∧ writable out.1 = true.
Proof.
  intros Ha Hw out.
  assert (endsWithTerminal modelName (messages out.2)
          ∧ hd_error (messages out.2)
            = Some {| event := modelName +:+ "_progress";
                      data := Progress "connecting" "Connecting to model..." |}
          ∧ live out.1) as (Hend & Hhd & Hlive).
  { unfold out, makeAIRequest.
    destruct (emit_live (modelName +:+ "_progress")
                (Progress "connecting" "Connecting to model...") x
                (conj Ha Hw)) as [-> Hx1].
    pose proof (messages_callOpenRouter up modelName (staggerDelay index))
      as Hm2.
    pose proof (callOpenRouter_settles up modelName (staggerDelay index))
      as Hsettles.
    destruct (callOpenRouter up modelName (staggerDelay index) 0)
      as [s2 result].
    cbn [fst snd] in *.
    destruct result as [[body|]|e|]; [| | |done].
    - destruct (emit_live (modelName +:+ "_progress")
                  (Progress "streaming" "Receiving response...") _ Hx1)
        as [-> Hx2].
      pose proof (readLoop_terminal modelName (chunks body) (failure body)
                    {| buffer := ""; chunkCount := 0;
                       hasReceivedContent := false |} _ Hx2) as HR.
      cbn zeta in HR.
      destruct (readLoop dc modelName _ _ _ _) as [[[x3 r] s4] ex].
      cbn [fst snd] in HR. destruct HR as [Hx3 HR].
      destruct ex as [| |e].
      + cbn [fst snd]. rewrite !messages_app, Hm2. cbn [messages omap app].
        rewrite List.app_nil_r. split; [|done].
        destruct HR as (before & final & -> & Hq & Hf & He).
        eexists (_ :: _ :: before), final. repeat split; [|done|done].
        by repeat constructor.
      + destruct (hasReceivedContent r).
        * destruct (emit_live (modelName +:+ "_end")
                      (End "Response completed (stream ended)" None) _ Hx3)
            as [-> Hx4].
          cbn [fst snd]. rewrite !messages_app, Hm2.
          cbn [messages omap app]. split; [|done].
          eexists (_ :: _ :: messages s4), _. split; [done|].
          split; [by repeat constructor|]. split; [done|by left].
        * destruct (emitError_live modelName
                      (plainError
                         "Stream ended without receiving any content")
                      _ Hx3) as (msg & b & -> & Hx4).
          cbn [fst snd]. rewrite !messages_app, Hm2.
          cbn [messages omap app]. split; [|done].
          eexists (_ :: _ :: messages s4), _. split; [done|].
          split; [by repeat constructor|]. split; [done|by right].
      + destruct (emitError_live modelName e _ Hx3)
          as (msg & b & -> & Hx4).
        cbn [fst snd]. rewrite !messages_app, Hm2.
        cbn [messages omap app]. split; [|done].
        eexists (_ :: _ :: messages s4), _. split; [done|].
        split; [by repeat constructor|]. split; [done|by right].
    - destruct (emitError_live modelName
                  (plainError "No response stream received from the model")
                  _ Hx1) as (msg & b & -> & Hx2).
      cbn [fst snd]. rewrite !messages_app, Hm2. cbn [messages omap app].
      split; [|done]. eexists [_], _. split; [done|].
      split; [by repeat constructor|]. split; [done|by right].
    - destruct (emitError_live modelName e _ Hx1) as (msg & b & -> & Hx2).
      cbn [fst snd]. rewrite !messages_app, Hm2. cbn [messages omap app].
      split; [|done]. eexists [_], _. split; [done|].
      split; [by repeat constructor|]. split; [done|by right]. }
  split; [done|]. split; [|split; [done|done]].
  destruct Hend as (before & final & -> & Hq & Hf & _).
  rewrite List.filter_app, List.length_app. cbn [List.filter]. rewrite Hf.
  cbn [length]. clear -Hq. induction Hq as [|m l Hm Hl IH]; [done|].
  cbn [List.filter]. by rewrite Hm.
Qed.

End AdapterMessages.

Section AdapterScenarios.
Import Js Proxy.

Lemma adapter_reads_the_same_whatever_the_chunks_witness :
  shapes (readLoop bareToken "m" cutInALine None
            {| buffer := ""; chunkCount := 0; hasReceivedContent := false |}
            (start 0 ["m"])).1.2
  = shapes (readLoop bareToken "m" inOnePiece None
              {| buffer := ""; chunkCount := 0;
                 hasReceivedContent := false |}
              (start 0 ["m"])).1.2.
Proof.
  refine (proj1 (adapter_reads_the_same_whatever_the_chunks bareToken "m"
                   cutInALine inOnePiece None
                   {| buffer := ""; chunkCount := 0;
                      hasReceivedContent := false |}
                   (start 0 ["m"]) _ _ _ _ _)).
  - reflexivity.
  - reflexivity.
  - reflexivity.
  - vm_compute. reflexivity.
  - vm_compute. repeat constructor; discriminate.
Defined.

End AdapterScenarios.

Section AdapterRetries.
Import Js Proxy.

Implicit Types (x : Mux) (t : list Step) (up : Upstream).
Implicit Types (next : list Step * CallResult).

Lemma startWait_zero : startWait 0 = [].
Proof. done. Qed.

Lemma rateLimitDelay_lower n (rnd : Q) :
  (0 <= rnd)%Q → (1000 * pow2 n <= rateLimitDelay n rnd)%Q.
Proof.
  intros Hr. unfold rateLimitDelay. pose proof (pow2_ge_1 n). lra.
Qed.

Lemma networkDelay_lower n (rnd : Q) :
  (0 <= rnd)%Q → (1000 * pow2 n <= networkDelay n rnd)%Q.
Proof.
  intros Hr. unfold networkDelay. pose proof (pow2_ge_1 n). lra.
Qed.

Lemma spaced_retry n (d : Q) t :
  (1000 * pow2 n <= d)%Q → spaced (S n) t →
  spaced n ([Fetch n] ++ Wait d :: t).
Proof. intros Hd Ht. cbn [app spaced]. done. Qed.

Lemma caught_spaced up modelName n next e :
  (0 <= random up n)%Q → spaced (S n) next.1 →
  spaced n (caught up modelName n next [Fetch n] e).1.
Proof.
  intros Hr Hnext. unfold caught.
  destruct (_ && _); [|done].
  apply spaced_retry; [by apply networkDelay_lower|done].
Qed.

Lemma callOpenRouter_body_spaced up modelName n next :
  apiKey up = true → (0 <= random up n)%Q → spaced (S n) next.1 →
  spaced n (callOpenRouter_body up modelName 0 n next).1.
Proof.
  intros Hkey Hr Hnext. unfold callOpenRouter_body.
  rewrite Hkey, startWait_zero. cbn [negb app].
  destruct (answers up n) as [body|st txt|e].
  - done.
  - destruct (_ && _); [|by apply caught_spaced].
    apply spaced_retry; [by apply rateLimitDelay_lower|done].
  - by apply caught_spaced.
Qed.

Lemma callOpenRouter_fuel_spaced fuel up modelName n :
  apiKey up = true → (∀ k, (0 <= random up k)%Q) →
  spaced n (callOpenRouter_fuel fuel up modelName 0 n).1.
Proof.
  intros Hkey Hr. revert n. induction fuel as [|fuel IH]; intros n; [done|].
  cbn [callOpenRouter_fuel]. by apply callOpenRouter_body_spaced.
Qed.

Lemma callOpenRouter_body_prefix up modelName (delayMs : Q) n next :
  apiKey up = true →
  ∃ t, (callOpenRouter_body up modelName delayMs n next).1
       = startWait delayMs ++ t
       ∧ (callOpenRouter_body up modelName 0 n next).1 = t.
Proof.
  intros Hkey. unfold callOpenRouter_body. rewrite Hkey, startWait_zero.
  cbn [negb app].
  destruct (answers up n) as [body|st txt|e].
  - by eexists.
  - destruct (_ && _).
    + eexists. split; [|done]. unfold retryAfter. cbn [fst].
      by rewrite <- List.app_assoc.
    + unfold caught. destruct (_ && _); [|by eexists].
      eexists. split; [|done]. unfold retryAfter. cbn [fst].
      by rewrite <- List.app_assoc.
  - unfold caught. destruct (_ && _); [|by eexists].
    eexists. split; [|done]. unfold retryAfter. cbn [fst].
    by rewrite <- List.app_assoc.
Qed.

(** X15.  With a key configured, [callOpenRouter] does nothing but the
    initial wait, requests numbered 0, 1, ... (four at most) and, between
    request [k] and the next, one wait of at least [1000 * 2^k] ms,
    whatever the failures are that make it retry. *)
Theorem requests_are_spaced_out
    (up : Upstream) (modelName : string) (delayMs : Q) :
  apiKey up = true →
  (∀ k, (0 <= random up k)%Q) →
  ∃ t, (callOpenRouter up modelName delayMs 0).1 = startWait delayMs ++ t
       ∧ spaced 0 t
       ∧ (length (fetches t) ≤ 4)%nat.
Proof.
  intros Hkey Hr. unfold callOpenRouter. cbn [callOpenRouter_fuel].
  destruct (callOpenRouter_body_prefix up modelName delayMs 0
              (callOpenRouter_fuel maxRetries up modelName 0 1) Hkey)
    as (t & Ht & Ht0).
  exists t. split; [done|]. rewrite <- Ht0. split.
  - apply callOpenRouter_body_spaced; [done|done|].
    by apply callOpenRouter_fuel_spaced.
  - apply (callOpenRouter_fuel_fetches (S maxRetries) up modelName 0 0).
Qed.

Lemma requests_are_spaced_out_witness :
  ∃ t, (callOpenRouter limitedThrice "m" 2000 0).1 = startWait 2000 ++ t
       ∧ spaced 0 t
       ∧ (length (fetches t) ≤ 4)%nat.
Proof.
  apply (requests_are_spaced_out limitedThrice "m" 2000).
  - reflexivity.
  - intros k. unfold limitedThrice. cbn [random]. unfold Qle. simpl. lia.
Defined.

Lemma callOpenRouter_no_key up modelName (delayMs : Q) :
  apiKey up = false →
  callOpenRouter up modelName delayMs 0
  = (startWait delayMs, Rejected (nameModel modelName keyError)).
Proof.
  intros Hkey. unfold callOpenRouter. cbn [callOpenRouter_fuel].
  unfold callOpenRouter_body. rewrite Hkey. cbn [negb]. done.
Qed.

(** X16.  Without [OPENROUTER_API_KEY], [callOpenRouter] sends no
    request and is not retried: after the stagger wait it rejects with the
    key error, flagged not retryable, and [makeAIRequest] sends
    [modelName_progress] and one [modelName_error], which carries that
    message and [retryable = false] unless the message happens to hold
    [fetch], [timeout] or [rate limit]. *)
Theorem missing_key_sends_no_request
    (dc : string → option string) (up : Upstream) (modelName : string)
    (index : nat) (x : Mux) :
  apiKey up = false →
  let e := nameModel modelName keyError in
  callOpenRouter up modelName (staggerDelay index) 0
  = (startWait (staggerDelay index), Rejected e)
  ∧ retryable e = Some false
  ∧ fetches (makeAIRequest dc up modelName index x).2 = []
  ∧ (connectionActive x = true → writable x = true →
     ∃ msg b,
       messages (makeAIRequest dc up modelName index x).2
       = [ {| event := modelName +:+ "_progress";
              data := Progress "connecting" "Connecting to model..." |};
           {| event := modelName +:+ "_error"; data := ErrorInfo msg b |} ]
       ∧ (includes "fetch" (message e) = false →
          includes "timeout" (message e) = false →
          includes "rate limit" (message e) = false →
          msg = message e ∧ b = false)).
Proof.
  intros Hkey e. pose proof (callOpenRouter_no_key up modelName
                               (staggerDelay index) Hkey) as Hcall.
  split; [done|].
  assert (retryable e = Some false) as Hre.
  { unfold e, nameModel. by destruct (includes modelName _). }
  split; [done|]. split.
  - unfold makeAIRequest.
    destruct (emit _ _ x) as [x1 s1] eqn:E1. rewrite Hcall.
    cbv beta iota zeta. fold e.
    pose proof (emit_sendsOnly (modelName +:+ "_progress")
                  (Progress "connecting" "Connecting to model...") x) as H1.
    rewrite E1 in H1. cbn [snd] in H1.
    pose proof (emitError_sendsOnly modelName e x1) as H3.
    destruct (emitError modelName e x1) as [x2 s3]. cbn [snd] in *.
    rewrite !fetches_app, fetches_startWait.
    assert (∀ t, sendsOnly t → fetches t = []) as Hnone.
    { clear. intros t Ht. induction Ht as [|s t [Hs _] Ht IH]; [done|].
      by destruct s. }
    by rewrite (Hnone s1), (Hnone s3).
  - intros Ha Hw. unfold makeAIRequest.
    destruct (emit_live (modelName +:+ "_progress")
                (Progress "connecting" "Connecting to model...") x
                (conj Ha Hw)) as [-> Hx1].
    rewrite Hcall. cbv beta iota zeta. fold e.
    assert (messages (startWait (staggerDelay index)) = []) as Hm2.
    { unfold startWait. by destruct (Qle_bool _ _). }
    unfold emitError.
    destruct (includes "fetch" (message e)).
    { destruct (emit_live (modelName +:+ "_error")
                  (ErrorInfo "Network connection failed. Please check your internet connection." true)
                  _ Hx1) as [-> _].
      cbn [fst snd]. eexists _, _. rewrite !messages_app, Hm2. done. }
    destruct (includes "timeout" (message e)).
    { destruct (emit_live (modelName +:+ "_error")
                  (ErrorInfo "Request timed out. The model may be overloaded." true)
                  _ Hx1) as [-> _].
      cbn [fst snd]. eexists _, _. rewrite !messages_app, Hm2. done. }
    destruct (includes "rate limit" (message e)).
    { destruct (emit_live (modelName +:+ "_error")
                  (ErrorInfo "Too many requests. Please wait a moment before trying again." true)
                  _ Hx1) as [-> _].
      cbn [fst snd]. eexists _, _. rewrite !messages_app, Hm2. done. }
    destruct (emit_live (modelName +:+ "_error")
                (ErrorInfo (message e) (isTrue (retryable e))) _ Hx1)
      as [-> _].
    cbn [fst snd]. eexists _, _. rewrite !messages_app, Hm2.
    split; [done|]. intros _ _ _. by rewrite Hre.
Qed.

Lemma missing_key_sends_no_request_witness :
  fetches (makeAIRequest bareToken noKey "acme/llama-7b" 2
             (start 0 ["a"; "b"; "acme/llama-7b"])).2 = []
  ∧ callOpenRouter noKey "acme/llama-7b" (staggerDelay 2) 0
    = (startWait (staggerDelay 2),
       Rejected (nameModel "acme/llama-7b" keyError)).
Proof.
  destruct (missing_key_sends_no_request bareToken noKey "acme/llama-7b" 2
              (start 0 ["a"; "b"; "acme/llama-7b"]) eq_refl)
    as (H1 & _ & H2 & _).
  split; [exact H2|exact H1].
Defined.

End AdapterRetries.

(* ===================================================================== *)
(** * An adapter among the other tasks of the stream *)
(* ===================================================================== *)

Section AdapterAmong.
Import Js Proxy.

Variable dc : string → option string.
Implicit Types (x : Mux) (r : Reading) (t : list Step) (up : Upstream).
Implicit Types (es : list Meanwhile) (o : Others).

(** ** Alone *)

Lemma readLoop_among_alone modelName (reads : list (Z * string))
    (failure : option APIError) (n : nat) r x :
  readLoop_among dc modelName reads failure (whileReading alone) n r x
  = readLoop dc modelName reads failure r x.
Proof.
  revert n r x. induction reads as [|[now chunk] reads IH]; intros n r x;
    cbn [readLoop_among readLoop]; [done|].
  destruct (negb (connectionActive x)); [done|].
  cbn [alone whileReading among foldl].
  destruct (processLines dc modelName now _ _ _) as [[[x2 r3] s1] returned].
  destruct returned; [done|].
  change (λ _ : nat, @nil Meanwhile) with (whileReading alone).
  by rewrite IH.
Qed.

(** An adapter among other tasks that do nothing is the adapter alone. *)
Lemma makeAIRequest_among_alone up modelName (index : nat) x :
  makeAIRequest_among dc alone up modelName index x
  = makeAIRequest dc up modelName index x.
Proof.
  unfold makeAIRequest_among, makeAIRequest.
  destruct (emit _ _ x) as [x1 s1].
  destruct (callOpenRouter up modelName (staggerDelay index) 0)
    as [s2 result].
  cbn [alone whileCalling among foldl].
  destruct result as [[body|]|e|]; [|done|done|done].
  destruct (emit _ _ x1) as [x2 s3].
  change (λ _ : nat, @nil Meanwhile) with (whileReading alone).
  by rewrite readLoop_among_alone.
Qed.

(** ** While the stream stays open *)

Lemma staysOpen_app (last : Z) es1 es2 :
  staysOpen last (es1 ++ es2)
  ↔ staysOpen last es1 ∧ staysOpen (lastAfter last es1) es2.
Proof.
  revert last. induction es1 as [|e es1 IH]; intros last.
  { cbn [app staysOpen lastAfter foldl]. tauto. }
  change ((e :: es1) ++ es2) with (e :: (es1 ++ es2)).
  destruct e as [now|now|ev d|]; cbn [staysOpen lastAfter foldl].
  - fold (lastAfter last es1). rewrite IH. tauto.
  - fold (lastAfter now es1). apply IH.
  - fold (lastAfter last es1). apply IH.
  - tauto.
Qed.

Lemma among_staysOpen es x :
  live x → staysOpen (lastActivity x) es →
  live (among es x)
  ∧ lastActivity (among es x) = lastAfter (lastActivity x) es.
Proof.
  revert x. induction es as [|e es IH]; intros x Hx Hopen; [done|].
  unfold among, lastAfter in *. cbn [foldl].
  destruct Hx as [Ha Hw].
  destruct e as [now|now|ev d|]; cbn [staysOpen meanwhile] in *.
  - destruct Hopen as [Hnow Hopen].
    assert (live (heartbeatTick now x)
            ∧ lastActivity (heartbeatTick now x) = lastActivity x)
      as [Hx1 Hl1].
    { unfold heartbeatTick. destruct (heartbeatInterval x); [|done].
      cbn [negb]. rewrite Ha. cbn [negb].
      replace (staleThreshold <? now - lastActivity x) with false
        by (symmetry; apply Z.ltb_ge; lia).
      unfold sendSSEMessage. by rewrite Ha, Hw. }
    rewrite <- Hl1. apply IH; [done|]. by rewrite Hl1.
  - by apply (IH (set_lastActivity now x)).
  - assert (live (sendSSEMessage ev d x)
            ∧ lastActivity (sendSSEMessage ev d x) = lastActivity x)
      as [Hx1 Hl1].
    { unfold sendSSEMessage. by rewrite Ha, Hw. }
    rewrite <- Hl1. apply IH; [done|]. by rewrite Hl1.
  - done.
Qed.

(** On two streams that are open, the loop over the lines does the same. *)
Lemma processLines_open modelName now (lines : list string) r x x' :
  live x → live x' →
  let a := processLines dc modelName now lines r x in
  let b := processLines dc modelName now lines r x' in
  a.1.2 = b.1.2 ∧ a.2 = b.2 ∧ a.1.1.2 = b.1.1.2
  ∧ live a.1.1.1 ∧ live b.1.1.1
  ∧ lastActivity a.1.1.1 = lastActivity x.
Proof.
  revert r x x'. induction lines as [|line lines IH]; intros r x x' Hx Hx';
    [done|].
  cbn [processLines]. pose proof Hx as [Ha Hw]. pose proof Hx' as [Ha' Hw'].
  rewrite Ha, Ha'. cbn [negb].
  destruct (startsWith "data: " line); [|by apply IH].
  destruct (String.eqb _ "[DONE]").
  - destruct (emit_live (modelName +:+ "_end")
                (End (if hasReceivedContent r then "Response completed"
                      else "Response completed (empty)")
                     (Some (chunkCount r))) x Hx) as [-> Hl].
    destruct (emit_live (modelName +:+ "_end")
                (End (if hasReceivedContent r then "Response completed"
                      else "Response completed (empty)")
                     (Some (chunkCount r))) x' Hx') as [-> Hl'].
    done.
  - destruct (dc (slice 6 line)) as [token|]; [|by apply IH].
    destruct (emit_live (modelName +:+ "_chunk") (Chunk token now) x Hx)
      as [-> Hl].
    destruct (emit_live (modelName +:+ "_chunk") (Chunk token now) x' Hx')
      as [-> Hl'].
    specialize (IH {| buffer := buffer r; chunkCount := chunkCount r;
                      hasReceivedContent := true |} _ _ Hl Hl').
    cbn zeta in IH.
    destruct (processLines dc modelName now lines _
                (enqueue _ x)) as [[[x2 r2] s2] b2].
    destruct (processLines dc modelName now lines _
                (enqueue _ x')) as [[[x2' r2'] s2'] b2'].
    cbn [fst snd] in *.
    destruct IH as (-> & -> & -> & ? & ? & ->). done.
Qed.

(** As long as the stream stays open, the reading loop does among the
    other tasks what it does alone. *)
Lemma readLoop_among_open modelName (reads : list (Z * string))
    (failure : option APIError) (during : nat → list Meanwhile) (n : nat)
    r x x' :
  live x → live x' →
  staysOpen (lastActivity x) (readsTimeline during n reads) →
  let a := readLoop_among dc modelName reads failure during n r x in
  let b := readLoop dc modelName reads failure r x' in
  a.1.2 = b.1.2 ∧ a.2 = b.2 ∧ a.1.1.2 = b.1.1.2 ∧ live a.1.1.1.
Proof.
  revert n r x x'. induction reads as [|[now chunk] reads IH];
    intros n r x x' Hx Hx' Hopen;
    cbn [readLoop_among readLoop readsTimeline] in *;
    pose proof Hx as [Ha Hw]; pose proof Hx' as [Ha' Hw'];
    rewrite Ha, Ha'; cbn [negb].
  - rewrite app_nil_r in Hopen.
    destruct (among_staysOpen (during n) x Hx Hopen) as [Hx0 _].
    by destruct failure.
  - apply staysOpen_app in Hopen as [Hopen1 Hopen2].
    cbn [staysOpen] in Hopen2.
    destruct (among_staysOpen (during n) x Hx Hopen1) as [Hx0 _].
    assert (live (Proxy.set_lastActivity now (among (during n) x))) as Hx1
      by done.
    assert (live (Proxy.set_lastActivity now x')) as Hx1' by done.
    match goal with
    | |- context [processLines dc modelName now ?ls ?r' (Proxy.set_lastActivity now x')] =>
        pose proof (processLines_open modelName now ls r' _ _ Hx1 Hx1') as HL;
        cbn zeta in HL;
        destruct (processLines dc modelName now ls r'
                    (Proxy.set_lastActivity now (among (during n) x)))
          as [[[x2 r3] s1] returned];
        destruct (processLines dc modelName now ls r'
                    (Proxy.set_lastActivity now x'))
          as [[[x2' r3'] s1'] returned']
    end.
    cbn [fst snd] in HL. destruct HL as (-> & -> & -> & Hx2 & Hx2' & Hl2).
    destruct returned'; [done|].
    match goal with
    | |- context [readLoop dc modelName reads failure ?r' x2'] =>
        specialize (IH (S n) r' x2 x2' Hx2 Hx2')
    end.
    cbn zeta in IH. rewrite Hl2 in IH. specialize (IH Hopen2).
    destruct (readLoop_among dc modelName reads failure during (S n) _ x2)
      as [[[x3 r5] s2] ex].
    destruct (readLoop dc modelName reads failure _ x2')
      as [[[x3' r5'] s2'] ex'].
    cbn [fst snd] in *. destruct IH as (-> & -> & -> & Hx3). done.
Qed.

Lemma emitError_open modelName (e : APIError) x x' :
  live x → live x' →
  (emitError modelName e x).2 = (emitError modelName e x').2
  ∧ live (emitError modelName e x).1.
Proof.
  intros Hx Hx'. unfold emitError.
  destruct (includes "fetch" _);
    [destruct (emit_live (modelName +:+ "_error")
                 (ErrorInfo "Network connection failed. Please check your internet connection." true) x Hx) as [-> ?];
     destruct (emit_live (modelName +:+ "_error")
                 (ErrorInfo "Network connection failed. Please check your internet connection." true) x' Hx') as [-> ?]; done|].
  destruct (includes "timeout" _);
    [destruct (emit_live (modelName +:+ "_error")
                 (ErrorInfo "Request timed out. The model may be overloaded." true) x Hx) as [-> ?];
     destruct (emit_live (modelName +:+ "_error")
                 (ErrorInfo "Request timed out. The model may be overloaded." true) x' Hx') as [-> ?]; done|].
  destruct (includes "rate limit" _);
    [destruct (emit_live (modelName +:+ "_error")
                 (ErrorInfo "Too many requests. Please wait a moment before trying again." true) x Hx) as [-> ?];
     destruct (emit_live (modelName +:+ "_error")
                 (ErrorInfo "Too many requests. Please wait a moment before trying again." true) x' Hx') as [-> ?]; done|].
  destruct (emit_live (modelName +:+ "_error")
              (ErrorInfo (message e) (isTrue (retryable e))) x Hx) as [-> ?].
  destruct (emit_live (modelName +:+ "_error")
              (ErrorInfo (message e) (isTrue (retryable e))) x' Hx')
    as [-> ?].
  done.
Qed.

(** As long as the stream stays open, an adapter does among the other
    tasks what it does alone, and leaves the stream open. *)
Lemma makeAIRequest_among_open o up modelName (index : nat) x :
  live x →
  staysOpen (lastActivity x)
    (timeline o (callOpenRouter up modelName (staggerDelay index) 0).2) →
  (makeAIRequest_among dc o up modelName index x).2
  = (makeAIRequest dc up modelName index x).2
  ∧ live (makeAIRequest_among dc o up modelName index x).1.
Proof.
  intros Hx Hopen. unfold makeAIRequest_among, makeAIRequest, timeline in *.
  destruct (emit_live (modelName +:+ "_progress")
              (Progress "connecting" "Connecting to model...") x Hx)
    as [-> Hx1].
  destruct (callOpenRouter up modelName (staggerDelay index) 0)
    as [s2 result].
  cbn [snd] in Hopen. apply staysOpen_app in Hopen as [Hopen1 Hopen2].
  set (x1 := enqueue _ x) in *.
  destruct (among_staysOpen (whileCalling o) x1 Hx1 Hopen1) as [Hy1 Hl1].
  change (lastActivity x1) with (lastActivity x) in Hl1.
  destruct result as [[body|]|e|].
  - destruct (emit_live (modelName +:+ "_progress")
                (Progress "streaming" "Receiving response...") _ Hy1)
      as [-> Hy2].
    destruct (emit_live (modelName +:+ "_progress")
                (Progress "streaming" "Receiving response...") _ Hx1)
      as [-> Hx2].
    pose proof (readLoop_among_open modelName (chunks body) (failure body)
                  (whileReading o) 0
                  {| buffer := ""; chunkCount := 0;
                     hasReceivedContent := false |} _ _ Hy2 Hx2) as HR.
    cbn zeta in HR.
    pose proof (readLoop_terminal dc modelName (chunks body) (failure body)
                  {| buffer := ""; chunkCount := 0;
                     hasReceivedContent := false |} _ Hx2) as [Hx3 _].
    cbn zeta in Hx3.
    destruct (readLoop_among dc modelName _ _ _ _ _ _) as [[[y3 r] s4] ex].
    destruct (readLoop dc modelName _ _ _ _) as [[[x3 r'] s4'] ex'].
    cbn [fst snd] in *.
    destruct HR as (-> & -> & -> & Hy3).
    { change (lastActivity (enqueue _ (among (whileCalling o) x1)))
        with (lastActivity (among (whileCalling o) x1)).
      by rewrite Hl1. }
    destruct ex' as [| |e].
    + done.
    + destruct (hasReceivedContent r').
      * destruct (emit_live (modelName +:+ "_end")
                    (End "Response completed (stream ended)" None) _ Hy3)
          as [-> ?].
        destruct (emit_live (modelName +:+ "_end")
                    (End "Response completed (stream ended)" None) _ Hx3)
          as [-> ?].
        done.
      * destruct (emitError_open modelName
                    (plainError "Stream ended without receiving any content")
                    _ _ Hy3 Hx3) as [He Hl].
        destruct (emitError _ _ y3) as [y4 s5].
        destruct (emitError _ _ x3) as [x4 s5'].
        cbn [fst snd] in *. by subst.
    + destruct (emitError_open modelName e _ _ Hy3 Hx3) as [He Hl].
      destruct (emitError _ _ y3) as [y4 s5].
      destruct (emitError _ _ x3) as [x4 s5'].
      cbn [fst snd] in *. by subst.
  - destruct (emitError_open modelName
                (plainError "No response stream received from the model")
                _ _ Hy1 Hx1) as [He Hl].
    destruct (emitError _ _ (among _ _)) as [y2 s3].
    destruct (emitError _ _ x1) as [x2 s3'].
    cbn [fst snd] in *. by subst.
  - destruct (emitError_open modelName e _ _ Hy1 Hx1) as [He Hl].
    destruct (emitError _ _ (among _ _)) as [y2 s3].
    destruct (emitError _ _ x1) as [x2 s3'].
    cbn [fst snd] in *. by subst.
  - done.
Qed.


(** ** Whatever else runs *)

Lemma emit_messages ev (d : Payload) x :
  messages (emit ev d x).2 = []
  ∨ messages (emit ev d x).2 = [{| event := ev; data := d |}].
Proof. unfold emit. cbn [snd]. destruct (_ && _); [by right|by left]. Qed.

Lemma emitError_messages modelName (e : APIError) x :
  messages (emitError modelName e x).2 = []
  ∨ ∃ msg b, messages (emitError modelName e x).2
             = [{| event := modelName +:+ "_error";
                   data := ErrorInfo msg b |}].
Proof.
  unfold emitError.
  destruct (includes "fetch" _);
    [destruct (emit_messages (modelName +:+ "_error")
                 (ErrorInfo "Network connection failed. Please check your internet connection." true) x); eauto|].
  destruct (includes "timeout" _);
    [destruct (emit_messages (modelName +:+ "_error")
                 (ErrorInfo "Request timed out. The model may be overloaded." true) x); eauto|].
  destruct (includes "rate limit" _);
    [destruct (emit_messages (modelName +:+ "_error")
                 (ErrorInfo "Too many requests. Please wait a moment before trying again." true) x); eauto|].
  destruct (emit_messages (modelName +:+ "_error")
              (ErrorInfo (message e) (isTrue (retryable e))) x); eauto.
Qed.

Lemma finishesAtMostOnce_cons modelName (msg : SSEMessage) ms :
  notTerminal msg → finishesAtMostOnce modelName ms →
  finishesAtMostOnce modelName (msg :: ms).
Proof.
  intros Hmsg [Hms|(before & final & -> & Hq & Hf & He)].
  - left. by constructor.
  - right. exists (msg :: before), final. repeat split; [|done|done].
    by constructor.
Qed.

Lemma finishesAtMostOnce_app modelName (ms1 ms2 : list SSEMessage) :
  Forall notTerminal ms1 → finishesAtMostOnce modelName ms2 →
  finishesAtMostOnce modelName (ms1 ++ ms2).
Proof.
  induction 1 as [|msg ms1 Hmsg _ IH]; intros H2; [done|].
  change ((msg :: ms1) ++ ms2) with (msg :: (ms1 ++ ms2)).
  apply finishesAtMostOnce_cons; [done|]. by apply IH.
Qed.

(** The loop over the lines sends no message that finishes the target,
    except the end it may send when it returns at [DONE]. *)
Lemma processLines_once modelName now (lines : list string) r x :
  let out := processLines dc modelName now lines r x in
  if out.2 then finishesAtMostOnce modelName (messages out.1.2)
  else Forall notTerminal (messages out.1.2).
Proof.
  revert r x. induction lines as [|line lines IH]; intros r x.
  { constructor. }
  cbn [processLines]. destruct (negb (connectionActive x)); [constructor|].
  destruct (startsWith "data: " line); [|by apply IH].
  destruct (String.eqb _ "[DONE]").
  - destruct (emit_messages (modelName +:+ "_end")
                (End (if hasReceivedContent r then "Response completed"
                      else "Response completed (empty)")
                     (Some (chunkCount r))) x) as [H|H];
      destruct (emit _ _ x) as [x1 s1]; cbn [fst snd] in *; rewrite H.
    + left. constructor.
    + right. eexists [], _. repeat split; [constructor|by left].
  - destruct (dc (slice 6 line)) as [token|]; [|by apply IH].
    destruct (emit_messages (modelName +:+ "_chunk") (Chunk token now) x)
      as [H|H];
      destruct (emit _ _ x) as [x1 s1];
      specialize (IH {| buffer := buffer r; chunkCount := chunkCount r;
                        hasReceivedContent := true |} x1);
      cbn zeta in IH;
      destruct (processLines dc modelName now lines _ x1)
        as [[[x2 r2] s2] b];
      cbn [fst snd] in *; rewrite messages_app, H; cbn [app].
    + done.
    + destruct b.
      * by apply finishesAtMostOnce_cons.
      * by constructor.
Qed.

Lemma readLoop_among_once modelName (reads : list (Z * string))
    (failure : option APIError) (during : nat → list Meanwhile) (n : nat)
    r x :
  let out := readLoop_among dc modelName reads failure during n r x in
  match out.2 with
  | SawDone => finishesAtMostOnce modelName (messages out.1.2)
  | _ => Forall notTerminal (messages out.1.2)
  end.
Proof.
  revert n r x. induction reads as [|[now chunk] reads IH]; intros n r x;
    cbn [readLoop_among].
  { destruct (negb (connectionActive x)); [constructor|].
    destruct failure; constructor. }
  destruct (negb (connectionActive x)); [constructor|].
  match goal with
  | |- context [processLines dc modelName now ?ls ?r' ?x'] =>
      pose proof (processLines_once modelName now ls r' x') as HL;
      cbn zeta in HL;
      destruct (processLines dc modelName now ls r' x')
        as [[[x2 r3] s1] returned]
  end.
  cbn [fst snd] in HL. destruct returned; [done|].
  match goal with
  | |- context [readLoop_among dc modelName reads failure during (S n) ?r' x2] =>
      specialize (IH (S n) r' x2); cbn zeta in IH;
      destruct (readLoop_among dc modelName reads failure during (S n) r' x2)
        as [[[x3 r5] s2] ex]
  end.
  cbn [fst snd] in *. rewrite messages_app.
  destruct ex; [by apply finishesAtMostOnce_app| |]; by apply Forall_app.
Qed.

Lemma finishesAtMostOnce_count modelName (ms : list SSEMessage) :
  finishesAtMostOnce modelName ms →
  (length (List.filter (λ msg, isTerminalPayload (data msg)) ms) ≤ 1)%nat.
Proof.
  assert (∀ l, Forall notTerminal l →
               List.filter (λ msg, isTerminalPayload (data msg)) l = [])
    as Hnone.
  { induction 1 as [|m l Hm Hl IH]; [done|].
    cbn [List.filter]. by rewrite Hm. }
  intros [H|(before & final & -> & Hq & Hf & _)].
  - rewrite Hnone by done. cbn. lia.
  - rewrite List.filter_app, Hnone by done. cbn [List.filter app].
    rewrite Hf. cbn. lia.
Qed.

(** Whatever else runs on the stream, an adapter sends at most one
    message that finishes its target, and nothing after it. *)
Lemma makeAIRequest_among_once o up modelName (index : nat) x :
  finishesAtMostOnce modelName
    (messages (makeAIRequest_among dc o up modelName index x).2).
Proof.
  unfold makeAIRequest_among.
  assert (∀ y, Forall notTerminal
                 (messages (emit (modelName +:+ "_progress")
                              (Progress "connecting" "Connecting to model...")
                              y).2)
               ∧ Forall notTerminal
                   (messages (emit (modelName +:+ "_progress")
                                (Progress "streaming" "Receiving response...")
                                y).2)) as Hprogress.
  { intros y. split;
      (destruct (emit_messages (modelName +:+ "_progress")
                   (Progress "connecting" "Connecting to model...") y)
         as [->| ->] ||
       destruct (emit_messages (modelName +:+ "_progress")
                   (Progress "streaming" "Receiving response...") y)
         as [->| ->]); by repeat constructor. }
  assert (∀ e y, finishesAtMostOnce modelName
                   (messages (emitError modelName e y).2)) as Herror.
  { intros e y.
    destruct (emitError_messages modelName e y) as [->|(msg & b & ->)].
    - left. constructor.
    - right. eexists [], _. repeat split; [constructor|by right]. }
  pose proof (proj1 (Hprogress x)) as H1.
  destruct (emit _ _ x) as [x1 s1].
  pose proof (messages_callOpenRouter up modelName (staggerDelay index))
    as H2.
  destruct (callOpenRouter up modelName (staggerDelay index) 0)
    as [s2 result]. cbn [fst snd] in *.
  destruct result as [[body|]|e|].
  - pose proof (proj2 (Hprogress (among (whileCalling o) x1))) as H3.
    destruct (emit _ _ (among _ _)) as [x2 s3].
    pose proof (readLoop_among_once modelName (chunks body) (failure body)
                  (whileReading o) 0
                  {| buffer := ""; chunkCount := 0;
                     hasReceivedContent := false |} x2) as H4.
    cbn zeta in H4.
    destruct (readLoop_among dc modelName _ _ _ _ _ _) as [[[x3 r] s4] ex].
    cbn [fst snd] in *.
    assert (∃ x4 s5,
             (match ex with
              | SawDone => (x3, [])
              | LeftLoop =>
                  if hasReceivedContent r
                  then emit (modelName +:+ "_end")
                         (End "Response completed (stream ended)" None) x3
                  else emitError modelName
                         (plainError
                            "Stream ended without receiving any content")
                         x3
              | ReadThrew e => emitError modelName e x3
              end) = (x4, s5)
             ∧ finishesAtMostOnce modelName (messages (s4 ++ s5)))
      as (x4 & s5 & -> & H5).
    { destruct ex as [| |e].
      - exists x3, []. by rewrite app_nil_r.
      - destruct (hasReceivedContent r).
        + destruct (emit_messages (modelName +:+ "_end")
                      (End "Response completed (stream ended)" None) x3)
            as [H|H];
            destruct (emit _ _ x3) as [x4 s5]; exists x4, s5;
            (split; [done|]); rewrite messages_app;
            apply finishesAtMostOnce_app; [done| |done|];
            cbn [snd] in H; rewrite H.
          * left. constructor.
          * right. eexists [], _. repeat split; [constructor|by left].
        + pose proof (Herror
                        (plainError
                           "Stream ended without receiving any content") x3).
          destruct (emitError _ _ x3) as [x4 s5]. exists x4, s5.
          split; [done|]. rewrite messages_app.
          by apply finishesAtMostOnce_app.
      - pose proof (Herror e x3).
        destruct (emitError _ _ x3) as [x4 s5]. exists x4, s5.
        split; [done|]. rewrite messages_app.
        by apply finishesAtMostOnce_app. }
    cbn [snd]. rewrite !messages_app, H2. cbn [app].
    apply finishesAtMostOnce_app; [done|].
    apply finishesAtMostOnce_app; [done|].
    by rewrite <- messages_app.
  - pose proof (Herror
                  (plainError "No response stream received from the model")
                  (among (whileCalling o) x1)).
    destruct (emitError _ _ (among _ _)) as [x2 s3]. cbn [snd] in *.
    rewrite !messages_app, H2. cbn [app].
    by apply finishesAtMostOnce_app.
  - pose proof (Herror e (among (whileCalling o) x1)).
    destruct (emitError _ _ (among _ _)) as [x2 s3]. cbn [snd] in *.
    rewrite !messages_app, H2. cbn [app].
    by apply finishesAtMostOnce_app.
  - cbn [snd]. rewrite messages_app, H2, app_nil_r. by left.
Qed.

(** X14.  Whatever else runs on the stream while it waits (the interval
    callback, the other adapters, the consumer going away),
    [makeAIRequest] sends at most one message that finishes its target,
    and nothing after it.  When the stream is open at the start and stays
    open (no run of the interval callback finds it stale, the consumer
    stays), it sends [modelName_progress] first and finishes its target
    exactly once: its last message is [modelName_end] or
    [modelName_error], and the stream is still open afterwards. *)
Theorem adapter_finishes_its_target_once
    (o : Others) (up : Upstream) (modelName : string) (index : nat)
    (x : Mux) :
  let out := makeAIRequest_among dc o up modelName index x in
  finishesAtMostOnce modelName (messages out.2)
  ∧ (length (List.filter (λ msg, isTerminalPayload (data msg))
               (messages out.2)) ≤ 1)%nat
  ∧ (connectionActive x = true → writable x = true →
     staysOpen (lastActivity x)
       (timeline o (callOpenRouter up modelName (staggerDelay index) 0).2) →
     endsWithTerminal modelName (messages out.2)
     ∧ length (List.filter (λ msg, isTerminalPayload (data msg))
                 (messages out.2)) = 1%nat
     ∧ hd_error (messages out.2)
       = Some {| event := modelName +:+ "_progress";
                 data := Progress "connecting" "Connecting to model..." |}
     ∧ connectionActive out.1 = true
     ∧ writable out.1 = true).
Proof.
  intros out.
  pose proof (makeAIRequest_among_once o up modelName index x) as Honce.
  split; [done|]. split; [by apply (finishesAtMostOnce_count modelName)|].
  intros Ha Hw Hopen.
  destruct (makeAIRequest_among_open o up modelName index x (conj Ha Hw)
              Hopen) as [Hsteps Hlive].
  destruct (makeAIRequest_finishes dc up modelName index x Ha Hw)
    as (Hend & Hcount & Hhd & _).
  unfold out. rewrite Hsteps. by destruct Hlive.
Qed.


(** ** The trace of an adapter among the other tasks *)



(** ** Every rate-limited request *)






(** ** The tokens an adapter sends *)












End AdapterAmong.

Section AmongScenarios.
Import Js Proxy.

Lemma adapter_finishes_its_target_once_witness :
  length (List.filter (λ msg, isTerminalPayload (data msg))
            (messages
               (makeAIRequest_among bareToken busyOthers limitedThrice "m" 1
                  (start 0 ["k"; "m"])).2)) = 1%nat.
Proof.
  refine (proj1 (proj2 (proj2 (proj2
            (adapter_finishes_its_target_once bareToken busyOthers
               limitedThrice "m" 1 (start 0 ["k"; "m"]))) _ _ _))).
  - reflexivity.
  - reflexivity.
  - vm_compute. repeat split; discriminate.
Defined.


End AmongScenarios.

(* ===================================================================== *)
(** * The page: selection and tokens *)
(* ===================================================================== *)

Section ChatFacts.
Import Chat.

Implicit Types (a : App) (h : list Message) (m : string).

Lemma glue_snoc (toks : list string) (tok : string) :
  glue (toks ++ [tok]) = glue toks +:+ tok.
Proof.
  induction toks as [|t toks IH].
  - cbn [app glue foldr]. by rewrite string_app_nil_r.
  - change (t +:+ glue (toks ++ [tok]) = (t +:+ glue toks) +:+ tok).
    by rewrite IH, string_app_assoc.
Qed.

(** ** The selection *)

Lemma handleModelToggle_length modelId (prev : list string) :
  (length prev ≤ 4)%nat → (length (handleModelToggle modelId prev) ≤ 4)%nat.
Proof.
  intros H. unfold handleModelToggle.
  destruct (existsb _ prev).
  - etrans; [apply List.filter_length_le|done].
  - destruct (Nat.leb_spec 4 (length prev)); [done|].
    rewrite List.length_app. cbn [length]. lia.
Qed.

Lemma existsb_eqb_false modelId (prev : list string) :
  existsb (String.eqb modelId) prev = false → modelId ∉ prev.
Proof.
  intros H Hin. apply not_true_iff_false in H. apply H.
  apply existsb_exists. exists modelId. split; [|apply String.eqb_refl].
  by apply list_elem_of_In.
Qed.

Lemma handleModelToggle_NoDup modelId (prev : list string) :
  NoDup prev → NoDup (handleModelToggle modelId prev).
Proof.
  intros H. unfold handleModelToggle.
  destruct (existsb _ prev) eqn:E.
  - apply NoDup_ListNoDup, List.NoDup_filter, NoDup_ListNoDup, H.
  - destruct (4 <=? length prev)%nat; [done|].
    apply NoDup_app. split; [done|]. split; [|apply NoDup_singleton].
    intros x Hx ->%list_elem_of_singleton.
    by apply (existsb_eqb_false modelId prev).
Qed.

(** X17.  Whatever is clicked ([handleModelToggle], [onFocusModel]),
    [selectedModels] holds at most four models and none twice; toggling a
    selected model removes it, and toggling another model when four are
    selected changes nothing. *)
Theorem selection_holds_at_most_four (clicks : list Click) :
  (length (selection clicks) ≤ 4)%nat
  ∧ NoDup (selection clicks)
  ∧ (∀ modelId, modelId ∈ selection clicks →
       modelId ∉ handleModelToggle modelId (selection clicks))
  ∧ (∀ modelId, modelId ∉ selection clicks →
       (4 ≤ length (selection clicks))%nat →
       handleModelToggle modelId (selection clicks) = selection clicks).
Proof.
  assert (∀ prev, (length prev ≤ 4)%nat → NoDup prev →
            (length (foldl click prev clicks) ≤ 4)%nat
            ∧ NoDup (foldl click prev clicks)) as H.
  { induction clicks as [|c clicks IH]; intros prev Hl Hn; [done|].
    cbn [foldl]. destruct c as [modelId|modelId]; cbn [click].
    - apply IH; [by apply handleModelToggle_length
                |by apply handleModelToggle_NoDup].
    - apply IH; [cbn [length]; lia|apply NoDup_singleton]. }
  destruct (H [] (Nat.le_0_l 4) (NoDup_nil_2 (A:=string))) as [Hl Hn].
  fold (selection clicks) in Hl, Hn.
  split; [done|]. split; [done|]. split.
  - intros modelId Hin Hin'. unfold handleModelToggle in Hin'.
    replace (existsb (String.eqb modelId) (selection clicks)) with true
      in Hin'.
    + apply list_elem_of_In, List.filter_In in Hin' as [_ Hne].
      by rewrite String.eqb_refl in Hne.
    + symmetry. apply existsb_exists. exists modelId.
      split; [by apply list_elem_of_In|apply String.eqb_refl].
  - intros modelId Hnot Hfull. unfold handleModelToggle.
    replace (existsb (String.eqb modelId) (selection clicks)) with false.
    + by replace (4 <=? length (selection clicks))%nat with true
        by (symmetry; by apply Nat.leb_le).
    + symmetry. apply not_true_iff_false. intros Hex.
      apply existsb_exists in Hex as (x & Hx & Heq).
      apply String.eqb_eq in Heq as <-. by apply Hnot, list_elem_of_In.
Qed.

(** ** Tokens *)

Section Tokens.

Variable fields : string → Fields.

Lemma getModelState_insert m (st : ModelState) (ms : gmap string ModelState) :
  getModelState m (<[m := st]> ms) = st.
Proof. unfold getModelState. by rewrite lookup_insert_eq. Qed.

Lemma getModelState_insert_ne m m' (st : ModelState)
    (ms : gmap string ModelState) :
  m' ≠ m → getModelState m (<[m' := st]> ms) = getModelState m ms.
Proof. intros H. unfold getModelState. by rewrite lookup_insert_ne. Qed.

Lemma handleSSEEvent_other (ar : Arrival) a m :
  Sse.modelId (Pool.event (arrived ar)) ≠ m →
  modelsState (handleSSEEvent fields ar a) !! m = modelsState a !! m.
Proof.
  intros Hne. unfold handleSSEEvent.
  destruct (String.eqb _ "heartbeat"); [done|].
  destruct (String.eqb _ "chunk").
  { destruct (truthy _); [|done]. cbn [modelsState set_modelsState].
    by rewrite lookup_insert_ne. }
  destruct (String.eqb _ "progress").
  { cbn [modelsState set_modelsState]. by rewrite lookup_insert_ne. }
  destruct (String.eqb _ "error").
  { cbn [modelsState set_modelsState]. by rewrite lookup_insert_ne. }
  destruct (String.eqb _ "end"); [|done].
  cbn [modelsState set_modelsState]. by rewrite lookup_insert_ne.
Qed.

Lemma handleSSEEvent_history (ar : Arrival) a :
  let e := Pool.event (arrived ar) in
  let m := Sse.modelId e in
  history (getModelState m (modelsState (handleSSEEvent fields ar a)))
  = match (if String.eqb (Sse.type e) "chunk"
           then truthy (token (fieldsOf fields (Sse.data e))) else None) with
    | Some tok =>
        history (appendToken m tok (freshId ar) (currentTime ar)
                   (updateTime ar) (getModelState m (modelsState a)))
    | None => history (getModelState m (modelsState a))
    end.
Proof.
  cbn zeta. unfold handleSSEEvent.
  destruct (String.eqb (Sse.type _) "heartbeat") eqn:Eh.
  { apply String.eqb_eq in Eh. rewrite Eh. done. }
  destruct (String.eqb (Sse.type _) "chunk").
  { destruct (truthy _); [|done]. cbn [modelsState set_modelsState].
    by rewrite getModelState_insert. }
  destruct (String.eqb _ "progress").
  { cbn [modelsState set_modelsState]. by rewrite getModelState_insert. }
  destruct (String.eqb _ "error").
  { cbn [modelsState set_modelsState]. by rewrite getModelState_insert. }
  destruct (String.eqb _ "end"); [|done].
  cbn [modelsState set_modelsState]. by rewrite getModelState_insert.
Qed.

Lemma last_snoc' {A} (l : list A) (x : A) : last (l ++ [x]) = Some x.
Proof. apply last_snoc. Qed.

Lemma appendToken_first m tok fresh (now stamp : Z) (st : ModelState) :
  match last (history st) with
  | Some msg => isAnswerOf m msg = false
  | None => True
  end →
  history (appendToken m tok fresh now stamp st)
  = history st ++ [answer m fresh stamp tok].
Proof.
  intros H. unfold appendToken. cbn [history].
  destruct (last (history st)) as [msg|] eqn:E.
  - by rewrite H.
  - apply last_None in E. by rewrite E.
Qed.

Lemma appendToken_next m tok fresh fresh' (now stamp stamp' : Z)
    (st : ModelState) h text :
  history st = h ++ [answer m fresh' stamp' text] →
  history (appendToken m tok fresh now stamp st)
  = h ++ [answer m fresh' stamp' (text +:+ tok)].
Proof.
  intros H. unfold appendToken. cbn [history]. rewrite H, last_snoc.
  unfold isAnswerOf. cbn [answer role modelId]. rewrite String.eqb_refl.
  by rewrite removelast_last.
Qed.

Lemma tokensFor_one m (ar : Arrival) :
  tokensFor fields m [ar]
  = match (if String.eqb (Sse.modelId (Pool.event (arrived ar))) m
              && String.eqb (Sse.type (Pool.event (arrived ar))) "chunk"
           then truthy (token (fieldsOf fields
                                 (Sse.data (Pool.event (arrived ar)))))
           else None) with
    | Some tok => [tok]
    | None => []
    end.
Proof. done. Qed.

Lemma grown_step h m (acc : list string) (ar : Arrival) a :
  match last h with
  | Some msg => isAnswerOf m msg = false
  | None => True
  end →
  grown h m acc (history (getModelState m (modelsState a))) →
  grown h m (acc ++ tokensFor fields m [ar])
    (history (getModelState m
                (modelsState (handleSSEEvent fields ar a)))).
Proof.
  intros Hh Hacc. rewrite tokensFor_one.
  destruct (String.eqb_spec (Sse.modelId (Pool.event (arrived ar))) m)
    as [Hm|Hm].
  - pose proof (handleSSEEvent_history ar a) as H. cbn zeta in H.
    rewrite Hm in H. rewrite H. cbn [andb].
    destruct (String.eqb _ "chunk");
      [|cbv beta iota; by rewrite List.app_nil_r].
    destruct (truthy _) as [tok|];
      [|cbv beta iota; by rewrite List.app_nil_r].
    cbv beta iota.
    destruct acc as [|t acc].
    + cbn [grown app] in *. rewrite appendToken_first by (by rewrite Hacc).
      rewrite Hacc. eexists _, _. cbn [glue foldr].
      by rewrite string_app_nil_r.
    + cbn [grown] in Hacc. destruct Hacc as (fresh & stamp & Hacc).
      change ((t :: acc) ++ [tok]) with (t :: (acc ++ [tok])).
      cbn [grown]. exists fresh, stamp.
      rewrite (appendToken_next m tok _ fresh _ _ stamp _ h (glue (t :: acc)))
        by done.
      change (t :: acc ++ [tok]) with ((t :: acc) ++ [tok]).
      by rewrite glue_snoc.
  - cbn [andb]. cbv beta iota. rewrite List.app_nil_r.
    unfold getModelState. by rewrite handleSSEEvent_other.
Qed.

Lemma tokensFor_cons m (ar : Arrival) (events : list Arrival) :
  tokensFor fields m (ar :: events)
  = tokensFor fields m [ar] ++ tokensFor fields m events.
Proof.
  unfold tokensFor. change (ar :: events) with ([ar] ++ events).
  apply omap_app.
Qed.

Lemma tokens_grow (m : string) (events : list Arrival) (a : App) :
  match last (history (getModelState m (modelsState a))) with
  | Some msg => isAnswerOf m msg = false
  | None => True
  end →
  grown (history (getModelState m (modelsState a))) m
    (tokensFor fields m events)
    (history (getModelState m
                (modelsState (handleAllEvents fields events a)))).
Proof.
  intros Hh. set (h := history (getModelState m (modelsState a))).
  assert (∀ events a' acc,
            grown h m acc (history (getModelState m (modelsState a'))) →
            grown h m (acc ++ tokensFor fields m events)
              (history (getModelState m
                 (modelsState (handleAllEvents fields events a')))))
    as H.
  { clear events. induction events as [|ar events IH]; intros a' acc Hacc.
    - by rewrite List.app_nil_r.
    - rewrite tokensFor_cons, List.app_assoc.
      apply (IH (handleSSEEvent fields ar a')).
      by apply grown_step. }
  apply (H events a []). by cbn [grown].
Qed.

Lemma handleAllEvents_other (events : list Arrival) a other :
  Forall (λ ar, Sse.modelId (Pool.event (arrived ar)) ≠ other) events →
  modelsState (handleAllEvents fields events a) !! other
  = modelsState a !! other.
Proof.
  revert a. induction events as [|ar events IH]; intros a Hother; [done|].
  apply Forall_cons in Hother as [Hne Hother].
  cbn [handleAllEvents foldl]. etrans; [by apply IH|].
  by apply handleSSEEvent_other.
Qed.

(** X18.  The tokens of a model gather in one answer: when the history of
    a model does not end with an answer of that model (it ends with the
    question), then after any series of events of any models and types
    its history is the old one followed, if the series held at least one
    [chunk] of that model with a token that is not empty, by one
    assistant message whose content is these tokens in order, and is the
    old one otherwise; and the state of a model none of the events names
    is left as it was. *)
Theorem tokens_gather_in_one_answer
    (m : string) (events : list Arrival) (a : App) :
  match last (history (getModelState m (modelsState a))) with
  | Some msg => isAnswerOf m msg = false
  | None => True
  end →
  let h := history (getModelState m (modelsState a)) in
  let after := handleAllEvents fields events a in
  let tokens := tokensFor fields m events in
  (tokens = [] → history (getModelState m (modelsState after)) = h)
  ∧ (tokens ≠ [] →
     ∃ fresh stamp,
       history (getModelState m (modelsState after))
       = h ++ [answer m fresh stamp (glue tokens)])
  ∧ (∀ other,
       Forall (λ ar, Sse.modelId (Pool.event (arrived ar)) ≠ other) events →
       modelsState after !! other = modelsState a !! other).
Proof.
  intros Hh h after tokens. pose proof (tokens_grow m events a Hh) as H.
  fold h after tokens in H. split; [|split].
  - intros Hnone. by rewrite Hnone in H.
  - intros Hsome. by destruct tokens.
  - intros other. apply handleAllEvents_other.
Qed.

End Tokens.

Lemma tokens_gather_in_one_answer_witness :
  ∃ fresh stamp,
    history (getModelState "a"
               (modelsState (handleAllEvents bareFields interleaved asked)))
    = history (getModelState "a" (modelsState asked))
      ++ [answer "a" fresh stamp "Hello"].
Proof.
  assert (match last (history (getModelState "a" (modelsState asked))) with
          | Some msg => isAnswerOf "a" msg = false
          | None => True
          end) as Hh by (vm_compute; reflexivity).
  destruct (tokens_gather_in_one_answer bareFields "a" interleaved asked Hh)
    as (_ & H & _).
  destruct H as (fresh & stamp & H); [by vm_compute|].
  exists fresh, stamp. exact H.
Defined.

(** ** [handleSubmit] *)

Lemma askModel_fold_other (prompt : string) (t : Z)
    (fresh : string → string) (stamp : string → Z)
    (l : list string) (ms : gmap string ModelState) m :
  m ∉ l →
  foldl (askModel prompt t fresh stamp) ms l !! m = ms !! m.
Proof.
  revert ms. induction l as [|x l IH]; intros ms Hm; [done|].
  cbn [foldl]. rewrite IH.
  - unfold askModel. apply lookup_insert_ne. intros ->.
    apply Hm. by left.
  - intros H. apply Hm. by right.
Qed.

Lemma askModel_fold_in (prompt : string) (t : Z)
    (fresh : string → string) (stamp : string → Z)
    (l : list string) (ms : gmap string ModelState) m :
  NoDup l → m ∈ l →
  foldl (askModel prompt t fresh stamp) ms l !! m =
  Some {| history := history (getModelState m ms)
                       ++ [question prompt fresh stamp m];
          isLoading := true; error := None;
          progress := Some "Initializing..."; retryable := false;
          requestStartTime := Some t; firstTokenTime := None;
          lastTokenTime := None; responseEndTime := None |}.
Proof.
  revert ms. induction l as [|x l IH]; intros ms Hnd Hin.
  - by apply not_elem_of_nil in Hin.
  - apply NoDup_cons in Hnd as [Hx Hnd]. cbn [foldl].
    destruct (decide (m = x)) as [->|Hne].
    + rewrite askModel_fold_other by done.
      unfold askModel. by rewrite lookup_insert_eq.
    + apply elem_of_cons in Hin as [?|Hin]; [done|].
      rewrite IH by done. unfold getModelState at 1, askModel.
      by rewrite lookup_insert_ne by done.
Qed.

(** X19. [handleSubmit] with duplicate-free selected models: every
    selected model gets the prompt as a user message at the end of its own
    history and is loading, the other models are untouched, and the one
    context sent for all the selected models is the conversation of the
    first selected model followed by the prompt. *)
Theorem submit_sends_the_first_models_conversation (prompt : string)
    (t : Z) (fresh : string → string) (stamp : string → Z)
    (cur : option string) a (first : string) (rest : list string) :
  selectedModels a = first :: rest →
  NoDup (selectedModels a) →
  ∃ a' s,
    handleSubmit prompt t fresh stamp cur a = (a', Some s) ∧
    targets s = first :: rest ∧
    context s =
      getConversationContext (history (getModelState first (modelsState a)))
        ++ [(User, prompt)] ∧
    (∀ m, m ∈ selectedModels a →
       history (getModelState m (modelsState a')) =
         history (getModelState m (modelsState a))
           ++ [question prompt fresh stamp m] ∧
       isLoading (getModelState m (modelsState a')) = true) ∧
    (∀ m, m ∉ selectedModels a →
       modelsState a' !! m = modelsState a !! m).
Proof.
  intros Hsel Hnd. unfold handleSubmit. rewrite Hsel.
  eexists _, _. split; [reflexivity|].
  rewrite <- Hsel.
  split; [by cbn|]. split; [|split].
  - cbn [context]. rewrite askModel_fold_in; [|done|rewrite Hsel; by left].
    cbn [history]. unfold getConversationContext.
    by rewrite fmap_app.
  - intros m Hm. cbn [modelsState set_modelsState].
    unfold getModelState at 1 3.
    rewrite askModel_fold_in by done. by cbn.
  - intros m Hm. cbn [modelsState set_modelsState].
    by apply askModel_fold_other.
Qed.

Lemma submit_sends_the_first_models_conversation_witness :
  selectedModels joined = "a" :: ["b"] ∧
  NoDup (selectedModels joined) ∧
  ∃ a' s,
    handleSubmit "more" 5 (λ m, "id-" +:+ m) (λ _, 5) None joined
      = (a', Some s) ∧
    targets s = ["a"; "b"] ∧
    context s = [(User, "hi"); (Assistant, "hello"); (User, "more")].
Proof.
  assert (Hsel : selectedModels joined = "a" :: ["b"]) by reflexivity.
  assert (Hnd : NoDup (selectedModels joined)).
  { rewrite Hsel. apply NoDup_cons. split.
    - intros H. apply list_elem_of_singleton in H. discriminate H.
    - apply NoDup_singleton. }
  split; [exact Hsel|]. split; [exact Hnd|].
  destruct (submit_sends_the_first_models_conversation "more" 5
              (λ m, "id-" +:+ m) (λ _, 5) None joined "a" ["b"] Hsel Hnd)
    as (a' & s & Hrun & Htargets & Hcontext & _).
  exists a', s. split; [exact Hrun|]. split; [exact Htargets|].
  rewrite Hcontext. by vm_compute.
Defined.

End ChatFacts.
